(** * pddrive3d: the PDGSSVX3D example driver of SuperLU_DIST

    A shallow embedding of [EXAMPLE/pddrive3d.c].  The driver is a
    single-program-multiple-data program: every rank runs [main].  What a
    rank does is recorded as the list of the library calls and prints it
    performs, in program order, together with the way the run ends; the
    values the libraries hand back (the rank's place in the grid, the
    solver's status, the timings) are collected in an environment record.

    Integers are [Z] with the width of their C type written out
    ([int] is 32 bits, [int_t] is 64 bits since [XSDK_INDEX_SIZE] is 64);
    [double] and [float] values are IEEE-754 values of [SpecFloat].

    The configuration is the one of [superlu_dist_config.h]: neither CUDA
    nor HIP, so the code under [GPU_ACC] is left out, as is the code
    under [#if 0], under [#ifndef NRFRMT] and under [DEBUGlevel>=1].
    Assertions are taken to be compiled in.

    - [NRformat]: [checkNRFMT];
    - [Cmdline], [Options], [Driver]: [main] and what it is made of;
    - [Grid]: the map of ranks to grid positions, the groups of batch
      mode and the reductions over all ranks;
    - the properties follow, module by module. *)

From Stdlib Require Import ZArith Lia Bool Ascii String SpecFloat.
From stdpp Require Import base tactics option list.

Local Open Scope string_scope.
Local Open Scope list_scope.
Local Open Scope Z_scope.

(** ** C scalar types *)

Module CInt.

Definition INT_MIN : Z := - 2 ^ 31.
Definition INT_MAX : Z := 2 ^ 31 - 1.
Definition INT_T_MIN : Z := - 2 ^ 63.
Definition INT_T_MAX : Z := 2 ^ 63 - 1.

(** [int] *)
Definition in_int (z : Z) : bool := (INT_MIN <=? z) && (z <=? INT_MAX).
(** [int_t], a 64-bit integer in this configuration *)
Definition in_int_t (z : Z) : bool := (INT_T_MIN <=? z) && (z <=? INT_T_MAX).

(** Signed arithmetic: a result outside the type is undefined. *)
Definition int_mul (a b : Z) : option Z :=
  if in_int (a * b) then Some (a * b) else None.
Definition int_add (a b : Z) : option Z :=
  if in_int (a + b) then Some (a + b) else None.
(** [a / b] truncates towards zero. *)
Definition int_div (a b : Z) : option Z :=
  if b =? 0 then None
  else if in_int (Z.quot a b) then Some (Z.quot a b) else None.
Definition int_t_add (a b : Z) : option Z :=
  if in_int_t (a + b) then Some (a + b) else None.

End CInt.
Export CInt.

(** [double] and [float]: IEEE-754 binary64 and binary32. *)
Abbreviation double := spec_float (only parsing).
Abbreviation float := spec_float (only parsing).

(** [a == b] on floating-point values. *)
Definition fp_eq (a b : spec_float) : bool := SFeqb a b.
(** [a < b] on floating-point values. *)
Definition fp_lt (a b : spec_float) : bool := SFltb a b.

(** The conversion [(float) d] of an assignment of a [double] to a
    [float]: round to nearest, ties to even, in binary32. *)
Definition double_to_float (d : double) : float :=
  match d with
  | S754_finite s m e => binary_round 24 128 s m e
  | _ => d
  end.

(** ** What a run does *)

(** An argument of [printf]. *)
Inductive parg : Type :=
| PInt (z : Z)
| PFloat (f : spec_float)
| PStr (s : string).

(** The levels of thread support of MPI, in increasing order. *)
Inductive thread_level : Type :=
| MPI_THREAD_SINGLE
| MPI_THREAD_FUNNELED
| MPI_THREAD_SERIALIZED
| MPI_THREAD_MULTIPLE.

Definition thread_level_rank (l : thread_level) : Z :=
  match l with
  | MPI_THREAD_SINGLE => 0
  | MPI_THREAD_FUNNELED => 1
  | MPI_THREAD_SERIALIZED => 2
  | MPI_THREAD_MULTIPLE => 3
  end.

(** How a computation ends. *)
Inductive outcome (A : Type) : Type :=
| Ret (a : A)               (* ran to its end *)
| Exited (code : Z)         (* [exit (code)] *)
| Aborted (msg : string)    (* [ABORT (msg)] *)
| AssertFailed              (* an [assert] did not hold *)
| Undefined.                (* behaviour the C standard leaves undefined *)
Arguments Ret {A} a.
Arguments Exited {A} code.
Arguments Aborted {A} msg.
Arguments AssertFailed {A}.
Arguments Undefined {A}.

Section Prog.
(** A computation over events of type [E]: the events performed and
    the way it ended. *)
Context {E : Type}.

Definition prog (A : Type) : Type := (list E * outcome A)%type.

Definition ret {A} (a : A) : prog A := ([], Ret a).

Definition bind {A B} (m : prog A) (f : A -> prog B) : prog B :=
  match m with
  | (t, Ret a) => let '(t', o) := f a in (t ++ t', o)
  | (t, Exited c) => (t, Exited c)
  | (t, Aborted s) => (t, Aborted s)
  | (t, AssertFailed) => (t, AssertFailed)
  | (t, Undefined) => (t, Undefined)
  end.

Definition emit (e : E) : prog unit := ([e], Ret tt).
Definition stop {A} (o : outcome A) : prog A := ([], o).

(** [assert (b)] *)
Definition assert (b : bool) : prog unit :=
  if b then ret tt else stop AssertFailed.

(** A value that must be defined. *)
Definition defined {A} (o : option A) : prog A :=
  match o with Some a => ret a | None => stop Undefined end.

(** [a[i]]: reading outside the array is undefined. *)
Definition load {A} (a : list A) (i : Z) : prog A :=
  defined (if 0 <=? i then a !! Z.to_nat i else None).

(** [for (i = lo; i < lo + n; i++) body], [n] iterations left. *)
Fixpoint for_from (n : nat) (lo : Z) (body : Z -> prog unit) : prog unit :=
  match n with
  | O => ret tt
  | S n' => bind (body lo) (fun _ => for_from n' (lo + 1) body)
  end.

(** [for (i = lo; i < hi; i++) body] *)
Definition for_range (lo hi : Z) (body : Z -> prog unit) : prog unit :=
  for_from (Z.to_nat (hi - lo)) lo body.

(** The same loops when the body updates variables of type [S]. *)
Fixpoint for_from_st {S} (n : nat) (lo : Z) (body : Z -> S -> prog S) (s : S)
  : prog S :=
  match n with
  | O => ret s
  | S n' => bind (body lo s) (for_from_st n' (lo + 1) body)
  end.

Definition for_range_st {S} (lo hi : Z) (body : Z -> S -> prog S) (s : S)
  : prog S :=
  for_from_st (Z.to_nat (hi - lo)) lo body s.

(** [a[i] = x]: writing outside the array is undefined. *)
Definition store {A} (a : list A) (i : Z) (x : A) : prog (list A) :=
  if (0 <=? i) && (i <? Z.of_nat (length a))
  then ret (<[Z.to_nat i := x]> a)
  else stop Undefined.

Definition trace {A} (m : prog A) : list E := fst m.
Definition result {A} (m : prog A) : outcome A := snd m.
End Prog.
Arguments prog : clear implicits.

Declare Scope prog_scope.
Delimit Scope prog_scope with prog.
Notation "x <- m ;; k" := (bind m (fun x => k))
  (at level 100, m at next level, right associativity) : prog_scope.
Notation "m ;; k" := (bind m (fun _ => k))
  (at level 100, right associativity) : prog_scope.
Local Open Scope prog_scope.

(** ** checkNRFMT *)

Module NRformat.

(** A local block of rows in compressed-row storage. *)
Record NRformat_loc : Type := {
  nnz_loc : Z;            (* number of nonzeros in the local block *)
  m_loc : Z;              (* number of rows in the local block *)
  fst_row : Z;            (* global index of the first local row *)
  nzval : list double;
  rowptr : list Z;
  colind : list Z
}.

(** The only events of the checkers are prints. *)
Inductive out : Type :=
| printf (fmt : string) (args : list parg).

(** The body of the loop over the nonzeros. *)
Definition entry_check (A B : NRformat_loc) (i : Z) : prog out unit :=
  a <- load (nzval A) i ;;
  b <- load (nzval B) i ;;
  assert (fp_eq a b) ;;
  ca <- load (colind A) i ;;
  cb <- load (colind B) i ;;
  assert (ca =? cb) ;;
  emit (printf "colind[] correct\n" []).

(** The body of the loop over the row pointers. *)
Definition row_check (A B : NRformat_loc) (i : Z) : prog out unit :=
  ra <- load (rowptr A) i ;;
  rb <- load (rowptr B) i ;;
  assert (ra =? rb).

Definition checkNRFMT (A B : NRformat_loc) : prog out unit :=
  assert (nnz_loc A =? nnz_loc B) ;;
  assert (m_loc A =? m_loc B) ;;
  assert (fst_row A =? fst_row B) ;;
  for_range 0 (nnz_loc A) (entry_check A B) ;;
  hi <- defined (int_t_add (m_loc A) 1) ;;
  for_range 0 hi (row_check A B) ;;
  emit (printf "Matrix check passed\n" []).

(** [i + LD*j] *)
Definition mat_index (i LD j : Z) : option Z :=
  p ← int_mul LD j; int_add i p.

(** The body of the inner loop of [matCheck]. *)
Definition mat_entry_check (A : list double) (LDA : Z)
                           (B : list double) (LDB : Z) (j i : Z)
  : prog out unit :=
  ia <- defined (mat_index i LDA j) ;;
  a <- load A ia ;;
  ib <- defined (mat_index i LDB j) ;;
  b <- load B ib ;;
  assert (fp_eq a b).

Definition matCheck (n m : Z) (A : list double) (LDA : Z)
                    (B : list double) (LDB : Z) : prog out unit :=
  for_range 0 m (fun j =>
    for_range 0 n (mat_entry_check A LDA B LDB j)) ;;
  emit (printf "B check passed\n" []).

(** What one iteration of each loop asserts. *)
Definition entry_ok (A B : NRformat_loc) (i : Z) : bool :=
  match nzval A !! Z.to_nat i, nzval B !! Z.to_nat i,
        colind A !! Z.to_nat i, colind B !! Z.to_nat i with
  | Some a, Some b, Some ca, Some cb => fp_eq a b && (ca =? cb)
  | _, _, _, _ => false
  end.

Definition row_ok (A B : NRformat_loc) (i : Z) : bool :=
  match rowptr A !! Z.to_nat i, rowptr B !! Z.to_nat i with
  | Some ra, Some rb => ra =? rb
  | _, _ => false
  end.

(** The arrays of a block hold at least the entries its counts
    announce: [nnz_loc] values and column indices, [m_loc + 1] row
    pointers, with [m_loc + 1] an [int_t]. *)
Definition sized (M : NRformat_loc) : Prop :=
  nnz_loc M <= Z.of_nat (length (nzval M)) /\
  nnz_loc M <= Z.of_nat (length (colind M)) /\
  m_loc M + 1 <= Z.of_nat (length (rowptr M)) /\
  in_int_t (m_loc M) = true /\ m_loc M < INT_T_MAX.

(** Two blocks agree: same counts and first row, values equal under
    [==] and column indices equal among the first [nnz_loc] entries,
    row pointers equal up to index [m_loc]. *)
Definition agree (A B : NRformat_loc) : Prop :=
  nnz_loc A = nnz_loc B /\ m_loc A = m_loc B /\ fst_row A = fst_row B /\
  (forall i, 0 <= i < nnz_loc A ->
     exists a b, nzval A !! Z.to_nat i = Some a /\
                 nzval B !! Z.to_nat i = Some b /\ fp_eq a b = true) /\
  (forall i, 0 <= i < nnz_loc A ->
     colind A !! Z.to_nat i = colind B !! Z.to_nat i) /\
  (forall i, 0 <= i <= m_loc A ->
     rowptr A !! Z.to_nat i = rowptr B !! Z.to_nat i).

Definition passed_msg : out := printf "Matrix check passed\n" [].

(** The line [checkNRFMT] prints for each entry that passes. *)
Definition colind_msg : out := printf "colind[] correct\n" [].

(** The headers of two blocks are the same. *)
Definition same_header (A B : NRformat_loc) : Prop :=
  nnz_loc A = nnz_loc B /\ m_loc A = m_loc B /\ fst_row A = fst_row B.

(** None of the first [nnz_loc] values of a block is a NaN. *)
Definition nan_free (A : NRformat_loc) : Prop :=
  forall i a, 0 <= i < nnz_loc A -> nzval A !! Z.to_nat i = Some a ->
              a <> S754_nan.

(** The entries [matCheck] reads in a matrix of [n] rows and [m] columns
    with leading dimension [LD] exist, and their indices are [int]s. *)
Definition mat_in_bounds (n m : Z) (A : list double) (LD : Z) : Prop :=
  forall i j, 0 <= i < n -> 0 <= j < m ->
    in_int (LD * j) = true /\ in_int (i + LD * j) = true /\
    0 <= i + LD * j < Z.of_nat (length A).

(** The entries [matCheck] compares are equal under [==]. *)
Definition mat_agree (n m : Z) (A : list double) (LDA : Z)
                     (B : list double) (LDB : Z) : Prop :=
  forall i j, 0 <= i < n -> 0 <= j < m ->
    exists a b, A !! Z.to_nat (i + LDA * j) = Some a /\
                B !! Z.to_nat (i + LDB * j) = Some b /\ fp_eq a b = true.

Definition mat_passed_msg : out := printf "B check passed\n" [].

End NRformat.

(** ** The command line *)

Module Cmdline.

Definition isspace (c : ascii) : bool :=
  let n := Z.of_N (N_of_ascii c) in
  (n =? 32) || ((9 <=? n) && (n <=? 13)).

Definition digit_of (c : ascii) : option Z :=
  let n := Z.of_N (N_of_ascii c) in
  if (48 <=? n) && (n <=? 57) then Some (n - 48) else None.

Fixpoint skip_space (s : string) : string :=
  match s with
  | String c s' => if isspace c then skip_space s' else s
  | EmptyString => s
  end.

Fixpoint digits (s : string) (acc : Z) : Z :=
  match s with
  | String c s' =>
      match digit_of c with
      | Some d => digits s' (10 * acc + d)
      | None => acc
      end
  | EmptyString => acc
  end.

(** [atoi] of the C library: blanks, an optional sign, decimal digits;
    a value that does not fit an [int] is undefined. *)
Definition atoi (s : string) : option Z :=
  let v := match skip_space s with
           | String "-" s' => - digits s' 0
           | String "+" s' => digits s' 0
           | s' => digits s' 0
           end in
  if in_int v then Some v else None.

(** The variables the command line sets. *)
Record cmdline : Type := {
  nprow : Z;
  npcol : Z;
  npdep : Z;
  lookahead : Z;
  colperm : Z;
  rowperm : Z;
  ir : Z;
  batch : Z
}.

(** Their values before [argv] is read. *)
Definition cmdline_init : cmdline :=
  {| nprow := 1; npcol := 1; npdep := 1;
     lookahead := -1; colperm := -1; rowperm := -1; ir := -1;
     batch := 0 |}.

Definition set_nprow (v : cmdline) (n : Z) : cmdline :=
  {| nprow := n; npcol := npcol v; npdep := npdep v;
     lookahead := lookahead v; colperm := colperm v; rowperm := rowperm v;
     ir := ir v; batch := batch v |}.
Definition set_npcol (v : cmdline) (n : Z) : cmdline :=
  {| nprow := nprow v; npcol := n; npdep := npdep v;
     lookahead := lookahead v; colperm := colperm v; rowperm := rowperm v;
     ir := ir v; batch := batch v |}.
Definition set_npdep (v : cmdline) (n : Z) : cmdline :=
  {| nprow := nprow v; npcol := npcol v; npdep := n;
     lookahead := lookahead v; colperm := colperm v; rowperm := rowperm v;
     ir := ir v; batch := batch v |}.
Definition set_lookahead (v : cmdline) (n : Z) : cmdline :=
  {| nprow := nprow v; npcol := npcol v; npdep := npdep v;
     lookahead := n; colperm := colperm v; rowperm := rowperm v;
     ir := ir v; batch := batch v |}.
Definition set_colperm (v : cmdline) (n : Z) : cmdline :=
  {| nprow := nprow v; npcol := npcol v; npdep := npdep v;
     lookahead := lookahead v; colperm := n; rowperm := rowperm v;
     ir := ir v; batch := batch v |}.
Definition set_rowperm (v : cmdline) (n : Z) : cmdline :=
  {| nprow := nprow v; npcol := npcol v; npdep := npdep v;
     lookahead := lookahead v; colperm := colperm v; rowperm := n;
     ir := ir v; batch := batch v |}.
Definition set_ir (v : cmdline) (n : Z) : cmdline :=
  {| nprow := nprow v; npcol := npcol v; npdep := npdep v;
     lookahead := lookahead v; colperm := colperm v; rowperm := rowperm v;
     ir := n; batch := batch v |}.
Definition set_batch (v : cmdline) (n : Z) : cmdline :=
  {| nprow := nprow v; npcol := npcol v; npdep := npdep v;
     lookahead := lookahead v; colperm := colperm v; rowperm := rowperm v;
     ir := ir v; batch := n |}.

(** The options that take a number, their letter and their variable. *)
Inductive flag : Type := Fr | Fc | Fd | Fl | Fp | Fq | Fi | Fb.

Definition flag_char (f : flag) : ascii :=
  match f with
  | Fr => "r" | Fc => "c" | Fd => "d" | Fl => "l"
  | Fp => "p" | Fq => "q" | Fi => "i" | Fb => "b"
  end%char.

Definition flag_set (f : flag) : cmdline -> Z -> cmdline :=
  match f with
  | Fr => set_nprow | Fc => set_npcol | Fd => set_npdep
  | Fl => set_lookahead | Fp => set_rowperm | Fq => set_colperm
  | Fi => set_ir | Fb => set_batch
  end.

(** The argument [-x...] for the letter [x]. *)
Definition dash (c : ascii) (tail : string) : string :=
  String "-" (String c tail).

(** An argument that starts with a dash. *)
Definition is_option (a : string) : bool :=
  match a with String "-" _ => true | _ => false end.

Fixpoint no_dot (s : string) : bool :=
  match s with
  | EmptyString => true
  | String c rest => negb (c =? ".")%char && no_dot rest
  end.

(** [*( *cpp + 1)]: the character after the first one; it is the
    terminating zero when the argument has one character. *)
Definition second_char (a : string) : ascii :=
  match a with
  | String _ (String c _) => c
  | _ => "000"%char
  end.

(** The letters the [switch] has a case for. *)
Definition known_letter (c : ascii) : bool :=
  existsb (Ascii.eqb c) ["h"; "r"; "c"; "d"; "l"; "p"; "q"; "i"; "b"]%char.

(** The variable an option sets. *)
Definition flag_get (f : flag) : cmdline -> Z :=
  match f with
  | Fr => nprow | Fc => npcol | Fd => npdep | Fl => lookahead
  | Fp => rowperm | Fq => colperm | Fi => ir | Fb => batch
  end.

(** The command line as its user reads it: options come in pairs, an
    argument that starts with a dash and the argument after it, up to the
    first argument that does not start with a dash.  [last_given c args
    cur] is the argument that follows the last option of letter [c], and
    [cur] when there is none. *)
Fixpoint last_given (c : ascii) (args : list string) (cur : option string)
  : option string :=
  match args with
  | a :: rest =>
      if is_option a then
        match rest with
        | x :: rest' =>
            last_given c rest'
              (if (second_char a =? c)%char then Some x else cur)
        | [] => cur
        end
      else cur
  | [] => cur
  end.

(** The value given for the option of letter [c]: the number its last
    occurrence is followed by, and -1 when the option is not given. *)
Definition parsed_value (c : ascii) (args : list string) : Z :=
  match last_given c args None with
  | Some x => default (-1) (atoi x)
  | None => -1
  end.

(** The command line without the options of letter [c] and their
    values. *)
Fixpoint without_option (c : ascii) (args : list string) : list string :=
  match args with
  | a :: rest =>
      if is_option a then
        match rest with
        | x :: rest' =>
            if (second_char a =? c)%char then without_option c rest'
            else a :: x :: without_option c rest'
        | [] => args
        end
      else args
  | [] => []
  end.

End Cmdline.
Export Cmdline.

(** ** The options of the solver *)

Module Options.

Inductive yes_no_t : Type := NO | YES.
Inductive fact_t : Type :=
  DOFACT | SamePattern | SamePattern_SameRowPerm | FACTORED.
Inductive trans_t : Type := NOTRANS | TRANS | CONJ.

(** [ColPerm], [RowPerm] and [IterRefine] are enumerations the driver
    assigns integers to: they are kept as the integer they hold. *)
Record superlu_dist_options_t : Type := {
  Fact : fact_t;
  Equil : yes_no_t;
  ParSymbFact : yes_no_t;
  ColPerm : Z;
  RowPerm : Z;
  ReplaceTinyPivot : yes_no_t;
  IterRefine : Z;
  Trans : trans_t;
  SolveInitialized : yes_no_t;
  RefineInitialized : yes_no_t;
  PrintStat : yes_no_t;
  num_lookaheads : Z;
  lookahead_etree : yes_no_t;
  SymPattern : yes_no_t;
  DiagInv : yes_no_t;
  Algo3d : yes_no_t
}.

Definition set_Algo3d (o : superlu_dist_options_t) (x : yes_no_t) :=
  {| Fact := Fact o; Equil := Equil o; ParSymbFact := ParSymbFact o;
     ColPerm := ColPerm o; RowPerm := RowPerm o;
     ReplaceTinyPivot := ReplaceTinyPivot o; IterRefine := IterRefine o;
     Trans := Trans o; SolveInitialized := SolveInitialized o;
     RefineInitialized := RefineInitialized o; PrintStat := PrintStat o;
     num_lookaheads := num_lookaheads o;
     lookahead_etree := lookahead_etree o; SymPattern := SymPattern o;
     DiagInv := DiagInv o; Algo3d := x |}.
Definition set_DiagInv (o : superlu_dist_options_t) (x : yes_no_t) :=
  {| Fact := Fact o; Equil := Equil o; ParSymbFact := ParSymbFact o;
     ColPerm := ColPerm o; RowPerm := RowPerm o;
     ReplaceTinyPivot := ReplaceTinyPivot o; IterRefine := IterRefine o;
     Trans := Trans o; SolveInitialized := SolveInitialized o;
     RefineInitialized := RefineInitialized o; PrintStat := PrintStat o;
     num_lookaheads := num_lookaheads o;
     lookahead_etree := lookahead_etree o; SymPattern := SymPattern o;
     DiagInv := x; Algo3d := Algo3d o |}.
Definition set_ReplaceTinyPivot (o : superlu_dist_options_t) (x : yes_no_t) :=
  {| Fact := Fact o; Equil := Equil o; ParSymbFact := ParSymbFact o;
     ColPerm := ColPerm o; RowPerm := RowPerm o;
     ReplaceTinyPivot := x; IterRefine := IterRefine o;
     Trans := Trans o; SolveInitialized := SolveInitialized o;
     RefineInitialized := RefineInitialized o; PrintStat := PrintStat o;
     num_lookaheads := num_lookaheads o;
     lookahead_etree := lookahead_etree o; SymPattern := SymPattern o;
     DiagInv := DiagInv o; Algo3d := Algo3d o |}.
Definition set_RowPerm (o : superlu_dist_options_t) (x : Z) :=
  {| Fact := Fact o; Equil := Equil o; ParSymbFact := ParSymbFact o;
     ColPerm := ColPerm o; RowPerm := x;
     ReplaceTinyPivot := ReplaceTinyPivot o; IterRefine := IterRefine o;
     Trans := Trans o; SolveInitialized := SolveInitialized o;
     RefineInitialized := RefineInitialized o; PrintStat := PrintStat o;
     num_lookaheads := num_lookaheads o;
     lookahead_etree := lookahead_etree o; SymPattern := SymPattern o;
     DiagInv := DiagInv o; Algo3d := Algo3d o |}.
Definition set_ColPerm (o : superlu_dist_options_t) (x : Z) :=
  {| Fact := Fact o; Equil := Equil o; ParSymbFact := ParSymbFact o;
     ColPerm := x; RowPerm := RowPerm o;
     ReplaceTinyPivot := ReplaceTinyPivot o; IterRefine := IterRefine o;
     Trans := Trans o; SolveInitialized := SolveInitialized o;
     RefineInitialized := RefineInitialized o; PrintStat := PrintStat o;
     num_lookaheads := num_lookaheads o;
     lookahead_etree := lookahead_etree o; SymPattern := SymPattern o;
     DiagInv := DiagInv o; Algo3d := Algo3d o |}.
Definition set_num_lookaheads (o : superlu_dist_options_t) (x : Z) :=
  {| Fact := Fact o; Equil := Equil o; ParSymbFact := ParSymbFact o;
     ColPerm := ColPerm o; RowPerm := RowPerm o;
     ReplaceTinyPivot := ReplaceTinyPivot o; IterRefine := IterRefine o;
     Trans := Trans o; SolveInitialized := SolveInitialized o;
     RefineInitialized := RefineInitialized o; PrintStat := PrintStat o;
     num_lookaheads := x;
     lookahead_etree := lookahead_etree o; SymPattern := SymPattern o;
     DiagInv := DiagInv o; Algo3d := Algo3d o |}.
Definition set_IterRefine (o : superlu_dist_options_t) (x : Z) :=
  {| Fact := Fact o; Equil := Equil o; ParSymbFact := ParSymbFact o;
     ColPerm := ColPerm o; RowPerm := RowPerm o;
     ReplaceTinyPivot := ReplaceTinyPivot o; IterRefine := x;
     Trans := Trans o; SolveInitialized := SolveInitialized o;
     RefineInitialized := RefineInitialized o; PrintStat := PrintStat o;
     num_lookaheads := num_lookaheads o;
     lookahead_etree := lookahead_etree o; SymPattern := SymPattern o;
     DiagInv := DiagInv o; Algo3d := Algo3d o |}.

(** The integer values of the three enumeration constants the defaults
    name for the integer-valued options; [superlu_enum_consts.h], which
    declares them, is not among the sources. *)
Record enum_consts : Type := {
  METIS_AT_PLUS_A : Z;
  LargeDiag_MC64 : Z;
  SLU_DOUBLE : Z
}.

(** Modelled from the spec: [set_default_options_dist], whose source is
    absent.  Section 6 of the specification gives every option a
    documented default (equilibration on, tiny-pivot replacement off, a
    fixed look-ahead count); the values are the ones the comment above
    the call in the driver lists.  That comment does not list [Algo3d]:
    it is taken to be off. *)
Definition set_default_options_dist (k : enum_consts)
  : superlu_dist_options_t :=
  {| Fact := DOFACT;
     Equil := YES;
     ParSymbFact := NO;
     ColPerm := METIS_AT_PLUS_A k;
     RowPerm := LargeDiag_MC64 k;
     ReplaceTinyPivot := NO;
     IterRefine := SLU_DOUBLE k;
     Trans := NOTRANS;
     SolveInitialized := NO;
     RefineInitialized := NO;
     PrintStat := YES;
     num_lookaheads := 10;
     lookahead_etree := NO;
     SymPattern := NO;
     DiagInv := NO;
     Algo3d := NO |}.

(** The options the driver hands to the solver: the defaults, three
    settings of its own, then the overrides of the command line. *)
Definition driver_options (k : enum_consts) (v : cmdline)
  : superlu_dist_options_t :=
  let options := set_default_options_dist k in
  let options := set_Algo3d options YES in
  let options := set_DiagInv options YES in
  let options := set_ReplaceTinyPivot options YES in
  let options :=
    if negb (rowperm v =? -1) then set_RowPerm options (rowperm v)
    else options in
  let options :=
    if negb (colperm v =? -1) then set_ColPerm options (colperm v)
    else options in
  let options :=
    if negb (lookahead v =? -1) then set_num_lookaheads options (lookahead v)
    else options in
  let options :=
    if negb (ir v =? -1) then set_IterRefine options (ir v)
    else options in
  options.

End Options.
Export Options.

(** ** The driver *)

Module Driver.

(** The communicators the driver names. *)
Inductive comm : Type := MPI_COMM_WORLD | SubComm | grid_comm.

Inductive reduce_op : Type := MPI_MIN | MPI_MAX.

(** The calls and prints of [main], with the arguments that matter. *)
Inductive event : Type :=
| MPI_Init_thread (required : thread_level)
| MPI_Comm_rank (c : comm)
| printf (fmt : string) (args : list parg)
| fflush_stdout
| fopen (name mode : string)
| SUPERLU_MALLOC_usermap (count : Z)
| MPI_Comm_split (c : comm) (color key : Z)
| superlu_gridmap3d (c : comm) (nprow npcol npdep : Z)
                    (usermap : list (option Z))
| SUPERLU_FREE_usermap
| superlu_gridinit3d (c : comm) (nprow npcol npdep : Z)
| MPI_Query_thread
| superlu_dist_GetVersionNumber
| dcreate_matrix_postfix3d (nrhs : Z) (name : string) (suffix : option string)
| doubleMalloc_dist (n : Z)
| print_options_dist (o : superlu_dist_options_t)
| dScalePermstructInit (m n : Z)
| dLUstructInit (n : Z)
| PStatInit
| pdgssvx3d (o : superlu_dist_options_t) (ldb nrhs : Z)
| pdinf_norm_error (iam m_loc nrhs ldb ldx : Z)
| PStatPrint (o : superlu_dist_options_t)
| dDestroy_LU (n : Z)
| dSolveFinalize (o : superlu_dist_options_t)
| dDeAllocLlu_3d (n : Z)
| dDeAllocGlu_3d
| dDestroy_A3d_gathered_on_2d
| Destroy_CompRowLoc_Matrix_dist
| SUPERLU_FREE_b
| SUPERLU_FREE_xtrue
| SUPERLU_FREE_berr
| dScalePermstructFree
| dLUstructFree
| fclose
| MPI_Allreduce (op : reduce_op) (c : comm) (send : float * float)
| superlu_gridexit3d
| PStatFree
| MPI_Finalize.

(** What the libraries hand back to one rank during its run. *)
Record environment : Type := {
  provided : thread_level;    (* thread support granted by MPI_Init_thread *)
  world_rank : Z;             (* the rank in MPI_COMM_WORLD *)
  file_exists : string -> bool;   (* whether fopen (name, "r") succeeds *)
  grid_iam : Z;               (* grid.iam once the grid is built *)
  grid_zscp_Iam : Z;          (* grid.zscp.Iam, the depth coordinate *)
  omp_mpi_level : thread_level;   (* what MPI_Query_thread reports *)
  stdc_version : Z;           (* __STDC_VERSION__ *)
  version : Z * Z * Z;        (* superlu_dist_GetVersionNumber *)
  berr_malloc_ok : bool;      (* whether doubleMalloc_dist succeeds *)
  A_nrow : Z;                 (* A.nrow *)
  A_ncol : Z;                 (* A.ncol *)
  A_m_loc : Z;                (* ((NRformat_loc * ) A.Store)->m_loc *)
  ldb : Z;
  ldx : Z;
  info : Z;                   (* the status pdgssvx3d stores *)
  utime_FACT : double;        (* stat.utime[FACT] at label out *)
  utime_SOLVE : double;       (* stat.utime[SOLVE] at label out *)
  all_min : float * float;    (* what MPI_Allreduce with MPI_MIN stores *)
  all_max : float * float     (* what MPI_Allreduce with MPI_MAX stores *)
}.

Definition nrhs : Z := 1.

Section Main.
Variable k : enum_consts.
Variable env : environment.

(** The start: MPI with threads. *)
Definition init_mpi : prog event unit :=
  emit (MPI_Init_thread MPI_THREAD_MULTIPLE) ;;
  if thread_level_rank (provided env)
     <? thread_level_rank MPI_THREAD_MULTIPLE
  then
    emit (MPI_Comm_rank MPI_COMM_WORLD) ;;
    if world_rank env =? 0 then
      emit (printf "The MPI library doesn't provide MPI_THREAD_MULTIPLE \n" []) ;;
      emit (printf "\tprovided omp_mpi_level: %d\n"
                   [PInt (thread_level_rank (provided env))])
    else ret tt
  else ret tt.

Definition help (v : cmdline) : prog event (cmdline * option string) :=
  emit (printf "Options:\n" []) ;;
  emit (printf "\t-r <int>: process rows    (default %d)\n" [PInt (nprow v)]) ;;
  emit (printf "\t-c <int>: process columns (default %d)\n" [PInt (npcol v)]) ;;
  emit (printf "\t-d <int>: process Z-dimension (default %d)\n" [PInt (npdep v)]) ;;
  stop (Exited 0).

(** The loop over [argv + 1]: [args] is what [cpp] points at and
    beyond, up to the terminating null pointer.  It yields the
    variables set and the string [cpp] is left pointing at, if any. *)
Fixpoint parse_args (args : list string) (v : cmdline)
  : prog event (cmdline * option string) :=
  match args with
  | [] => ret (v, None)
  | a :: rest =>
      match a with
      | String "-" a' =>
          let c := match a' with
                   | String c _ => c
                   | EmptyString => "000"%char
                   end in
          (* ++cpp; [rest] is now what [cpp] points at *)
          let number (set : cmdline -> Z -> cmdline) :=
            match rest with
            | [] => stop Undefined                (* atoi of a null pointer *)
            | x :: rest' => n <- defined (atoi x) ;; parse_args rest' (set v n)
            end in
          if (c =? "h")%char then help v
          else if (c =? "r")%char then number set_nprow
          else if (c =? "c")%char then number set_npcol
          else if (c =? "d")%char then number set_npdep
          else if (c =? "l")%char then number set_lookahead
          else if (c =? "p")%char then number set_rowperm
          else if (c =? "q")%char then number set_colperm
          else if (c =? "i")%char then number set_ir
          else if (c =? "b")%char then number set_batch
          else
            match rest with
            | [] => stop Undefined     (* the loop steps past the end of argv *)
            | _ :: rest' => parse_args rest' v
            end
      | _ =>
          (* Last arg is considered a filename *)
          emit (fopen a "r") ;;
          if file_exists env a then ret (v, Some a)
          else stop (Aborted "File does not exist")
      end
  end.

(** [nprow*npcol*npdep] *)
Definition grid_size (v : cmdline) : option Z :=
  rc ← int_mul (nprow v) (npcol v); int_mul rc (npdep v).

(** [i + j*nprow + k*nprow*npcol] *)
Definition usermap_index (v : cmdline) (i j k : Z) : option Z :=
  jn ← int_mul j (nprow v);
  s ← int_add i jn;
  kn ← int_mul k (nprow v);
  knc ← int_mul kn (npcol v);
  int_add s knc.

(** The three loops that fill [usermap]; the variables they update
    are the array and the counter [p].  A slot never written holds
    [None]. *)
Definition fill_usermap (v : cmdline) (usermap : list (option Z))
  : prog event (list (option Z) * Z) :=
  for_range_st 0 (npdep v) (fun k =>
    for_range_st 0 (nprow v) (fun i =>
      for_range_st 0 (npcol v) (fun j st =>
        idx <- defined (usermap_index v i j k) ;;
        usermap <- store (fst st) idx (Some (snd st)) ;;
        p <- defined (int_add (snd st) 1) ;;
        ret (usermap, p))))
    (usermap, 0).

(** The process grid: one grid per group of ranks in batch mode, one
    grid over all ranks otherwise.  The allocation of [usermap] is
    taken to succeed. *)
Definition init_grid (v : cmdline) : prog event unit :=
  if negb (batch v =? 0) then
    emit (MPI_Comm_rank MPI_COMM_WORLD) ;;
    let myrank := world_rank env in
    count <- defined (grid_size v) ;;
    emit (SUPERLU_MALLOC_usermap count) ;;
    color <- defined (int_div myrank count) ;;
    emit (MPI_Comm_split MPI_COMM_WORLD color myrank) ;;
    st <- fill_usermap v (replicate (Z.to_nat count) None) ;;
    emit (superlu_gridmap3d SubComm (nprow v) (npcol v) (npdep v) (fst st)) ;;
    emit SUPERLU_FREE_usermap
  else
    emit (superlu_gridinit3d MPI_COMM_WORLD (nprow v) (npcol v) (npdep v)).

Definition thread_report : prog event unit :=
  if grid_iam env =? 0 then
    emit MPI_Query_thread ;;
    (match omp_mpi_level env with
     | MPI_THREAD_SINGLE =>
         emit (printf "MPI_Query_thread with MPI_THREAD_SINGLE\n" []) ;;
         emit fflush_stdout
     | MPI_THREAD_FUNNELED =>
         emit (printf "MPI_Query_thread with MPI_THREAD_FUNNELED\n" []) ;;
         emit fflush_stdout
     | MPI_THREAD_SERIALIZED =>
         emit (printf "MPI_Query_thread with MPI_THREAD_SERIALIZED\n" []) ;;
         emit fflush_stdout
     | MPI_THREAD_MULTIPLE =>
         emit (printf "MPI_Query_thread with MPI_THREAD_MULTIPLE\n" []) ;;
         emit fflush_stdout
     end) ;;
    emit fflush_stdout
  else ret tt.

(** The loop that leaves [suffix] after the last dot of the name. *)
Fixpoint find_suffix (name : string) (suffix : option string)
  : option string :=
  match name with
  | EmptyString => suffix
  | String c rest =>
      find_suffix rest (if (c =? ".")%char then Some rest else suffix)
  end.

(** What rank 0 of the grid prints first; [file] is the string [cpp]
    was left at, and printing it needs it to be there. *)
Definition banner (v : cmdline) (file : option string) : prog event unit :=
  emit (printf "__STDC_VERSION__ %ld\n" [PInt (stdc_version env)]) ;;
  emit superlu_dist_GetVersionNumber ;;
  emit (printf "Library version:\t%d.%d.%d\n"
               [PInt (fst (fst (version env)));
                PInt (snd (fst (version env)));
                PInt (snd (version env))]) ;;
  name <- defined file ;;
  emit (printf "Input matrix file:\t%s\n" [PStr name]) ;;
  emit (printf "3D process grid: %d X %d X %d\n"
               [PInt (nprow v); PInt (npcol v); PInt (npdep v)]) ;;
  emit fflush_stdout.

(** After the call of the solver: report or check. *)
Definition after_solver : prog event unit :=
  if negb (info env =? 0) then
    (* Something is wrong *)
    if grid_iam env =? 0 then
      emit (printf "ERROR: INFO = %d returned from pdgssvx3d()\n"
                   [PInt (info env)]) ;;
      emit fflush_stdout
    else ret tt
  else
    (* Check the accuracy of the solution. *)
    emit (pdinf_norm_error (grid_iam env) (A_m_loc env) nrhs
                           (ldb env) (ldx env)).

(** DEALLOCATE STORAGE *)
Definition deallocate (options : superlu_dist_options_t) (n : Z)
  : prog event unit :=
  (if grid_zscp_Iam env =? 0 then
     (* process layer 0 *)
     emit (PStatPrint options) ;;
     emit (dDestroy_LU n) ;;
     emit (dSolveFinalize options)
   else
     (* Process layers not equal 0 *)
     emit (dDeAllocLlu_3d n) ;;
     emit dDeAllocGlu_3d) ;;
  emit dDestroy_A3d_gathered_on_2d ;;
  emit Destroy_CompRowLoc_Matrix_dist ;;
  emit SUPERLU_FREE_b ;;
  emit SUPERLU_FREE_xtrue ;;
  emit SUPERLU_FREE_berr ;;
  emit dScalePermstructFree ;;
  emit dLUstructFree ;;
  emit fclose.

(** From the test on [iam] to the call of the solver, on a rank that
    belongs to the grid: the matrix, the options, the structures.  The
    options are handed on. *)
Definition prepare (v : cmdline) (file : option string)
  : prog event superlu_dist_options_t :=
  let iam := grid_iam env in
  (if iam =? 0 then banner v file else ret tt) ;;
  (* strlen ( *cpp ) *)
  name <- defined file ;;
  (* [suffix] is set by the loop only: for a name without a dot the
     call reads a pointer that was never given a value *)
  suffix <- defined (find_suffix name None) ;;
  emit (dcreate_matrix_postfix3d nrhs name (Some suffix)) ;;
  emit (doubleMalloc_dist nrhs) ;;
  (if berr_malloc_ok env then ret tt
   else stop (Aborted "Malloc fails for berr[].")) ;;
  let options := driver_options k v in
  (if iam =? 0 then
     emit (print_options_dist options) ;; emit fflush_stdout
   else ret tt) ;;
  let m := A_nrow env in
  let n := A_ncol env in
  emit (dScalePermstructInit m n) ;;
  emit (dLUstructInit n) ;;
  emit PStatInit ;;
  ret options.

(** From the test on [iam] down to label [out]. *)
Definition solve_system (v : cmdline) (file : option string)
  : prog event unit :=
  options <- prepare v file ;;
  emit (pdgssvx3d options (ldb env) nrhs) ;;
  after_solver ;;
  deallocate options (A_ncol env).

(** [stat.utime] at label [out]: the array of times is allocated by
    [PStatInit], which the ranks that took [goto out] have not called;
    the others have, [ABORT] being the only other way past the test on
    [iam].  Reading the array where it was never allocated is
    undefined. *)
Definition stat_utime : option (double * double) :=
  if grid_iam env =? -1 then None
  else Some (utime_FACT env, utime_SOLVE env).

(** The values a rank sends to the two reductions: its two times,
    converted to [float] by the assignments to [result_min] and
    [result_max]. *)
Definition batch_send : option (float * float) :=
  utime ← stat_utime;
  Some (double_to_float (fst utime), double_to_float (snd utime)).

(** The report of batch mode, at label [out]. *)
Definition batch_report (v : cmdline) : prog event unit :=
  if negb (batch v =? 0) then
    send <- defined batch_send ;;
    emit (MPI_Allreduce MPI_MIN MPI_COMM_WORLD send) ;;
    emit (MPI_Allreduce MPI_MAX MPI_COMM_WORLD send) ;;
    let result_min := all_min env in
    let result_max := all_max env in
    if world_rank env =? 0 then
      emit (printf "Batch solves returning data:\n" []) ;;
      emit (printf "    Factor time over all grids.  Min: %8.4f Max: %8.4f\n"
                   [PFloat (fst result_min); PFloat (fst result_max)]) ;;
      emit (printf "    Solve time over all grids.  Min: %8.4f Max: %8.4f\n"
                   [PFloat (snd result_min); PFloat (snd result_max)]) ;;
      emit (printf "**************************************************\n" []) ;;
      emit fflush_stdout
    else ret tt
  else ret tt.

(** Label [out] and below. *)
Definition out (v : cmdline) : prog event unit :=
  batch_report v ;;
  emit superlu_gridexit3d ;;
  (if negb (grid_iam env =? -1) then emit PStatFree else ret tt) ;;
  emit MPI_Finalize.

(** Up to the test on [iam]: MPI, the command line, the grid.
    [argv] holds the strings before the terminating null pointer, the
    name of the program first.  The variables set and the string
    [cpp] is left at are handed on. *)
Definition startup (argv : list string)
  : prog event (cmdline * option string) :=
  init_mpi ;;
  args <- defined (match argv with [] => None | _ :: args => Some args end) ;;
  parsed <- parse_args args cmdline_init ;;
  init_grid (fst parsed) ;;
  thread_report ;;
  ret parsed.

Definition main (argv : list string) : prog event unit :=
  parsed <- startup argv ;;
  let v := fst parsed in
  let file := snd parsed in
  (* Bail out if I do not belong in the grid. *)
  (if grid_iam env =? -1 then ret tt else solve_system v file) ;;
  out v.

End Main.

(** The environment with another status from the solver. *)
Definition set_info (env : environment) (i : Z) : environment :=
  {| provided := provided env; world_rank := world_rank env;
     file_exists := file_exists env; grid_iam := grid_iam env;
     grid_zscp_Iam := grid_zscp_Iam env; omp_mpi_level := omp_mpi_level env;
     stdc_version := stdc_version env; version := version env;
     berr_malloc_ok := berr_malloc_ok env;
     A_nrow := A_nrow env; A_ncol := A_ncol env; A_m_loc := A_m_loc env;
     ldb := ldb env; ldx := ldx env; info := i;
     utime_FACT := utime_FACT env; utime_SOLVE := utime_SOLVE env;
     all_min := all_min env; all_max := all_max env |}.

(** The prints of the report of batch mode. *)
Definition report_print (e : event) : bool :=
  match e with
  | printf fmt _ =>
      (fmt =? "Batch solves returning data:\n")%string
      || (fmt =? "    Factor time over all grids.  Min: %8.4f Max: %8.4f\n")%string
      || (fmt =? "    Solve time over all grids.  Min: %8.4f Max: %8.4f\n")%string
  | _ => false
  end.

(** The calls of the start-up phase: MPI, files, the grid, and prints
    other than those of the report of batch mode. *)
Definition startup_event (e : event) : bool :=
  match e with
  | MPI_Init_thread _ | MPI_Comm_rank _ | fflush_stdout
  | fopen _ _ | SUPERLU_MALLOC_usermap _ | MPI_Comm_split _ _ _
  | superlu_gridmap3d _ _ _ _ _ | SUPERLU_FREE_usermap
  | superlu_gridinit3d _ _ _ _ | MPI_Query_thread => true
  | printf _ _ => negb (report_print e)
  | _ => false
  end.

(** The calls that work on the grid once it is built: reading the
    matrix, showing the options, the solver and what it needs, the check
    of the solution, and the release of what the solver used. *)
Definition solver_event (e : event) : bool :=
  match e with
  | dcreate_matrix_postfix3d _ _ _ | doubleMalloc_dist _
  | print_options_dist _
  | dScalePermstructInit _ _ | dLUstructInit _ | PStatInit
  | pdgssvx3d _ _ _ | pdinf_norm_error _ _ _ _ _
  | PStatPrint _ | dDestroy_LU _ | dSolveFinalize _
  | dDeAllocLlu_3d _ | dDeAllocGlu_3d
  | dDestroy_A3d_gathered_on_2d | Destroy_CompRowLoc_Matrix_dist
  | SUPERLU_FREE_b | SUPERLU_FREE_xtrue | SUPERLU_FREE_berr
  | dScalePermstructFree | dLUstructFree | fclose | PStatFree => true
  | _ => false
  end.

(** Modelled from the spec: the status of [pdgssvx3d], whose source is
    absent.  Section 4.3 of the specification: 0 is success; a positive
    value [k] says that the factorization failed at the [k]-th pivot; a
    negative value says that an invalid argument was supplied. *)
Inductive solver_outcome : Type :=
| Solved
| PivotFailure (k : positive)
| InvalidArgument (i : positive).

(** Modelled from the spec: the integer [pdgssvx3d] stores in [info] for
    each outcome, as section 4.3 of the specification gives it. *)
Definition status_of (o : solver_outcome) : Z :=
  match o with
  | Solved => 0
  | PivotFailure k => Z.pos k
  | InvalidArgument i => Z.neg i
  end.

(** The report of a failure, printed by rank 0 of the grid. *)
Definition error_report (env : environment) (i : Z) : list event :=
  if grid_iam env =? 0 then
    [printf "ERROR: INFO = %d returned from pdgssvx3d()\n" [PInt i];
     fflush_stdout]
  else [].

(** The check of the accuracy of the solution. *)
Definition accuracy_check (env : environment) : list event :=
  [pdinf_norm_error (grid_iam env) (A_m_loc env) nrhs (ldb env) (ldx env)].

(** The release of the factors on layer 0 and on the other layers. *)
Definition full_view_release (o : superlu_dist_options_t) (n : Z)
  : list event :=
  [PStatPrint o; dDestroy_LU n; dSolveFinalize o].

Definition partial_view_release (n : Z) : list event :=
  [dDeAllocLlu_3d n; dDeAllocGlu_3d].

(** The release of everything else the solver used. *)
Definition common_release : list event :=
  [dDestroy_A3d_gathered_on_2d; Destroy_CompRowLoc_Matrix_dist;
   SUPERLU_FREE_b; SUPERLU_FREE_xtrue; SUPERLU_FREE_berr;
   dScalePermstructFree; dLUstructFree; fclose].

(** Everything a rank of the grid does after the status is dealt with:
    the release by layer, the common release, the report of batch mode,
    the release of the grid and of the statistics, the end of MPI. *)
Definition cleanup (env : environment) (o : superlu_dist_options_t)
                   (v : cmdline) : list event :=
  (if grid_zscp_Iam env =? 0 then full_view_release o (A_ncol env)
   else partial_view_release (A_ncol env)) ++
  common_release ++
  trace (batch_report env v) ++
  [superlu_gridexit3d; PStatFree; MPI_Finalize].

(** The calls of a rank past the test on [iam], by the layer it is on. *)
Definition later_event (env : environment) (e : event) : bool :=
  match e with
  | printf _ _ | fflush_stdout | superlu_dist_GetVersionNumber
  | dcreate_matrix_postfix3d _ _ _ | doubleMalloc_dist _
  | print_options_dist _
  | dScalePermstructInit _ _ | dLUstructInit _ | PStatInit
  | pdgssvx3d _ _ _ | pdinf_norm_error _ _ _ _ _
  | dDestroy_A3d_gathered_on_2d | Destroy_CompRowLoc_Matrix_dist
  | SUPERLU_FREE_b | SUPERLU_FREE_xtrue | SUPERLU_FREE_berr
  | dScalePermstructFree | dLUstructFree | fclose
  | MPI_Allreduce _ _ _ | superlu_gridexit3d | PStatFree
  | MPI_Finalize => true
  | PStatPrint _ | dDestroy_LU _ | dSolveFinalize _ =>
      grid_zscp_Iam env =? 0
  | dDeAllocLlu_3d _ | dDeAllocGlu_3d => negb (grid_zscp_Iam env =? 0)
  | _ => false
  end.

(** The calls of the report of batch mode: the two reductions over all
    ranks of MPI_COMM_WORLD and the prints. *)
Definition world_report_event (e : event) : bool :=
  match e with
  | MPI_Allreduce _ MPI_COMM_WORLD _ | printf _ _ | fflush_stdout => true
  | _ => false
  end.

(** The calls between the test on [iam] and the call of the solver. *)
Definition prepare_event (e : event) : bool :=
  match e with
  | printf _ _ => negb (report_print e)
  | fflush_stdout | superlu_dist_GetVersionNumber
  | dcreate_matrix_postfix3d _ _ _ | doubleMalloc_dist _
  | print_options_dist _
  | dScalePermstructInit _ _ | dLUstructInit _ | PStatInit => true
  | _ => false
  end.

(** The calls that only batch mode makes. *)
Definition batch_event (e : event) : bool :=
  match e with
  | SUPERLU_MALLOC_usermap _ | MPI_Comm_split _ _ _
  | superlu_gridmap3d _ _ _ _ _ | SUPERLU_FREE_usermap
  | MPI_Allreduce _ _ _ => true
  | printf _ _ => report_print e
  | _ => false
  end.

Definition is_print (e : event) : bool :=
  match e with printf _ _ | fflush_stdout => true | _ => false end.

Definition is_file_call (e : event) : bool :=
  match e with fopen _ _ | fclose => true | _ => false end.

(** What a run of the loop over [argv] can end in, with what it has
    done by then. *)
Definition parse_args_ends (env : environment) (args : list string)
           (r : prog event (cmdline * option string)) : Prop :=
  match result r with
  | Ret (_, Some name) =>
      trace r = [fopen name "r"] /\ file_exists env name = true /\
      is_option name = false /\ name ∈ args
  | Ret (_, None) => trace r = []
  | Undefined => trace r = []
  | Aborted msg =>
      msg = "File does not exist" /\
      exists name, trace r = [fopen name "r"] /\
                   file_exists env name = false /\
                   is_option name = false /\ name ∈ args
  | Exited c => c = 0 /\ exists v', r = help v'
  | AssertFailed => False
  end.


(** The options a call is given, for the calls that take them. *)
Definition options_of (e : event) : option superlu_dist_options_t :=
  match e with
  | print_options_dist o | pdgssvx3d o _ _ | PStatPrint o
  | dSolveFinalize o => Some o
  | _ => None
  end.

Definition is_solver_call (e : event) : bool :=
  match e with pdgssvx3d _ _ _ => true | _ => false end.

(** The two ways of releasing the factors. *)
Definition full_view_destructor (e : event) : bool :=
  match e with dDestroy_LU _ | dSolveFinalize _ => true | _ => false end.

Definition partial_view_destructor (e : event) : bool :=
  match e with dDeAllocLlu_3d _ | dDeAllocGlu_3d => true | _ => false end.

End Driver.

(** ** The grid and the world of ranks *)

Module Grid.
Import Driver.

(** What the three loops of the driver leave in slot [s] of [usermap]
    for [R] process rows and [C] process columns: the slot of the
    position (i, j, k) is [i + j*R + k*R*C], the counter at that
    position is [k*R*C + i*C + j]. *)
Definition usermap_value (R C s : Z) : Z :=
  (s / R / C) * R * C + (s mod R) * C + (s / R) mod C.

(** [usermap] when the counter [p] has reached [n]: the slots of the
    positions already visited are written. *)
Definition usermap_upto (R C count n : Z) : list (option Z) :=
  (fun s : nat =>
     let q := usermap_value R C (Z.of_nat s) in
     if q <? n then Some q else None) <$> seq 0 (Z.to_nat count).

Definition driver_usermap (R C D : Z) : list (option Z) :=
  usermap_upto R C (R * C * D) (R * C * D).

(** The position of a slot. *)
Definition position (R C s : Z) : Z * Z * Z :=
  (s mod R, (s / R) mod C, s / R / C).

(** The slot of a position: [i + j*R + k*R*C]. *)
Definition slot (R C : Z) (c : Z * Z * Z) : Z :=
  c.1.1 + c.1.2 * R + c.2 * R * C.

(** The counter at a position: [k*R*C + i*C + j]. *)
Definition counter (R C : Z) (c : Z * Z * Z) : Z :=
  c.2 * R * C + c.1.1 * C + c.1.2.

Definition in_box (R C D : Z) (c : Z * Z * Z) : Prop :=
  0 <= c.1.1 < R /\ 0 <= c.1.2 < C /\ 0 <= c.2 < D.

(** The dimensions of a grid: positive, their product an [int]. *)
Definition dims_ok (v : cmdline) : Prop :=
  0 < nprow v /\ 0 < npcol v /\ 0 < npdep v /\
  nprow v * npcol v * npdep v <= INT_MAX.

Definition is_power_of_two (n : Z) : bool :=
  (0 <? n) && (Z.land n (n - 1) =? 0).

(** Modelled from the spec: the construction of a 3D grid
    ([superlu_gridmap3d] and [superlu_gridinit3d], whose sources are
    absent).  Section 4.1 of the specification: the dimensions must
    satisfy [nprow*npcol*npdep <= |comm|] and [npdep] must be a power of
    two, or the construction fails with a configuration error; the ranks
    beyond the required count get the inactive sentinel.  The
    specification fixes no layout: a rank is given the position of the
    slot in which [usermap] names it, slots being numbered as the driver
    numbers them; a rank [usermap] does not name gets the sentinel
    ([None]).  [None] for the whole construction is the configuration
    error. *)
Definition createGrid3D (size nprow npcol npdep : Z)
                        (usermap : list (option Z))
  : option (Z -> option (Z * Z * Z)) :=
  if is_power_of_two npdep && (0 <? nprow) && (0 <? npcol)
     && (nprow * npcol * npdep <=? size)
  then Some (fun r =>
               found ← list_find (fun x => x = Some r) usermap;
               Some (position nprow npcol (Z.of_nat found.1)))
  else None.

(** The group of [myrank] in batch mode: [myrank/(nprow*npcol*npdep)]. *)
Definition batch_color (v : cmdline) (myrank : Z) : option Z :=
  count ← grid_size v; int_div myrank count.

(** [MPI_Comm_split] over a world of [size] ranks when every rank
    passes its rank as the key, as the driver does: the communicator of
    [r] gathers the ranks that gave the color [r] gave, in the order of
    their ranks. *)
Definition sub_comm (size : Z) (color : Z -> option Z) (r : Z) : list Z :=
  filter (fun r' => color r' = color r) (seqZ 0 size).

(** [MPI_MIN] and [MPI_MAX] on two [float]s. *)
Definition float_min (a b : float) : float := if fp_lt b a then b else a.
Definition float_max (a b : float) : float := if fp_lt a b then b else a.

(** [MPI_Allreduce] of one [float] per rank, combined in rank order. *)
Definition allreduce (op : float -> float -> float) (sends : list float)
  : option float :=
  match sends with
  | [] => None
  | x :: rest => Some (foldl op x rest)
  end.










End Grid.

(** ** Sample runs *)

Module Sample.
Import Driver.

(** The values the three constants have in the library. *)
Definition consts : enum_consts :=
  {| METIS_AT_PLUS_A := 4; LargeDiag_MC64 := 1; SLU_DOUBLE := 2 |}.

Definition zero : spec_float := S754_zero false.

(** Rank [r] of the world, at position [iam] of its grid on layer
    [layer], for which the solver stores [status] and takes the times
    [tf] and [ts]. *)
Definition rank_env (r iam layer status : Z) (tf ts : double)
  : environment :=
  {| provided := MPI_THREAD_MULTIPLE; world_rank := r;
     file_exists := fun _ => true;
     grid_iam := iam; grid_zscp_Iam := layer;
     omp_mpi_level := MPI_THREAD_MULTIPLE;
     stdc_version := 201112; version := (8, 1, 0);
     berr_malloc_ok := true;
     A_nrow := 400; A_ncol := 400; A_m_loc := 100; ldb := 100; ldx := 100;
     info := status;
     utime_FACT := tf; utime_SOLVE := ts;
     all_min := (zero, zero); all_max := (zero, zero) |}.

(** [pddrive3d -r 2 -c 1 -d 2 g20.rua] *)
Definition argv_2x1x2 : list string :=
  ["pddrive3d"; "-r"; "2"; "-c"; "1"; "-d"; "2"; "g20.rua"].

(** [pddrive3d g20.rua] *)
Definition argv_plain : list string := ["pddrive3d"; "g20.rua"].


(** The variables after [-r 2 -c 1 -d 2 -b 1]. *)
Definition batch_2x1x2 : cmdline :=
  {| nprow := 2; npcol := 1; npdep := 2;
     lookahead := -1; colperm := -1; rowperm := -1; ir := -1;
     batch := 1 |}.

(** 1.5, 0.25, 0.75 and 2 in double precision. *)
Definition d1_5 : spec_float := S754_finite false 3 (-1).
Definition d0_25 : spec_float := S754_finite false 1 (-2).
Definition d2 : spec_float := S754_finite false 1 1.





(** Two blocks of one row that differ in a column index, and a block
    that holds a value that is not a number. *)
Definition blockA : NRformat.NRformat_loc :=
  {| NRformat.nnz_loc := 1; NRformat.m_loc := 1; NRformat.fst_row := 0;
     NRformat.nzval := [S754_finite false 1 0];
     NRformat.rowptr := [0; 1]; NRformat.colind := [0] |}.
Definition blockB : NRformat.NRformat_loc :=
  {| NRformat.nnz_loc := 1; NRformat.m_loc := 1; NRformat.fst_row := 0;
     NRformat.nzval := [S754_finite false 1 0];
     NRformat.rowptr := [0; 1]; NRformat.colind := [3] |}.
Definition blockNaN : NRformat.NRformat_loc :=
  {| NRformat.nnz_loc := 1; NRformat.m_loc := 1; NRformat.fst_row := 0;
     NRformat.nzval := [S754_nan];
     NRformat.rowptr := [0; 1]; NRformat.colind := [0] |}.

End Sample.

(** * Properties of the driver *)

Section ProgFacts.
Context {E : Type}.
Implicit Types (body : Z -> prog E unit).

Lemma bind_ret_l {A B} (a : A) (f : A -> prog E B) : bind (ret a) f = f a.
Proof. unfold bind, ret. destruct (f a). reflexivity. Qed.

Lemma result_bind {A B} (m : prog E A) (f : A -> prog E B) :
  result (bind m f) =
  match result m with
  | Ret a => result (f a)
  | Exited c => Exited c
  | Aborted s => Aborted s
  | AssertFailed => AssertFailed
  | Undefined => Undefined
  end.
Proof.
  destruct m as [t []]; simpl; try reflexivity.
  destruct (f a); reflexivity.
Qed.

Lemma trace_bind {A B} (m : prog E A) (f : A -> prog E B) :
  trace (bind m f) =
  match result m with
  | Ret a => trace m ++ trace (f a)
  | _ => trace m
  end.
Proof.
  destruct m as [t []]; simpl; try reflexivity.
  destruct (f a); reflexivity.
Qed.

(** A loop of checks ends well exactly when every iteration does, and
    otherwise ends the way its first failing iteration does. *)
Lemma for_from_checks n lo body (P : Z -> bool) :
  (forall k, 0 <= k < Z.of_nat n ->
     result (body (lo + k)) = if P (lo + k) then Ret tt else AssertFailed) ->
  (result (for_from n lo body) = Ret tt <->
     forall k, 0 <= k < Z.of_nat n -> P (lo + k) = true) /\
  (result (for_from n lo body) = Ret tt \/
   result (for_from n lo body) = AssertFailed).
Proof.
  revert lo; induction n as [|n IH]; intros lo Hb.
  - simpl. split; [split; [intros _ k Hk; lia | reflexivity] | left; reflexivity].
  - cbn [for_from]. rewrite result_bind.
    pose proof (Hb 0 ltac:(lia)) as H0. rewrite Z.add_0_r in H0.
    assert (Hb' : forall k, 0 <= k < Z.of_nat n ->
              result (body (lo + 1 + k)) =
              if P (lo + 1 + k) then Ret tt else AssertFailed).
    { intros k Hk. replace (lo + 1 + k) with (lo + (k + 1)) by lia.
      apply Hb. lia. }
    destruct (IH (lo + 1) Hb') as [IHr IHo].
    rewrite H0. destruct (P lo) eqn:HP.
    + split; [|exact IHo]. rewrite IHr. split.
      * intros H k Hk. destruct (Z.eq_dec k 0) as [->|Hne].
        { rewrite Z.add_0_r. exact HP. }
        replace (lo + k) with (lo + 1 + (k - 1)) by lia. apply H. lia.
      * intros H k Hk. replace (lo + 1 + k) with (lo + (k + 1)) by lia.
        apply H. lia.
    + split; [|right; reflexivity]. split; [discriminate|].
      intros H. specialize (H 0 ltac:(lia)). rewrite Z.add_0_r in H. congruence.
Qed.

(** Every event of a loop is an event of one of its iterations. *)
Lemma for_from_trace n lo body (e : E) :
  e ∈ trace (for_from n lo body) ->
  exists k, 0 <= k < Z.of_nat n /\ e ∈ trace (body (lo + k)).
Proof.
  revert lo; induction n as [|n IH]; intros lo.
  - simpl. intros H. inversion H.
  - cbn [for_from]. rewrite trace_bind. intros H.
    assert (Hor : e ∈ trace (body lo) \/ e ∈ trace (for_from n (lo + 1) body)).
    { destruct (result (body lo)); try (left; exact H).
      apply elem_of_app in H. exact H. }
    destruct Hor as [H1|H1].
    + exists 0. rewrite Z.add_0_r. split; [lia|exact H1].
    + destruct (IH _ H1) as (k & Hk & Hin). exists (k + 1).
      split; [lia|]. replace (lo + (k + 1)) with (lo + 1 + k) by lia. exact Hin.
Qed.

Lemma bind_run {A B} (m : prog E A) (f : A -> prog E B) (a : A) :
  result m = Ret a ->
  bind m f = (trace m ++ trace (f a), result (f a)).
Proof.
  destruct m as [t o]; simpl. intros ->. destruct (f a). reflexivity.
Qed.

Lemma bind_emit {B} (e : E) (f : unit -> prog E B) :
  bind (emit e) f = (e :: trace (f tt), result (f tt)).
Proof. unfold bind, emit. destruct (f tt). reflexivity. Qed.

(** Properties of all events of a run, phase by phase. *)
Section All.
Variable P : E -> Prop.

Lemma all_bind {A B} (m : prog E A) (f : A -> prog E B) :
  Forall P (trace m) -> (forall a, Forall P (trace (f a))) ->
  Forall P (trace (bind m f)).
Proof.
  intros Hm Hf. rewrite trace_bind.
  destruct (result m); try exact Hm.
  apply Forall_app. split; [exact Hm|apply Hf].
Qed.

Lemma all_ret {A} (a : A) : Forall P (trace (ret (E:=E) a)).
Proof. constructor. Qed.

Lemma all_stop {A} (o : outcome A) : Forall P (trace (stop (E:=E) o)).
Proof. constructor. Qed.

Lemma all_defined {A} (o : option A) : Forall P (trace (defined (E:=E) o)).
Proof. destruct o; constructor. Qed.

Lemma all_store {A} (a : list A) i x : Forall P (trace (store (E:=E) a i x)).
Proof. unfold store. destruct (_ && _); constructor. Qed.

Lemma all_emit (e : E) : P e -> Forall P (trace (emit e)).
Proof. intros H. constructor; [exact H|constructor]. Qed.

Lemma all_for_from_st {S} n lo (body : Z -> S -> prog E S) (s : S) :
  (forall i s', Forall P (trace (body i s'))) ->
  Forall P (trace (for_from_st n lo body s)).
Proof.
  intros Hb. revert lo s. induction n as [|n IH]; intros lo s.
  - constructor.
  - cbn [for_from_st]. apply all_bind; [apply Hb|]. intros a. apply IH.
Qed.
End All.

(** A loop whose every iteration ends and emits nothing, the variables
    going from [f i] to [f (i + 1)]. *)
Lemma for_from_st_steps {S} n lo (body : Z -> S -> prog E S) (f : Z -> S) :
  (forall i, lo <= i < lo + Z.of_nat n -> body i (f i) = ret (f (i + 1))) ->
  for_from_st n lo body (f lo) = ret (f (lo + Z.of_nat n)).
Proof.
  revert lo. induction n as [|n IH]; intros lo Hb.
  - simpl. rewrite Z.add_0_r. reflexivity.
  - cbn [for_from_st]. rewrite Hb by lia. rewrite bind_ret_l.
    rewrite IH by (intros i Hi; apply Hb; lia).
    f_equal. f_equal. lia.
Qed.
End ProgFacts.

Module NRformatFacts.
Import NRformat.

Lemma load_in {E A} (a : list A) (i : Z) :
  0 <= i < Z.of_nat (length a) ->
  exists x, a !! Z.to_nat i = Some x /\ load (E:=E) a i = ret x.
Proof.
  intros Hi. destruct (lookup_lt_is_Some_2 a (Z.to_nat i) ltac:(lia)) as [x Hx].
  exists x. split; [exact Hx|]. unfold load.
  destruct (Z.leb_spec 0 i); [|lia]. rewrite Hx. reflexivity.
Qed.

Lemma entry_check_result A B i :
  0 <= i < Z.of_nat (length (nzval A)) ->
  0 <= i < Z.of_nat (length (nzval B)) ->
  0 <= i < Z.of_nat (length (colind A)) ->
  0 <= i < Z.of_nat (length (colind B)) ->
  result (entry_check A B i) = (if entry_ok A B i then Ret tt else AssertFailed) /\
  passed_msg ∉ trace (entry_check A B i).
Proof.
  intros H1 H2 H3 H4. unfold entry_check, entry_ok.
  destruct (load_in (E:=out) _ _ H1) as (a & -> & ->).
  destruct (load_in (E:=out) _ _ H2) as (b & -> & ->).
  destruct (load_in (E:=out) _ _ H3) as (ca & -> & ->).
  destruct (load_in (E:=out) _ _ H4) as (cb & -> & ->).
  rewrite !bind_ret_l.
  destruct (fp_eq a b); simpl; [|split; [reflexivity|apply not_elem_of_nil]].
  destruct (ca =? cb); simpl; split; try reflexivity.
  - intros H. apply list_elem_of_singleton in H. discriminate.
  - apply not_elem_of_nil.
Qed.

Lemma row_check_result A B i :
  0 <= i < Z.of_nat (length (rowptr A)) ->
  0 <= i < Z.of_nat (length (rowptr B)) ->
  result (row_check A B i) = (if row_ok A B i then Ret tt else AssertFailed) /\
  trace (row_check A B i) = [].
Proof.
  intros H1 H2. unfold row_check, row_ok.
  destruct (load_in (E:=out) _ _ H1) as (a & -> & ->).
  destruct (load_in (E:=out) _ _ H2) as (b & -> & ->).
  rewrite !bind_ret_l.
  destruct (a =? b); simpl; split; reflexivity.
Qed.

Lemma bind_assert {B} (b : bool) (f : unit -> prog out B) :
  bind (assert b) f = if b then f tt else stop AssertFailed.
Proof. destruct b; [apply bind_ret_l|reflexivity]. Qed.

Lemma entries_loop A B :
  sized A -> sized B -> nnz_loc A = nnz_loc B ->
  let l := for_range 0 (nnz_loc A) (entry_check A B) in
  (result l = Ret tt <->
     forall i, 0 <= i < nnz_loc A -> entry_ok A B i = true) /\
  (result l = Ret tt \/ result l = AssertFailed) /\
  passed_msg ∉ trace l.
Proof.
  intros (HA1 & HA2 & _) (HB1 & HB2 & _) Hn l. subst l. unfold for_range.
  assert (Hbody : forall k, 0 <= k < Z.of_nat (Z.to_nat (nnz_loc A - 0)) ->
            result (entry_check A B (0 + k)) =
            (if entry_ok A B (0 + k) then Ret tt else AssertFailed) /\
            passed_msg ∉ trace (entry_check A B (0 + k))).
  { intros k Hk. apply entry_check_result; lia. }
  destruct (for_from_checks _ 0 (entry_check A B) (entry_ok A B)
              (fun k Hk => proj1 (Hbody k Hk))) as [Hr Ho].
  split; [|split; [exact Ho|]].
  - rewrite Hr. split; intros H i Hi.
    + apply (H i). lia.
    + apply (H (0 + i)). lia.
  - intros Hin. apply for_from_trace in Hin as (k & Hk & Hin).
    exact (proj2 (Hbody k Hk) Hin).
Qed.

Lemma rows_loop A B :
  sized A -> sized B -> m_loc A = m_loc B ->
  let l := for_range 0 (m_loc A + 1) (row_check A B) in
  (result l = Ret tt <->
     forall i, 0 <= i <= m_loc A -> row_ok A B i = true) /\
  (result l = Ret tt \/ result l = AssertFailed) /\
  passed_msg ∉ trace l.
Proof.
  intros (_ & _ & HA & _) (_ & _ & HB & _) Hm l. subst l. unfold for_range.
  assert (Hbody : forall k, 0 <= k < Z.of_nat (Z.to_nat (m_loc A + 1 - 0)) ->
            result (row_check A B (0 + k)) =
            (if row_ok A B (0 + k) then Ret tt else AssertFailed) /\
            trace (row_check A B (0 + k)) = []).
  { intros k Hk. apply row_check_result; lia. }
  destruct (for_from_checks _ 0 (row_check A B) (row_ok A B)
              (fun k Hk => proj1 (Hbody k Hk))) as [Hr Ho].
  split; [|split; [exact Ho|]].
  - rewrite Hr. split; intros H i Hi.
    + apply (H i). lia.
    + apply (H (0 + i)). lia.
  - intros Hin. apply for_from_trace in Hin as (k & Hk & Hin).
    rewrite (proj2 (Hbody k Hk)) in Hin. inversion Hin.
Qed.

Lemma entry_ok_agree A B i :
  entry_ok A B i = true <->
  (exists a b, nzval A !! Z.to_nat i = Some a /\
               nzval B !! Z.to_nat i = Some b /\ fp_eq a b = true) /\
  colind A !! Z.to_nat i = colind B !! Z.to_nat i /\
  is_Some (colind A !! Z.to_nat i).
Proof.
  unfold entry_ok.
  destruct (nzval A !! Z.to_nat i) as [a|], (nzval B !! Z.to_nat i) as [b|],
    (colind A !! Z.to_nat i) as [ca|], (colind B !! Z.to_nat i) as [cb|];
    split;
    try (intros H; discriminate H);
    try (intros ((a' & b' & Ha & Hb & _) & Hc & [c Hs]); congruence).
  - intros H. apply andb_true_iff in H as [H1 H2]. apply Z.eqb_eq in H2.
    subst cb. split; [exists a, b; auto|split; [reflexivity|eexists; reflexivity]].
  - intros ((a' & b' & Ha & Hb & Hab) & Hc & _).
    injection Ha as <-. injection Hb as <-. injection Hc as <-.
    rewrite Hab, Z.eqb_refl. reflexivity.
Qed.

Lemma row_ok_agree A B i :
  row_ok A B i = true <->
  rowptr A !! Z.to_nat i = rowptr B !! Z.to_nat i /\
  is_Some (rowptr A !! Z.to_nat i).
Proof.
  unfold row_ok.
  destruct (rowptr A !! Z.to_nat i) as [a|], (rowptr B !! Z.to_nat i) as [b|];
    split; try (intros H; discriminate H);
    try (intros (Hc & [c Hs]); congruence).
  - intros H. apply Z.eqb_eq in H. subst b. split; [reflexivity|eexists; reflexivity].
  - intros [Hc _]. injection Hc as <-. apply Z.eqb_refl.
Qed.

Lemma agree_checks A B :
  sized A -> sized B ->
  agree A B <->
  nnz_loc A = nnz_loc B /\ m_loc A = m_loc B /\ fst_row A = fst_row B /\
  (forall i, 0 <= i < nnz_loc A -> entry_ok A B i = true) /\
  (forall i, 0 <= i <= m_loc A -> row_ok A B i = true).
Proof.
  intros (HA1 & HA2 & HA3 & _) (HB1 & HB2 & HB3 & _). unfold agree. split.
  - intros (Hn & Hm & Hf & Hv & Hc & Hr). repeat split; try assumption.
    + intros i Hi. apply entry_ok_agree. repeat split; auto.
      apply lookup_lt_is_Some_2. lia.
    + intros i Hi. apply row_ok_agree. split; auto.
      apply lookup_lt_is_Some_2. lia.
  - intros (Hn & Hm & Hf & He & Hr). repeat split; try assumption.
    + intros i Hi. apply (proj1 (entry_ok_agree A B i) (He i Hi)).
    + intros i Hi. apply (proj1 (entry_ok_agree A B i) (He i Hi)).
    + intros i Hi. apply (proj1 (row_ok_agree A B i) (Hr i Hi)).
Qed.

Local Ltac settle :=
  repeat split; intros;
  try congruence; try tauto;
  try match goal with H : _ ∈ [] |- _ => inversion H end;
  try match goal with
      | H : _ ∈ _ ++ _ |- _ => apply elem_of_app in H; tauto
      | |- _ ∉ _ ++ _ => let H := fresh in
                         intros H; apply elem_of_app in H; tauto
      | |- _ ∉ [] => apply not_elem_of_nil
      end.

(** C10: on blocks whose arrays hold the entries their counts announce,
    [checkNRFMT A B] runs to its end exactly when the two blocks agree
    on [nnz_loc], [m_loc] and [fst_row], on every value (under [==]) and
    every column index among the first [nnz_loc] entries, and on every
    row pointer up to index [m_loc]; the final message is printed
    exactly in that case, and any disagreement ends the run in a failed
    assertion, the final message not being printed. *)
Theorem checkNRFMT_passes_iff_agree (A B : NRformat_loc) :
  sized A -> sized B ->
  (result (checkNRFMT A B) = Ret tt <-> agree A B) /\
  (passed_msg ∈ trace (checkNRFMT A B) <-> agree A B) /\
  (~ agree A B ->
     result (checkNRFMT A B) = AssertFailed /\
     passed_msg ∉ trace (checkNRFMT A B)).
Proof.
  intros HA HB. rewrite (agree_checks A B HA HB).
  unfold checkNRFMT. rewrite !bind_assert.
  destruct (Z.eqb_spec (nnz_loc A) (nnz_loc B)) as [Hn|Hn]; [|simpl; settle].
  destruct (Z.eqb_spec (m_loc A) (m_loc B)) as [Hm|Hm]; [|simpl; settle].
  destruct (Z.eqb_spec (fst_row A) (fst_row B)) as [Hf|Hf]; [|simpl; settle].
  destruct (entries_loop A B HA HB Hn) as (Hr1 & Ho1 & Ht1).
  destruct (rows_loop A B HA HB Hm) as (Hr2 & Ho2 & Ht2).
  assert (Hhi : int_t_add (m_loc A) 1 = Some (m_loc A + 1)).
  { destruct HA as (_ & _ & _ & Hin & Hlt). unfold int_t_add, in_int_t in *.
    apply andb_true_iff in Hin as [H1 H2].
    apply Z.leb_le in H1, H2. unfold INT_T_MIN, INT_T_MAX in *.
    destruct (Z.leb_spec (- 2 ^ 63) (m_loc A + 1)); [|lia].
    destruct (Z.leb_spec (m_loc A + 1) (2 ^ 63 - 1)); [|lia]. reflexivity. }
  rewrite result_bind, trace_bind.
  destruct Ho1 as [E1|E1]; rewrite E1.
  2:{ assert (Hno : ~ forall i, 0 <= i < nnz_loc A -> entry_ok A B i = true).
      { intros H. apply Hr1 in H. congruence. }
      settle. }
  rewrite Hhi. simpl defined. rewrite bind_ret_l.
  rewrite result_bind, trace_bind.
  destruct Ho2 as [E2|E2]; rewrite E2.
  2:{ assert (Hno : ~ forall i, 0 <= i <= m_loc A -> row_ok A B i = true).
      { intros H. apply Hr2 in H. congruence. }
      settle. }
  pose proof (proj1 Hr1 E1) as He. pose proof (proj1 Hr2 E2) as Hr.
  simpl. settle; auto.
  rewrite !elem_of_app. right. right. apply list_elem_of_singleton. reflexivity.
Qed.

(** C10 at two blocks of one row that differ in a column index. *)
Lemma checkNRFMT_passes_iff_agree_witness :
  sized Sample.blockA /\ sized Sample.blockB /\
  (result (checkNRFMT Sample.blockA Sample.blockB) = Ret tt
     <-> agree Sample.blockA Sample.blockB) /\
  (passed_msg ∈ trace (checkNRFMT Sample.blockA Sample.blockB)
     <-> agree Sample.blockA Sample.blockB) /\
  (~ agree Sample.blockA Sample.blockB ->
     result (checkNRFMT Sample.blockA Sample.blockB) = AssertFailed /\
     passed_msg ∉ trace (checkNRFMT Sample.blockA Sample.blockB)).
Proof.
  assert (HA : sized Sample.blockA).
  { unfold sized; simpl. repeat split; try lia; reflexivity. }
  assert (HB : sized Sample.blockB).
  { unfold sized; simpl. repeat split; try lia; reflexivity. }
  split; [exact HA|]. split; [exact HB|].
  exact (checkNRFMT_passes_iff_agree Sample.blockA Sample.blockB HA HB).
Defined.

(** Under [==] a value that is not a number differs from itself: a
    block that holds one does not pass the check against itself. *)
Example checkNRFMT_nan :
  result (checkNRFMT Sample.blockNaN Sample.blockNaN) = AssertFailed.
Proof. reflexivity. Qed.

End NRformatFacts.

Module DriverFacts.
Import Driver.

(** The model at work. *)
Example atoi_samples :
  atoi "  -12x" = Some (-12) /\ atoi "+7" = Some 7 /\ atoi "abc" = Some 0 /\
  atoi "99999999999" = None.
Proof. repeat split; reflexivity. Qed.

Example parse_args_sample env :
  parse_args env ["-r"; "2"; "-d"; "4"; "-l"; "3"] cmdline_init =
  ret (set_lookahead (set_npdep (set_nprow cmdline_init 2) 4) 3, None).
Proof. reflexivity. Qed.

Example find_suffix_sample : find_suffix "big.matrix.rua" None = Some "rua".
Proof. reflexivity. Qed.

Example fill_usermap_sample :
  fill_usermap (set_npdep (set_npcol (set_nprow cmdline_init 2) 3) 2)
               (replicate 12 None) =
  ret (Some <$> [0; 3; 1; 4; 2; 5; 6; 9; 7; 10; 8; 11], 12).
Proof. vm_compute. reflexivity. Qed.

(** A rank left out of the grid, outside batch mode. *)
Example inactive_run_sample :
  main Sample.consts (Sample.rank_env 4 (-1) 0 0 Sample.zero Sample.zero)
       Sample.argv_2x1x2 =
  ([MPI_Init_thread MPI_THREAD_MULTIPLE; fopen "g20.rua" "r";
    superlu_gridinit3d MPI_COMM_WORLD 2 1 2;
    superlu_gridexit3d; MPI_Finalize], Ret tt).
Proof. vm_compute. reflexivity. Qed.

Lemma not_dash {X} (c : ascii) (x y : X) :
  c <> "-"%char -> match c with "-"%char => x | _ => y end = y.
Proof.
  intros Hc. destruct c as [[] [] [] [] [] [] [] []]; try reflexivity.
  contradiction Hc; reflexivity.
Qed.

(** One round of the loop over [argv], whatever holds of the rounds
    that follow. *)
Lemma parse_args_round (P : event -> Prop) env a rest v :
  (forall e, startup_event e = true -> P e) ->
  (forall x rest' v', rest = x :: rest' ->
     Forall P (trace (parse_args env rest' v'))) ->
  Forall P (trace (parse_args env (a :: rest) v)).
Proof.
  intros HP IH. cbn [parse_args].
  assert (Hfile : Forall P (trace
            (emit (fopen a "r") ;;
             if file_exists env a then ret (v, Some a)
             else stop (Aborted "File does not exist")))).
  { apply all_bind; [apply all_emit, HP; reflexivity|intros _].
    destruct (file_exists env a); [apply all_ret|apply all_stop]. }
  destruct a as [|c a']; [exact Hfile|].
  destruct (Ascii.eqb_spec c "-"%char) as [->|Hc];
    [|rewrite (not_dash c) by exact Hc; exact Hfile].
  cbv zeta.
  assert (Hnum : forall set : cmdline -> Z -> cmdline,
            Forall P (trace
              match rest with
              | [] => stop Undefined
              | x :: rest' =>
                  n <- defined (atoi x) ;; parse_args env rest' (set v n)
              end)).
  { intros set. destruct rest as [|x rest']; [apply all_stop|].
    apply all_bind; [apply all_defined|intros n]. eapply IH; reflexivity. }
  repeat match goal with
         | |- Forall _ (trace (if ?b then _ else _)) => destruct b
         end; try apply Hnum.
  - unfold help.
    repeat (apply all_bind; [apply all_emit, HP; reflexivity|intros _]).
    apply all_stop.
  - destruct rest as [|x rest']; [apply all_stop|]. eapply IH; reflexivity.
Qed.

Lemma parse_args_all (P : event -> Prop) env args v :
  (forall e, startup_event e = true -> P e) ->
  Forall P (trace (parse_args env args v)).
Proof.
  intros HP.
  enough (H : forall args,
             (forall v, Forall P (trace (parse_args env args v))) /\
             (forall a v, Forall P (trace (parse_args env (a :: args) v))))
    by apply H.
  induction args0 as [|b rest [IH1 IH2]].
  - split; [constructor|]. intros a v0.
    apply parse_args_round; [exact HP|]. intros x rest' v' H. discriminate H.
  - split; [apply IH2|]. intros a v0.
    apply parse_args_round; [exact HP|]. intros x rest' v' H.
    injection H as <- <-. apply IH1.
Qed.

Lemma startup_events (P : event -> Prop) env argv :
  (forall e, startup_event e = true -> P e) ->
  Forall P (trace (startup env argv)).
Proof.
  intros HP. unfold startup.
  apply all_bind.
  { unfold init_mpi.
    repeat first
      [ apply all_ret | apply all_emit, HP; reflexivity
      | apply all_bind; [|intros]
      | match goal with
        | |- Forall _ (trace (if ?b then _ else _)) => destruct b
        end ]. }
  intros _. apply all_bind; [apply all_defined|intros args].
  apply all_bind; [apply parse_args_all, HP|intros parsed].
  apply all_bind.
  { unfold init_grid, fill_usermap, for_range_st.
    repeat first
      [ apply all_ret | apply all_defined | apply all_store
      | apply all_emit, HP; reflexivity
      | apply all_for_from_st; intros
      | apply all_bind; [|intros]
      | match goal with
        | |- Forall _ (trace (if ?b then _ else _)) => destruct b
        end ]. }
  intros _. apply all_bind; [|intros; apply all_ret].
  unfold thread_report.
  repeat first
    [ apply all_ret | apply all_emit, HP; reflexivity
    | apply all_bind; [|intros]
    | match goal with
      | |- Forall _ (trace (if ?b then _ else _)) => destruct b
      | |- Forall _ (trace (match ?x with _ => _ end)) => destruct x
      end ].
Qed.

Lemma after_solver_run env : result (after_solver env) = Ret tt.
Proof.
  unfold after_solver.
  destruct (info env =? 0), (grid_iam env =? 0); reflexivity.
Qed.

Lemma deallocate_run env o n : result (deallocate env o n) = Ret tt.
Proof. unfold deallocate. destruct (grid_zscp_Iam env =? 0); reflexivity. Qed.

Lemma batch_report_run env v :
  grid_iam env <> -1 \/ batch v = 0 ->
  result (batch_report env v) = Ret tt.
Proof.
  intros H. unfold batch_report, batch_send, stat_utime.
  destruct (Z.eqb_spec (batch v) 0) as [Hb|Hb]; [reflexivity|].
  destruct (Z.eqb_spec (grid_iam env) (-1)) as [Hi|Hi]; [tauto|].
  destruct (world_rank env =? 0); reflexivity.
Qed.

(** In batch mode a rank that left the grid reads, at label [out],
    times that were never allocated. *)
Lemma batch_report_undefined env v :
  grid_iam env = -1 -> batch v <> 0 ->
  batch_report env v = ([], Undefined).
Proof.
  intros Hi Hb. unfold batch_report, batch_send, stat_utime.
  apply Z.eqb_neq in Hb. rewrite Hb, Hi. reflexivity.
Qed.

Lemma out_run env v :
  grid_iam env <> -1 \/ batch v = 0 -> result (out env v) = Ret tt.
Proof.
  intros H. unfold out. rewrite (bind_run _ _ tt (batch_report_run env v H)).
  destruct (grid_iam env =? -1); reflexivity.
Qed.

Lemma out_undefined env v :
  grid_iam env = -1 -> batch v <> 0 -> out env v = ([], Undefined).
Proof.
  intros Hi Hb. unfold out. rewrite (batch_report_undefined env v Hi Hb).
  reflexivity.
Qed.

Lemma out_trace env v :
  grid_iam env <> -1 \/ batch v = 0 ->
  trace (out env v) =
  trace (batch_report env v) ++
  superlu_gridexit3d ::
  (if grid_iam env =? -1 then [] else [PStatFree]) ++ [MPI_Finalize].
Proof.
  intros H. unfold out. rewrite (bind_run _ _ tt (batch_report_run env v H)).
  destruct (grid_iam env =? -1); reflexivity.
Qed.

(** What a rank of the grid does between the test on [iam] and the
    call of the solver, when nothing stops it. *)
Lemma prepare_run k env v file o :
  result (prepare k env v file) = Ret o ->
  o = driver_options k v /\
  berr_malloc_ok env = true /\
  exists name, file = Some name /\
  trace (prepare k env v file) =
  (if grid_iam env =? 0 then trace (banner env v (Some name)) else []) ++
  [dcreate_matrix_postfix3d nrhs name (find_suffix name None);
   doubleMalloc_dist nrhs] ++
  (if grid_iam env =? 0
   then [print_options_dist (driver_options k v); fflush_stdout] else []) ++
  [dScalePermstructInit (A_nrow env) (A_ncol env);
   dLUstructInit (A_ncol env); PStatInit].
Proof.
  unfold prepare.
  destruct file as [name|]; [|destruct (grid_iam env =? 0); discriminate].
  cbn [defined]. rewrite !bind_ret_l.
  destruct (find_suffix name None) as [suf|] eqn:Hsuf;
    destruct (grid_iam env =? 0), (berr_malloc_ok env);
    simpl; intros H; try discriminate H;
    injection H as <-; repeat split; exists name; rewrite Hsuf;
    split; reflexivity.
Qed.

(** The whole run of a rank of the grid that runs to its end. *)
Lemma main_active k env argv :
  grid_iam env <> -1 ->
  result (main k env argv) = Ret tt ->
  exists v file,
    result (startup env argv) = Ret (v, file) /\
    result (prepare k env v file) = Ret (driver_options k v) /\
    trace (main k env argv) =
    trace (startup env argv) ++ trace (prepare k env v file) ++
    pdgssvx3d (driver_options k v) (ldb env) nrhs ::
    trace (after_solver env) ++
    trace (deallocate env (driver_options k v) (A_ncol env)) ++
    trace (out env v).
Proof.
  intros Hiam. apply Z.eqb_neq in Hiam. unfold main.
  rewrite result_bind, trace_bind.
  destruct (result (startup env argv)) as [[v file]| | | |] eqn:Hs;
    try discriminate.
  cbn [fst snd]. rewrite Hiam. unfold solve_system.
  rewrite !result_bind.
  destruct (result (prepare k env v file)) as [o| | | |] eqn:Hp;
    try discriminate.
  intros _. destruct (prepare_run _ _ _ _ _ Hp) as (-> & _).
  exists v, file. split; [reflexivity|]. split; [exact Hp|].
  f_equal.
  rewrite (bind_run _ _ tt).
  2:{ rewrite (bind_run _ _ _ Hp), bind_emit. cbn [result snd].
      rewrite (bind_run _ _ tt (after_solver_run env)). cbn [result snd].
      apply deallocate_run. }
  cbn [trace fst].
  rewrite (bind_run _ _ _ Hp), bind_emit.
  rewrite (bind_run _ _ tt (after_solver_run env)).
  cbn [trace fst]. rewrite <- !app_assoc, <- app_comm_cons.
  rewrite <- !app_assoc. reflexivity.
Qed.

Lemma after_solver_trace env :
  trace (after_solver env) =
  if info env =? 0 then accuracy_check env else error_report env (info env).
Proof.
  unfold after_solver, error_report, accuracy_check.
  destruct (info env =? 0), (grid_iam env =? 0); reflexivity.
Qed.

Lemma deallocate_trace env o n :
  trace (deallocate env o n) =
  (if grid_zscp_Iam env =? 0 then full_view_release o n
   else partial_view_release n) ++ common_release.
Proof. unfold deallocate. destruct (grid_zscp_Iam env =? 0); reflexivity. Qed.

(** The status is read after the call of the solver only. *)
Lemma main_set_info k env argv i :
  grid_iam env <> -1 ->
  result (main k env argv) = Ret tt ->
  result (main k (set_info env i) argv) = Ret tt.
Proof.
  intros Hiam. apply Z.eqb_neq in Hiam. unfold main.
  rewrite !result_bind.
  change (startup (set_info env i) argv) with (startup env argv).
  destruct (result (startup env argv)) as [[v file]| | | |]; try discriminate.
  cbn [fst snd]. change (grid_iam (set_info env i)) with (grid_iam env).
  rewrite Hiam. unfold solve_system. rewrite !result_bind.
  change (prepare k (set_info env i) v file) with (prepare k env v file).
  destruct (result (prepare k env v file)); try discriminate.
  intros _. rewrite bind_emit. cbn [result snd].
  rewrite (bind_run _ _ tt (after_solver_run _)). cbn [result snd].
  rewrite deallocate_run. apply out_run. left.
  change (grid_iam (set_info env i)) with (grid_iam env).
  apply Z.eqb_neq, Hiam.
Qed.

(** The run of a rank of the grid as a function of the status. *)
Lemma main_by_status k env argv :
  grid_iam env <> -1 ->
  result (main k env argv) = Ret tt ->
  exists v before,
    forall i,
      main k (set_info env i) argv =
      (before ++
       pdgssvx3d (driver_options k v) (ldb env) nrhs ::
       (if i =? 0 then accuracy_check env else error_report env i) ++
       cleanup env (driver_options k v) v,
       Ret tt).
Proof.
  intros Hiam Hret.
  destruct (main_active k env argv Hiam Hret) as (v & file & Hs & Hp & _).
  exists v, (trace (startup env argv) ++ trace (prepare k env v file)).
  intros i.
  pose proof (main_set_info k env argv i Hiam Hret) as Hret'.
  destruct (main_active k (set_info env i) argv Hiam Hret')
    as (v' & file' & Hs' & Hp' & Ht).
  change (startup (set_info env i) argv) with (startup env argv) in *.
  rewrite Hs in Hs'. injection Hs' as <- <-.
  change (prepare k (set_info env i) v file) with (prepare k env v file) in *.
  rewrite (surjective_pairing (main k (set_info env i) argv)).
  change (fst (main k (set_info env i) argv))
    with (trace (main k (set_info env i) argv)).
  change (snd (main k (set_info env i) argv))
    with (result (main k (set_info env i) argv)).
  rewrite Hret', Ht. f_equal.
  rewrite after_solver_trace, deallocate_trace,
      (out_trace (set_info env i) v (or_introl Hiam)).
  change (info (set_info env i)) with i.
  change (grid_iam (set_info env i)) with (grid_iam env).
  change (grid_zscp_Iam (set_info env i)) with (grid_zscp_Iam env).
  change (A_ncol (set_info env i)) with (A_ncol env).
  change (ldb (set_info env i)) with (ldb env).
  change (batch_report (set_info env i) v) with (batch_report env v).
  change (accuracy_check (set_info env i)) with (accuracy_check env).
  change (error_report (set_info env i) i) with (error_report env i).
  apply Z.eqb_neq in Hiam. rewrite Hiam. unfold cleanup.
  rewrite <- !app_assoc. reflexivity.
Qed.

Lemma status_of_zero o : status_of o = 0 <-> o = Solved.
Proof. destruct o; simpl; split; intros H; try discriminate; reflexivity. Qed.

Lemma status_of_inj o1 o2 : status_of o1 = status_of o2 -> o1 = o2.
Proof. destruct o1, o2; simpl; intros H; congruence. Qed.

(** C1: the status of the solver is 0 on success, [k] > 0 when the
    factorization failed at pivot [k], negative for an invalid argument,
    and tells these outcomes apart; on a rank of the grid that runs to
    its end, whatever the outcome of the solver, the run is the same
    up to the call, the same from the release on, and in between it is
    the check of the accuracy when the status is 0 and the report of the
    error (printed by rank 0 of the grid) when it is not. *)
Theorem status_sole_carrier k env argv :
  grid_iam env <> -1 ->
  result (main k env argv) = Ret tt ->
  (forall o, (status_of o = 0 <-> o = Solved) /\
             (forall p, status_of o = Z.pos p <-> o = PivotFailure p) /\
             (status_of o < 0 <-> exists i, o = InvalidArgument i)) /\
  (forall o1 o2, status_of o1 = status_of o2 -> o1 = o2) /\
  exists v before after,
    forall o : solver_outcome,
      main k (set_info env (status_of o)) argv =
      (before ++
       pdgssvx3d (driver_options k v) (ldb env) nrhs ::
       match o with
       | Solved => accuracy_check env
       | _ => error_report env (status_of o)
       end ++ after,
       Ret tt).
Proof.
  intros Hiam Hret. split; [|split; [exact status_of_inj|]].
  - intros o. split; [apply status_of_zero|]. split.
    + intros p. destruct o; simpl; split; intros H; try discriminate;
        congruence.
    + destruct o; simpl; split; try lia.
      * intros [i H]. discriminate H.
      * intros [i0 H]. discriminate H.
      * intros _. eexists; reflexivity.
  - destruct (main_by_status k env argv Hiam Hret) as (v & before & H).
    exists v, before, (cleanup env (driver_options k v) v).
    intros o. rewrite H. destruct o; reflexivity.
Qed.

(** C1 at rank 0 of a grid, in the run of [pddrive3d g20.rua]. *)
Lemma status_sole_carrier_witness :
  grid_iam (Sample.rank_env 0 0 0 3 Sample.zero Sample.zero) <> -1 /\
  result (main Sample.consts
               (Sample.rank_env 0 0 0 3 Sample.zero Sample.zero)
               Sample.argv_plain) = Ret tt /\
  exists v before after,
    forall o : solver_outcome,
      main Sample.consts
           (set_info (Sample.rank_env 0 0 0 3 Sample.zero Sample.zero)
                     (status_of o))
           Sample.argv_plain =
      (before ++
       pdgssvx3d (driver_options Sample.consts v) 100 nrhs ::
       match o with
       | Solved =>
           accuracy_check (Sample.rank_env 0 0 0 3 Sample.zero Sample.zero)
       | _ =>
           error_report (Sample.rank_env 0 0 0 3 Sample.zero Sample.zero)
                        (status_of o)
       end ++ after,
       Ret tt).
Proof.
  assert (H1 : grid_iam (Sample.rank_env 0 0 0 3 Sample.zero Sample.zero) <> -1)
    by (simpl; lia).
  assert (H2 : result (main Sample.consts
                 (Sample.rank_env 0 0 0 3 Sample.zero Sample.zero)
                 Sample.argv_plain) = Ret tt)
    by (vm_compute; reflexivity).
  split; [exact H1|]. split; [exact H2|].
  exact (proj2 (proj2 (status_sole_carrier Sample.consts _ _ H1 H2))).
Defined.

(** C7: on a rank of the grid that runs to its end, whatever status the
    solver stores, the run is the same up to the call and, once the
    status is dealt with, goes through the same release: the print of
    the statistics and the release of the factors on layer 0 (the
    release of the partial view on the other layers), the release of
    the matrix, of the vectors and of the structures, and last the
    release of the statistics.  A status that is not 0 replaces the
    check of the accuracy by the report of the error and nothing
    else. *)
Theorem cleanup_whatever_status k env argv :
  grid_iam env <> -1 ->
  result (main k env argv) = Ret tt ->
  exists v before,
    let o := driver_options k v in
    (forall i,
       main k (set_info env i) argv =
       (before ++ pdgssvx3d o (ldb env) nrhs ::
        (if i =? 0 then accuracy_check env else error_report env i) ++
        cleanup env o v,
        Ret tt)) /\
    (grid_zscp_Iam env = 0 ->
       cleanup env o v =
       [PStatPrint o; dDestroy_LU (A_ncol env); dSolveFinalize o] ++
       common_release ++ trace (batch_report env v) ++
       [superlu_gridexit3d; PStatFree; MPI_Finalize]) /\
    (grid_zscp_Iam env <> 0 ->
       cleanup env o v =
       [dDeAllocLlu_3d (A_ncol env); dDeAllocGlu_3d] ++
       common_release ++ trace (batch_report env v) ++
       [superlu_gridexit3d; PStatFree; MPI_Finalize]).
Proof.
  intros Hiam Hret.
  destruct (main_by_status k env argv Hiam Hret) as (v & before & H).
  exists v, before. cbv zeta. split; [exact H|]. unfold cleanup.
  split.
  - intros Hz. rewrite Hz. reflexivity.
  - intros Hz. apply Z.eqb_neq in Hz. rewrite Hz. reflexivity.
Qed.

(** C7 at a rank of layer 1 for which the solver fails at pivot 7. *)
Lemma cleanup_whatever_status_witness :
  grid_iam (Sample.rank_env 2 2 1 7 Sample.zero Sample.zero) <> -1 /\
  result (main Sample.consts
               (Sample.rank_env 2 2 1 7 Sample.zero Sample.zero)
               Sample.argv_2x1x2) = Ret tt /\
  exists v before,
    forall i,
      main Sample.consts
           (set_info (Sample.rank_env 2 2 1 7 Sample.zero Sample.zero) i)
           Sample.argv_2x1x2 =
      (before ++ pdgssvx3d (driver_options Sample.consts v) 100 nrhs ::
       (if i =? 0
        then accuracy_check (Sample.rank_env 2 2 1 7 Sample.zero Sample.zero)
        else error_report (Sample.rank_env 2 2 1 7 Sample.zero Sample.zero) i) ++
       cleanup (Sample.rank_env 2 2 1 7 Sample.zero Sample.zero)
               (driver_options Sample.consts v) v,
       Ret tt).
Proof.
  assert (H1 : grid_iam (Sample.rank_env 2 2 1 7 Sample.zero Sample.zero) <> -1)
    by (simpl; lia).
  assert (H2 : result (main Sample.consts
                 (Sample.rank_env 2 2 1 7 Sample.zero Sample.zero)
                 Sample.argv_2x1x2) = Ret tt)
    by (vm_compute; reflexivity).
  split; [exact H1|]. split; [exact H2|].
  destruct (cleanup_whatever_status Sample.consts _ _ H1 H2)
    as (v & before & H & _).
  exists v, before. exact H.
Defined.

Local Ltac all_later HP :=
  repeat first
    [ apply all_ret | apply all_stop | apply all_defined
    | apply all_emit, HP; (reflexivity || (simpl; assumption))
    | apply all_bind; [|intros]
    | match goal with
      | |- Forall _ (trace (if ?b then _ else _)) => destruct b eqn:?
      end ].

(** Every call of a rank is one of the start-up or one the rank may
    make later on the layer it is on. *)
Lemma main_all (P : event -> Prop) k env argv :
  (forall e, startup_event e = true -> P e) ->
  (forall e, later_event env e = true -> P e) ->
  Forall P (trace (main k env argv)).
Proof.
  intros HS HL. unfold main.
  apply all_bind; [apply startup_events, HS|intros parsed].
  cbv zeta. apply all_bind.
  - destruct (grid_iam env =? -1); [apply all_ret|].
    unfold solve_system, prepare, banner, after_solver, deallocate.
    all_later HL.
    all: try (apply all_emit, HL; simpl;
              match goal with H : _ = _ |- _ => rewrite H end; reflexivity).
  - intros _. unfold out, batch_report, batch_send, stat_utime. all_later HL.
Qed.

Lemma filter_none (f : event -> bool) (l : list event) :
  Forall (fun e => f e = false) l -> List.filter f l = [].
Proof.
  induction 1 as [|e l He _ IH]; [reflexivity|]. simpl. rewrite He. exact IH.
Qed.

(** C6: which release of the factors a rank makes is decided by the
    depth coordinate [grid.zscp.Iam] of its grid: a rank of layer 0 never
    calls [dDeAllocLlu_3d] or [dDeAllocGlu_3d], a rank of another layer
    never calls [dDestroy_LU] or [dSolveFinalize], so that no rank takes
    both paths; and a rank of the grid that runs to its end calls, once
    each and in this order, [dDestroy_LU] and [dSolveFinalize] on layer
    0, [dDeAllocLlu_3d] and [dDeAllocGlu_3d] on the other layers. *)
Theorem release_by_layer k env argv :
  let t := trace (main k env argv) in
  (grid_zscp_Iam env = 0 -> List.filter partial_view_destructor t = []) /\
  (grid_zscp_Iam env <> 0 -> List.filter full_view_destructor t = []) /\
  (grid_iam env <> -1 -> result (main k env argv) = Ret tt ->
   exists v,
     (grid_zscp_Iam env = 0 ->
        List.filter full_view_destructor t =
        [dDestroy_LU (A_ncol env); dSolveFinalize (driver_options k v)]) /\
     (grid_zscp_Iam env <> 0 ->
        List.filter partial_view_destructor t =
        [dDeAllocLlu_3d (A_ncol env); dDeAllocGlu_3d])).
Proof.
  cbv zeta. split; [|split].
  - intros Hz. apply filter_none, main_all.
    + intros e He. destruct e; try discriminate He; reflexivity.
    + intros e He. destruct e; try reflexivity;
        simpl in He; rewrite Hz in He; discriminate He.
  - intros Hz. apply Z.eqb_neq in Hz. apply filter_none, main_all.
    + intros e He. destruct e; try discriminate He; reflexivity.
    + intros e He. destruct e; try reflexivity;
        simpl in He; rewrite Hz in He; discriminate He.
  - intros Hiam Hret.
    destruct (main_active k env argv Hiam Hret) as (v & file & Hs & Hp & Ht).
    destruct (prepare_run _ _ _ _ _ Hp) as (_ & _ & name & -> & Hpt).
    exists v. rewrite Ht, Hpt, after_solver_trace, deallocate_trace,
      (out_trace _ _ (or_introl Hiam)).
    apply Z.eqb_neq in Hiam. rewrite Hiam.
    assert (Hs1 : List.filter full_view_destructor (trace (startup env argv)) = []).
    { apply filter_none, startup_events.
      intros e He. destruct e; try discriminate He; reflexivity. }
    assert (Hs2 : List.filter partial_view_destructor (trace (startup env argv)) = []).
    { apply filter_none, startup_events.
      intros e He. destruct e; try discriminate He; reflexivity. }
    unfold batch_report, error_report, accuracy_check, batch_send, stat_utime.
    rewrite Hiam.
    split; intros Hz; [|apply Z.eqb_neq in Hz]; rewrite Hz;
      rewrite List.filter_app; [rewrite Hs1|rewrite Hs2];
      destruct (grid_iam env =? 0), (info env =? 0), (batch v =? 0),
        (world_rank env =? 0); reflexivity.
Qed.

(** C6 at a rank of layer 0 and at a rank of layer 1. *)
Lemma release_by_layer_witness :
  List.filter partial_view_destructor
    (trace (main Sample.consts
                 (Sample.rank_env 0 0 0 0 Sample.zero Sample.zero)
                 Sample.argv_2x1x2)) = [] /\
  List.filter full_view_destructor
    (trace (main Sample.consts
                 (Sample.rank_env 2 2 1 0 Sample.zero Sample.zero)
                 Sample.argv_2x1x2)) = [] /\
  exists v,
    List.filter partial_view_destructor
      (trace (main Sample.consts
                   (Sample.rank_env 2 2 1 0 Sample.zero Sample.zero)
                   Sample.argv_2x1x2)) =
    [dDeAllocLlu_3d 400; dDeAllocGlu_3d] /\
    List.filter full_view_destructor
      (trace (main Sample.consts
                   (Sample.rank_env 0 0 0 0 Sample.zero Sample.zero)
                   Sample.argv_2x1x2)) =
    [dDestroy_LU 400; dSolveFinalize (driver_options Sample.consts v)].
Proof.
  pose proof (release_by_layer Sample.consts
                (Sample.rank_env 0 0 0 0 Sample.zero Sample.zero)
                Sample.argv_2x1x2) as (H0 & _ & H0').
  pose proof (release_by_layer Sample.consts
                (Sample.rank_env 2 2 1 0 Sample.zero Sample.zero)
                Sample.argv_2x1x2) as (_ & H1 & H1').
  split; [apply H0; reflexivity|].
  split; [apply H1; simpl; lia|].
  destruct H0' as (v & Hfull & _);
    [simpl; lia|vm_compute; reflexivity|].
  destruct H1' as (v' & _ & Hpart);
    [simpl; lia|vm_compute; reflexivity|].
  exists v. split; [apply Hpart; simpl; lia|apply Hfull; reflexivity].
Defined.

(** A rank outside the grid goes from the start-up to label [out]. *)
Lemma main_inactive k env argv :
  grid_iam env = -1 ->
  main k env argv = (parsed <- startup env argv ;; out env (fst parsed)).
Proof.
  intros Hiam. unfold main. rewrite Hiam. cbn [Z.eqb Pos.eqb].
  unfold bind at 1 3. destruct (startup env argv) as [t [p| | | |]];
    try reflexivity.
  rewrite bind_ret_l. reflexivity.
Qed.

Lemma batch_report_events env v :
  Forall (fun e => world_report_event e = true) (trace (batch_report env v)).
Proof.
  unfold batch_report, batch_send, stat_utime.
  destruct (batch v =? 0), (grid_iam env =? -1), (world_rank env =? 0);
    simpl; repeat constructor.
Qed.




Lemma solver_call_once k env argv :
  grid_iam env <> -1 ->
  result (main k env argv) = Ret tt ->
  exists v file,
    result (startup env argv) = Ret (v, file) /\
    List.filter is_solver_call (trace (main k env argv)) =
    [pdgssvx3d (driver_options k v) (ldb env) nrhs].
Proof.
  intros Hiam Hret.
  destruct (main_active k env argv Hiam Hret) as (v & file & Hs & Hp & Ht).
  destruct (prepare_run _ _ _ _ _ Hp) as (_ & _ & name & -> & Hpt).
  exists v, (Some name). split; [exact Hs|].
  rewrite Ht, Hpt, after_solver_trace, deallocate_trace,
      (out_trace _ _ (or_introl Hiam)).
  apply Z.eqb_neq in Hiam. rewrite Hiam.
  rewrite List.filter_app, filter_none.
  2:{ apply startup_events.
      intros e He. destruct e; try discriminate He; reflexivity. }
  unfold batch_report, error_report, accuracy_check, batch_send, stat_utime.
  rewrite Hiam.
  destruct (grid_iam env =? 0), (info env =? 0), (batch v =? 0),
    (world_rank env =? 0), (grid_zscp_Iam env =? 0); reflexivity.
Qed.

(** C8 fails as it is stated: in the run of [pddrive3d g20.rua], with no
    option on the command line, the solver is called with tiny-pivot
    replacement on, which is not the default. *)
Lemma defaults_not_all_in_force :
  ~ (forall o l n,
       pdgssvx3d o l n ∈
         trace (main Sample.consts (Sample.rank_env 0 0 0 0 Sample.zero Sample.zero)
                     Sample.argv_plain) ->
       o = set_default_options_dist Sample.consts /\
       Equil o = YES /\ ReplaceTinyPivot o = NO /\ num_lookaheads o = 10).
Proof.
  intros H.
  specialize (H (driver_options Sample.consts cmdline_init) 100 1).
  assert (Hin : pdgssvx3d (driver_options Sample.consts cmdline_init) 100 1 ∈
            trace (main Sample.consts
                        (Sample.rank_env 0 0 0 0 Sample.zero Sample.zero)
                        Sample.argv_plain)).
  { apply list_elem_of_In. vm_compute. tauto. }
  destruct (H Hin) as (_ & _ & Hr & _). discriminate Hr.
Qed.

(** C8, amended: when the variables [rowperm], [colperm], [lookahead]
    and [ir] hold -1, as they do when the command line overrides
    nothing, the options the solver is called with are the documented
    defaults except for [Algo3d], [DiagInv] and [ReplaceTinyPivot],
    which the driver sets to [YES]; in particular equilibration is on,
    tiny-pivot replacement is on and the look-ahead count is 10.  On a
    rank of the grid that runs to its end the solver is called once,
    with these options. *)
Theorem driver_defaults k env argv :
  grid_iam env <> -1 ->
  result (main k env argv) = Ret tt ->
  exists v file,
    result (startup env argv) = Ret (v, file) /\
    List.filter is_solver_call (trace (main k env argv)) =
    [pdgssvx3d (driver_options k v) (ldb env) nrhs] /\
    (rowperm v = -1 -> colperm v = -1 -> lookahead v = -1 -> ir v = -1 ->
     let o := driver_options k v in
     let d := set_default_options_dist k in
     o = set_ReplaceTinyPivot (set_DiagInv (set_Algo3d d YES) YES) YES /\
     Fact o = Fact d /\ Equil o = Equil d /\ ParSymbFact o = ParSymbFact d /\
     ColPerm o = ColPerm d /\ RowPerm o = RowPerm d /\
     IterRefine o = IterRefine d /\ Trans o = Trans d /\
     SolveInitialized o = SolveInitialized d /\
     RefineInitialized o = RefineInitialized d /\
     PrintStat o = PrintStat d /\ num_lookaheads o = num_lookaheads d /\
     lookahead_etree o = lookahead_etree d /\ SymPattern o = SymPattern d /\
     Algo3d o = YES /\ DiagInv o = YES /\ ReplaceTinyPivot o = YES /\
     Equil o = YES /\ num_lookaheads o = 10).
Proof.
  intros Hiam Hret.
  destruct (solver_call_once k env argv Hiam Hret) as (v & file & Hs & Hf).
  exists v, file. split; [exact Hs|]. split; [exact Hf|].
  intros Hr Hc Hl Hi. unfold driver_options. rewrite Hr, Hc, Hl, Hi.
  cbn. repeat split.
Qed.

(** C8, amended, in the run of [pddrive3d g20.rua]. *)
Lemma driver_defaults_witness :
  grid_iam (Sample.rank_env 0 0 0 0 Sample.zero Sample.zero) <> -1 /\
  result (main Sample.consts
               (Sample.rank_env 0 0 0 0 Sample.zero Sample.zero)
               Sample.argv_plain) = Ret tt /\
  exists v file,
    result (startup (Sample.rank_env 0 0 0 0 Sample.zero Sample.zero)
                    Sample.argv_plain) = Ret (v, file) /\
    List.filter is_solver_call
      (trace (main Sample.consts
                   (Sample.rank_env 0 0 0 0 Sample.zero Sample.zero)
                   Sample.argv_plain)) =
    [pdgssvx3d (driver_options Sample.consts v) 100 nrhs].
Proof.
  assert (H1 : grid_iam (Sample.rank_env 0 0 0 0 Sample.zero Sample.zero) <> -1)
    by (simpl; lia).
  assert (H2 : result (main Sample.consts
                 (Sample.rank_env 0 0 0 0 Sample.zero Sample.zero)
                 Sample.argv_plain) = Ret tt)
    by (vm_compute; reflexivity).
  split; [exact H1|]. split; [exact H2|].
  destruct (driver_defaults Sample.consts _ _ H1 H2) as (v & file & Hs & Hf & _).
  exists v, file. split; [exact Hs|exact Hf].
Defined.

(** The four overrides of the options. *)
Lemma driver_options_overrides k v :
  let o := driver_options k v in
  let d := set_default_options_dist k in
  num_lookaheads o = (if lookahead v =? -1 then num_lookaheads d else lookahead v) /\
  RowPerm o = (if rowperm v =? -1 then RowPerm d else rowperm v) /\
  ColPerm o = (if colperm v =? -1 then ColPerm d else colperm v) /\
  IterRefine o = (if ir v =? -1 then IterRefine d else ir v).
Proof.
  cbv zeta. unfold driver_options.
  destruct (lookahead v =? -1), (rowperm v =? -1), (colperm v =? -1),
    (ir v =? -1); repeat split.
Qed.

End DriverFacts.

Module GridFacts.
Import Driver Grid.

Lemma split_low (R i m : Z) : 0 <= i < R -> (i + m * R) mod R = i /\ (i + m * R) / R = m.
Proof.
  intros Hi. split.
  - rewrite Z.mod_add by lia. apply Z.mod_small. lia.
  - rewrite Z.div_add by lia. rewrite Z.div_small by lia. lia.
Qed.

Lemma slot_parts R C i j k :
  0 <= i < R -> 0 <= j < C ->
  let s := i + j * R + k * R * C in
  s mod R = i /\ (s / R) mod C = j /\ s / R / C = k.
Proof.
  intros Hi Hj s. subst s.
  replace (i + j * R + k * R * C) with (i + (j + k * C) * R) by ring.
  destruct (split_low R i (j + k * C) Hi) as [-> ->].
  destruct (split_low C j k Hj) as [-> ->]. auto.
Qed.

Lemma usermap_value_slot R C i j k :
  0 <= i < R -> 0 <= j < C ->
  usermap_value R C (i + j * R + k * R * C) = k * R * C + i * C + j.
Proof.
  intros Hi Hj. unfold usermap_value.
  destruct (slot_parts R C i j k Hi Hj) as (-> & -> & ->). reflexivity.
Qed.

Lemma slot_of_parts R C s :
  0 < R -> 0 < C ->
  s = s mod R + ((s / R) mod C) * R + (s / R / C) * R * C.
Proof.
  intros HR HC.
  pose proof (Z.div_mod s R ltac:(lia)).
  pose proof (Z.div_mod (s / R) C ltac:(lia)).
  nia.
Qed.

Lemma parts_in_box R C D s :
  0 < R -> 0 < C -> 0 <= s < R * C * D ->
  0 <= s mod R < R /\ 0 <= (s / R) mod C < C /\ 0 <= s / R / C < D.
Proof.
  intros HR HC Hs.
  split; [apply Z.mod_pos_bound; lia|].
  split; [apply Z.mod_pos_bound; lia|].
  split.
  - apply Z.div_pos; [apply Z.div_pos; lia|lia].
  - apply Z.div_lt_upper_bound; [lia|].
    apply Z.div_lt_upper_bound; [lia|]. nia.
Qed.

Lemma usermap_value_inj R C s s' :
  0 < R -> 0 < C -> 0 <= s -> 0 <= s' ->
  usermap_value R C s = usermap_value R C s' -> s = s'.
Proof.
  intros HR HC Hs Hs' H. unfold usermap_value in H.
  pose proof (Z.mod_pos_bound s R HR). pose proof (Z.mod_pos_bound s' R HR).
  pose proof (Z.mod_pos_bound (s / R) C HC). pose proof (Z.mod_pos_bound (s' / R) C HC).
  rewrite (slot_of_parts R C s HR HC), (slot_of_parts R C s' HR HC).
  set (i := s mod R) in *. set (i' := s' mod R) in *.
  set (j := (s / R) mod C) in *. set (j' := (s' / R) mod C) in *.
  set (k := s / R / C) in *. set (k' := s' / R / C) in *.
  assert (Hj : j = j').
  { assert (E : (k * R + i) * C + j = (k' * R + i') * C + j') by lia.
    apply (f_equal (fun z => z mod C)) in E.
    rewrite !(Z.add_comm _ j), !(Z.add_comm _ j'), !Z.mod_add in E by lia.
    rewrite !Z.mod_small in E by lia. exact E. }
  assert (E2 : k * R + i = k' * R + i') by nia.
  assert (Hi : i = i').
  { apply (f_equal (fun z => z mod R)) in E2.
    rewrite !(Z.add_comm _ i), !(Z.add_comm _ i'), !Z.mod_add in E2 by lia.
    rewrite !Z.mod_small in E2 by lia. exact E2. }
  assert (Hk : k = k') by nia.
  rewrite Hi, Hj, Hk. reflexivity.
Qed.

Lemma usermap_value_range R C D s :
  0 < R -> 0 < C -> 0 <= s < R * C * D -> 0 <= usermap_value R C s < R * C * D.
Proof.
  intros HR HC Hs. unfold usermap_value.
  destruct (parts_in_box R C D s HR HC Hs) as (Hi & Hj & Hk).
  set (i := s mod R) in *. set (j := (s / R) mod C) in *.
  set (k := s / R / C) in *.
  assert (H1 : 0 <= k * R + i <= D * R - 1) by nia.
  assert (H2 : 0 <= (k * R + i) * C <= (D * R - 1) * C) by nia.
  split; nia.
Qed.

Lemma usermap_upto_length R C count n :
  length (usermap_upto R C count n) = Z.to_nat count.
Proof. unfold usermap_upto. rewrite length_fmap, length_seq. reflexivity. Qed.

Lemma usermap_upto_lookup R C count n (s : nat) :
  (s < Z.to_nat count)%nat ->
  usermap_upto R C count n !! s =
  Some (if usermap_value R C (Z.of_nat s) <? n
        then Some (usermap_value R C (Z.of_nat s)) else None).
Proof.
  intros Hs. unfold usermap_upto.
  rewrite list_lookup_fmap, lookup_seq_lt by exact Hs. reflexivity.
Qed.

(** Writing the counter into the slot of the next position. *)
Lemma usermap_upto_step R C count p s :
  0 < R -> 0 < C -> 0 <= s < count ->
  usermap_value R C s = p ->
  <[Z.to_nat s := Some p]> (usermap_upto R C count p) =
  usermap_upto R C count (p + 1).
Proof.
  intros HR HC Hs Hq. apply list_eq. intros n.
  destruct (decide (n = Z.to_nat s)) as [->|Hn].
  - rewrite list_lookup_insert_eq
      by (rewrite usermap_upto_length; lia).
    rewrite usermap_upto_lookup by lia.
    rewrite Z2Nat.id by lia. rewrite Hq.
    destruct (Z.ltb_spec p (p + 1)); [reflexivity|lia].
  - rewrite list_lookup_insert_ne by auto.
    destruct (decide (n < Z.to_nat count)%nat) as [Hlt|Hge].
    + rewrite !usermap_upto_lookup by exact Hlt. f_equal.
      assert (Hne : usermap_value R C (Z.of_nat n) <> p).
      { intros E. apply Hn. rewrite <- Hq in E.
        apply usermap_value_inj in E; try lia. }
      destruct (Z.ltb_spec (usermap_value R C (Z.of_nat n)) p),
               (Z.ltb_spec (usermap_value R C (Z.of_nat n)) (p + 1));
        try reflexivity; lia.
    + rewrite !lookup_ge_None_2
        by (rewrite usermap_upto_length; lia). reflexivity.
Qed.

Lemma in_int_small z : 0 <= z <= INT_MAX -> in_int z = true.
Proof.
  intros Hz. unfold in_int, INT_MIN, INT_MAX in *.
  apply andb_true_iff. split; apply Z.leb_le; lia.
Qed.

Lemma grid_size_ok v :
  dims_ok v -> grid_size v = Some (nprow v * npcol v * npdep v).
Proof.
  intros (HR & HC & HD & Hmax). unfold grid_size, int_mul.
  rewrite in_int_small by nia. simpl.
  rewrite in_int_small by nia. reflexivity.
Qed.

Lemma usermap_index_ok v i j k :
  dims_ok v -> 0 <= i < nprow v -> 0 <= j < npcol v -> 0 <= k < npdep v ->
  usermap_index v i j k = Some (i + j * nprow v + k * nprow v * npcol v) /\
  0 <= i + j * nprow v + k * nprow v * npcol v
    < nprow v * npcol v * npdep v.
Proof.
  intros (HR & HC & HD & Hmax) Hi Hj Hk.
  set (R := nprow v) in *. set (C := npcol v) in *. set (D := npdep v) in *.
  assert (H1 : 0 <= j * R <= (C - 1) * R) by nia.
  assert (H2 : 0 <= k * R <= (D - 1) * R) by nia.
  assert (H3 : 0 <= k * R * C <= (D - 1) * R * C) by nia.
  assert (H4 : R * C <= R * C * D) by nia.
  assert (H5 : i + j * R + k * R * C < R * C * D) by nia.
  split; [|lia].
  unfold usermap_index, int_mul, int_add. fold R C.
  rewrite (in_int_small (j * R)) by nia. simpl.
  rewrite (in_int_small (i + j * R)) by nia. simpl.
  rewrite (in_int_small (k * R)) by nia. simpl.
  rewrite (in_int_small (k * R * C)) by nia. simpl.
  rewrite (in_int_small (i + j * R + k * R * C)) by nia. reflexivity.
Qed.

(** The driver's loops fill [usermap] completely, without events and
    without leaving its bounds, and leave the counter at the size of
    the grid. *)
Lemma fill_usermap_run v :
  dims_ok v ->
  let count := nprow v * npcol v * npdep v in
  fill_usermap v (replicate (Z.to_nat count) None) =
  ret (driver_usermap (nprow v) (npcol v) (npdep v), count).
Proof.
  intros Hd count.
  pose proof Hd as (HR & HC & HD & Hmax).
  set (R := nprow v) in *. set (C := npcol v) in *. set (D := npdep v) in *.
  pose (st := fun p : Z => (usermap_upto R C count p, p)).
  assert (Hstart : replicate (Z.to_nat count) (@None Z) = usermap_upto R C count 0).
  { apply list_eq. intros n.
    destruct (decide (n < Z.to_nat count)%nat) as [Hlt|Hge].
    - rewrite lookup_replicate_2 by exact Hlt.
      rewrite usermap_upto_lookup by exact Hlt.
      pose proof (usermap_value_range R C D (Z.of_nat n) HR HC ltac:(lia)).
      destruct (Z.ltb_spec (usermap_value R C (Z.of_nat n)) 0);
        [lia|reflexivity].
    - rewrite !lookup_ge_None_2; [reflexivity| |].
      + rewrite usermap_upto_length. lia.
      + rewrite length_replicate. lia. }
  unfold fill_usermap, for_range_st. fold R C D. rewrite Hstart.
  change (usermap_upto R C count 0, 0) with (st (0 * R * C)).
  rewrite (for_from_st_steps _ 0 _ (fun k => st (k * R * C))).
  { unfold st, driver_usermap. fold count.
    replace ((0 + Z.of_nat (Z.to_nat (D - 0))) * R * C) with count
      by (unfold count; nia). reflexivity. }
  intros k Hk.
  replace (k * R * C) with (k * R * C + 0 * C) by lia.
  rewrite (for_from_st_steps _ 0 _ (fun i => st (k * R * C + i * C))).
  { f_equal. f_equal. nia. }
  intros i Hi.
  replace (k * R * C + i * C) with (k * R * C + i * C + 0) by lia.
  rewrite (for_from_st_steps _ 0 _ (fun j => st (k * R * C + i * C + j))).
  { f_equal. f_equal. nia. }
  intros j Hj. unfold st. cbn [fst snd].
  destruct (usermap_index_ok v i j k Hd ltac:(fold R; lia) ltac:(fold C; lia)
              ltac:(fold D; lia)) as [Hidx Hrange].
  fold R C D in Hidx, Hrange. fold count in Hrange.
  rewrite Hidx. cbn [defined]. rewrite bind_ret_l.
  unfold store. rewrite usermap_upto_length.
  destruct (Z.leb_spec 0 (i + j * R + k * R * C)); [|lia].
  destruct (Z.ltb_spec (i + j * R + k * R * C) (Z.of_nat (Z.to_nat count)));
    [|lia].
  cbn [andb]. rewrite bind_ret_l.
  rewrite usermap_upto_step; try lia.
  2:{ apply usermap_value_slot; lia. }
  unfold int_add.
  assert (Hp : k * R * C + i * C + j < count).
  { rewrite <- (usermap_value_slot R C i j k) by lia.
    apply (usermap_value_range R C D); lia. }
  rewrite in_int_small by (unfold INT_MAX in *; nia).
  cbn [defined]. rewrite bind_ret_l. f_equal. f_equal; [f_equal|]; lia.
Qed.

Lemma usermap_value_surj R C D p :
  0 < R -> 0 < C -> 0 <= p < R * C * D ->
  exists s, 0 <= s < R * C * D /\ usermap_value R C s = p.
Proof.
  intros HR HC Hp.
  destruct (parts_in_box C R D p HC HR ltac:(lia)) as (Hj & Hi & Hk).
  set (j := p mod C) in *. set (i := (p / C) mod R) in *.
  set (k := p / C / R) in *.
  exists (i + j * R + k * R * C). split.
  - assert (0 <= j * R <= (C - 1) * R) by nia.
    assert (0 <= k * R * C <= (D - 1) * R * C) by nia.
    nia.
  - rewrite usermap_value_slot by lia.
    rewrite (slot_of_parts C R p HC HR). fold i j k. ring.
Qed.

Lemma driver_usermap_lookup R C D (s : nat) :
  0 < R -> 0 < C -> Z.of_nat s < R * C * D ->
  driver_usermap R C D !! s = Some (Some (usermap_value R C (Z.of_nat s))).
Proof.
  intros HR HC Hs. unfold driver_usermap.
  rewrite usermap_upto_lookup by lia.
  pose proof (usermap_value_range R C D (Z.of_nat s) HR HC ltac:(lia)).
  destruct (Z.ltb_spec (usermap_value R C (Z.of_nat s)) (R * C * D));
    [reflexivity|lia].
Qed.

Lemma driver_usermap_names R C D (s : nat) r :
  0 < R -> 0 < C ->
  driver_usermap R C D !! s = Some (Some r) <->
  Z.of_nat s < R * C * D /\ usermap_value R C (Z.of_nat s) = r.
Proof.
  intros HR HC. split.
  - intros H. pose proof (lookup_lt_Some _ _ _ H) as Hlt.
    unfold driver_usermap in Hlt. rewrite usermap_upto_length in Hlt.
    assert (Hs : Z.of_nat s < R * C * D) by lia.
    rewrite driver_usermap_lookup in H by assumption.
    split; [exact Hs|congruence].
  - intros [Hs <-]. apply driver_usermap_lookup; assumption.
Qed.

(** The position the construction gives a rank under the driver's map. *)
Lemma coord_spec R C D r c :
  0 < R -> 0 < C ->
  (found ← list_find (fun x => x = Some r) (driver_usermap R C D);
   Some (position R C (Z.of_nat found.1))) = Some c <->
  exists s, 0 <= s < R * C * D /\ usermap_value R C s = r /\
            c = position R C s.
Proof.
  intros HR HC. split.
  - destruct (list_find _ _) as [[n x]|] eqn:Hf; [|discriminate].
    simpl. intros [= <-].
    apply list_find_Some in Hf as (Hl & -> & _).
    apply driver_usermap_names in Hl as [Hn Hv]; try assumption.
    exists (Z.of_nat n). repeat split; lia.
  - intros (s & Hs & Hv & ->).
    assert (Hl : driver_usermap R C D !! Z.to_nat s = Some (Some r)).
    { apply driver_usermap_names; try assumption.
      rewrite Z2Nat.id by lia. split; [lia|exact Hv]. }
    destruct (list_find_elem_of (fun x => x = Some r) _ (Some r)
                (list_elem_of_lookup_2 _ _ _ Hl) eq_refl) as [[n x] Hf].
    rewrite Hf. simpl.
    apply list_find_Some in Hf as (Hl' & -> & _).
    apply driver_usermap_names in Hl' as [Hn Hv']; try assumption.
    assert (Z.of_nat n = s).
    { apply (usermap_value_inj R C); try lia. }
    congruence.
Qed.

Lemma position_in_box R C D s :
  0 < R -> 0 < C -> 0 <= s < R * C * D -> in_box R C D (position R C s).
Proof. intros HR HC Hs. apply parts_in_box; assumption. Qed.

Lemma position_slot R C D c :
  in_box R C D c -> position R C (slot R C c) = c /\
                    usermap_value R C (slot R C c) = counter R C c /\
                    0 <= slot R C c < R * C * D.
Proof.
  destruct c as [[i j] k]. unfold in_box, slot, counter, position. simpl.
  intros (Hi & Hj & Hk).
  destruct (slot_parts R C i j k Hi Hj) as (E1 & E2 & E3).
  rewrite E1, E2, E3. split; [reflexivity|].
  split; [apply usermap_value_slot; assumption|].
  assert (0 <= j * R <= (C - 1) * R) by nia.
  assert (0 <= k * R * C <= (D - 1) * R * C) by nia.
  nia.
Qed.

Lemma slot_position R C s : 0 < R -> 0 < C -> slot R C (position R C s) = s.
Proof.
  intros HR HC. unfold slot, position. simpl. symmetry.
  apply slot_of_parts; assumption.
Qed.

(** C4: for dimensions that are positive, with [npdep] a power of two
    and [nprow*npcol*npdep] at most the number of ranks (and an [int]),
    the loops of the driver fill [usermap] so that the slot of every
    position (i, j, k) of the box holds the counter [k*R*C + i*C + j], a
    rank between 0 and the size of the grid, and every such rank is held
    by the slot of one position only; and the construction of the grid
    from this map succeeds and gives every rank below the size of the
    grid a position of the box, the ranks from the size of the grid on
    the sentinel, no position to two ranks and every position of the
    box to a rank. *)
Theorem grid_positions_bijective (v : cmdline) (size : Z) :
  dims_ok v ->
  is_power_of_two (npdep v) = true ->
  nprow v * npcol v * npdep v <= size ->
  let R := nprow v in
  let C := npcol v in
  let D := npdep v in
  let usermap := driver_usermap R C D in
  fill_usermap v (replicate (Z.to_nat (R * C * D)) None)
    = ret (usermap, R * C * D) /\
  (forall c, in_box R C D c ->
     usermap !! Z.to_nat (slot R C c) = Some (Some (counter R C c)) /\
     0 <= counter R C c < R * C * D) /\
  (forall r, 0 <= r < R * C * D ->
     exists c, in_box R C D c /\
       usermap !! Z.to_nat (slot R C c) = Some (Some r) /\
       forall c', in_box R C D c' ->
         usermap !! Z.to_nat (slot R C c') = Some (Some r) -> c' = c) /\
  exists coord,
    createGrid3D size R C D usermap = Some coord /\
    (forall r, 0 <= r < size -> (coord r = None <-> R * C * D <= r)) /\
    (forall r c, coord r = Some c -> in_box R C D c /\ 0 <= r < R * C * D) /\
    (forall r1 r2 c, coord r1 = Some c -> coord r2 = Some c -> r1 = r2) /\
    (forall c, in_box R C D c ->
       exists r, 0 <= r < R * C * D /\ coord r = Some c).
Proof.
  intros Hd Hpow Hsize R C D usermap.
  pose proof Hd as (HR & HC & HD & Hmax). fold R C D in HR, HC, HD, Hmax, Hsize.
  assert (Hslot : forall c, in_box R C D c ->
            usermap !! Z.to_nat (slot R C c) = Some (Some (counter R C c)) /\
            0 <= counter R C c < R * C * D).
  { intros c Hc. destruct (position_slot R C D c Hc) as (_ & Hv & Hs).
    split.
    - apply driver_usermap_names; try assumption.
      rewrite Z2Nat.id by lia. split; [lia|exact Hv].
    - rewrite <- Hv. apply usermap_value_range; assumption. }
  split; [apply fill_usermap_run, Hd|]. split; [exact Hslot|]. split.
  - intros r Hr.
    destruct (usermap_value_surj R C D r HR HC Hr) as (s & Hs & Hv).
    exists (position R C s). split; [apply position_in_box; assumption|].
    rewrite slot_position by assumption. split.
    + apply driver_usermap_names; try assumption.
      rewrite Z2Nat.id by lia. split; [lia|exact Hv].
    + intros c' Hc' Hl.
      destruct (position_slot R C D c' Hc') as (Hp & _ & Hs').
      apply driver_usermap_names in Hl as [_ Hv']; try assumption.
      rewrite Z2Nat.id in Hv' by lia.
      assert (slot R C c' = s)
        by (apply (usermap_value_inj R C); try lia).
      congruence.
  - unfold createGrid3D.
    change (is_power_of_two D) with (is_power_of_two (npdep v)). rewrite Hpow.
    destruct (Z.ltb_spec 0 R); [|lia]. destruct (Z.ltb_spec 0 C); [|lia].
    destruct (Z.leb_spec (R * C * D) size); [|lia]. cbn [andb].
    eexists. split; [reflexivity|]. cbv beta.
    split; [|split; [|split]].
    + intros r Hr. split.
      * intros Hnone. destruct (Z.le_gt_cases (R * C * D) r) as [|Hlt];
          [assumption|].
        destruct (usermap_value_surj R C D r HR HC ltac:(lia)) as (s & Hs & Hv).
        assert (Hsome : (found ← list_find (fun x => x = Some r) usermap;
                         Some (position R C (Z.of_nat found.1)))
                        = Some (position R C s)).
        { apply coord_spec; try assumption. exists s. auto. }
        congruence.
      * intros Hge.
        destruct (found ← list_find (fun x => x = Some r) usermap;
                  Some (position R C (Z.of_nat found.1))) as [c|] eqn:Hc;
          [|reflexivity].
        apply coord_spec in Hc as (s & Hs & Hv & _); try assumption.
        pose proof (usermap_value_range R C D s HR HC Hs). lia.
    + intros r c Hc.
      apply coord_spec in Hc as (s & Hs & Hv & ->); try assumption.
      split; [apply position_in_box; assumption|].
      rewrite <- Hv. apply usermap_value_range; assumption.
    + intros r1 r2 c Hc1 Hc2.
      apply coord_spec in Hc1 as (s1 & Hs1 & Hv1 & E1); try assumption.
      apply coord_spec in Hc2 as (s2 & Hs2 & Hv2 & E2); try assumption.
      assert (s1 = s2).
      { rewrite <- (slot_position R C s1), <- (slot_position R C s2)
          by assumption. congruence. }
      congruence.
    + intros c Hc. destruct (position_slot R C D c Hc) as (Hp & Hv & Hs).
      exists (counter R C c). split; [apply Hslot, Hc|].
      apply coord_spec; try assumption.
      exists (slot R C c). auto.
Qed.

(** C4 at a grid of 2 x 1 x 2 in a world of five ranks. *)
Lemma grid_positions_bijective_witness :
  dims_ok Sample.batch_2x1x2 /\
  is_power_of_two (npdep Sample.batch_2x1x2) = true /\
  nprow Sample.batch_2x1x2 * npcol Sample.batch_2x1x2
    * npdep Sample.batch_2x1x2 <= 5 /\
  fill_usermap Sample.batch_2x1x2 (replicate 4 None)
    = ret (driver_usermap 2 1 2, 4) /\
  exists coord,
    createGrid3D 5 2 1 2 (driver_usermap 2 1 2) = Some coord /\
    (forall r, 0 <= r < 5 -> (coord r = None <-> 4 <= r)).
Proof.
  assert (H1 : dims_ok Sample.batch_2x1x2)
    by (unfold dims_ok, INT_MAX; simpl; lia).
  assert (H2 : is_power_of_two (npdep Sample.batch_2x1x2) = true)
    by reflexivity.
  assert (H3 : nprow Sample.batch_2x1x2 * npcol Sample.batch_2x1x2
               * npdep Sample.batch_2x1x2 <= 5) by (simpl; lia).
  split; [exact H1|]. split; [exact H2|]. split; [exact H3|].
  destruct (grid_positions_bijective Sample.batch_2x1x2 5 H1 H2 H3)
    as (Hfill & _ & _ & coord & Hc & Hnone & _).
  split; [exact Hfill|]. exists coord. split; [exact Hc|exact Hnone].
Defined.

Lemma filter_all {A} (P : A -> Prop) `{forall x, Decision (P x)} (l : list A) :
  Forall P l -> filter P l = l.
Proof.
  induction 1 as [|x l Hx _ IH]; [reflexivity|].
  rewrite filter_cons_True by exact Hx. rewrite IH. reflexivity.
Qed.

Lemma filter_nothing {A} (P : A -> Prop) `{forall x, Decision (P x)}
      (l : list A) :
  Forall (fun x => ~ P x) l -> filter P l = [].
Proof.
  induction 1 as [|x l Hx _ IH]; [reflexivity|].
  rewrite filter_cons_False by exact Hx. exact IH.
Qed.

Lemma div_block (count g r : Z) :
  0 < count -> (r / count = g <-> g * count <= r < g * count + count).
Proof.
  intros Hc. pose proof (Z.div_mod r count ltac:(lia)).
  pose proof (Z.mod_pos_bound r count Hc). split; intros; nia.
Qed.

Lemma batch_color_ok v r :
  dims_ok v -> 0 <= r <= INT_MAX ->
  batch_color v r = Some (r / (nprow v * npcol v * npdep v)).
Proof.
  intros Hd Hr. unfold batch_color. rewrite (grid_size_ok v Hd). simpl.
  destruct Hd as (HR & HC & HD & Hmax).
  set (count := nprow v * npcol v * npdep v) in *.
  assert (Hc : 0 < count) by (unfold count; nia).
  unfold int_div. destruct (Z.eqb_spec count 0); [lia|].
  rewrite Z.quot_div_nonneg by lia.
  assert (0 <= r / count <= r).
  { split; [apply Z.div_pos; lia|].
    apply Z.div_le_upper_bound; [lia|]. nia. }
  rewrite in_int_small by lia. reflexivity.
Qed.

(** The calls that build the grid of a rank in batch mode. *)
Lemma init_grid_batch env v :
  dims_ok v -> batch v <> 0 -> 0 <= world_rank env <= INT_MAX ->
  let count := nprow v * npcol v * npdep v in
  init_grid env v =
  ([MPI_Comm_rank MPI_COMM_WORLD;
    SUPERLU_MALLOC_usermap count;
    MPI_Comm_split MPI_COMM_WORLD (world_rank env / count) (world_rank env);
    superlu_gridmap3d SubComm (nprow v) (npcol v) (npdep v)
      (driver_usermap (nprow v) (npcol v) (npdep v));
    SUPERLU_FREE_usermap], Ret tt).
Proof.
  intros Hd Hb Hr count. unfold init_grid.
  apply Z.eqb_neq in Hb. rewrite Hb. cbn [negb].
  pose proof (batch_color_ok v (world_rank env) Hd Hr) as Hc.
  unfold batch_color in Hc. rewrite (grid_size_ok v Hd) in Hc |- *.
  simpl in Hc. fold count in Hc |- *.
  rewrite bind_emit. cbn [defined]. rewrite bind_ret_l, bind_emit.
  rewrite Hc. cbn [defined]. rewrite bind_ret_l, bind_emit.
  unfold count. rewrite (fill_usermap_run v Hd). rewrite bind_ret_l.
  reflexivity.
Qed.

(** C2: in batch mode, for dimensions that are positive with a product
    that is an [int], the rank [r] of a world of [size] ranks computes
    the color [r / (nprow*npcol*npdep)] (integer division), splits
    MPI_COMM_WORLD with it and builds its grid on the communicator the
    split gives it.  The ranks of a color [g] are the [nprow*npcol*npdep]
    consecutive ranks from [g*nprow*npcol*npdep] on, so that groups of
    different colors share no rank; the communicator of [r] holds those
    of them that exist in the world: all of them when the world reaches
    the end of the group, as it does for every group when the size of the
    world is a multiple of [nprow*npcol*npdep]. *)
Theorem batch_groups (v : cmdline) (size r : Z) :
  dims_ok v -> batch v <> 0 -> 0 <= r < size -> size <= INT_MAX + 1 ->
  let count := nprow v * npcol v * npdep v in
  let g := r / count in
  batch_color v r = Some g /\
  (forall env, world_rank env = r ->
     init_grid env v =
     ([MPI_Comm_rank MPI_COMM_WORLD;
       SUPERLU_MALLOC_usermap count;
       MPI_Comm_split MPI_COMM_WORLD g r;
       superlu_gridmap3d SubComm (nprow v) (npcol v) (npdep v)
         (driver_usermap (nprow v) (npcol v) (npdep v));
       SUPERLU_FREE_usermap], Ret tt)) /\
  (forall r', 0 <= r' ->
     (r' / count = g <-> g * count <= r' < g * count + count)) /\
  sub_comm size (batch_color v) r =
    seqZ (g * count) (Z.min count (size - g * count)) /\
  (g * count + count <= size ->
     length (sub_comm size (batch_color v) r) = Z.to_nat count) /\
  (forall r', 0 <= r' < size -> r' / count <> g ->
     forall x, x ∈ sub_comm size (batch_color v) r ->
               x ∉ sub_comm size (batch_color v) r').
Proof.
  intros Hd Hb Hr Hsize count g.
  pose proof Hd as (HR & HC & HD & Hmax).
  assert (Hc : 0 < count) by (unfold count; nia).
  assert (Hcolor : forall x, 0 <= x < size -> batch_color v x = Some (x / count)).
  { intros x Hx. apply batch_color_ok; [exact Hd|lia]. }
  assert (Hg : g * count <= r < g * count + count)
    by (apply div_block; [exact Hc|reflexivity]).
  assert (Hsub : forall y, 0 <= y < size ->
            sub_comm size (batch_color v) y =
            seqZ (y / count * count)
                 (Z.min count (size - y / count * count))).
  { intros y Hy. set (gy := y / count).
    assert (Hgy : gy * count <= y < gy * count + count)
      by (apply div_block; [exact Hc|reflexivity]).
    assert (0 <= gy) by (apply Z.div_pos; lia).
    set (m := Z.min count (size - gy * count)).
    unfold sub_comm.
    replace size with (gy * count + (m + (size - gy * count - m)))
      at 1 by lia.
    rewrite seqZ_app by (unfold m; nia).
    rewrite seqZ_app by (unfold m; lia).
    rewrite !filter_app.
    rewrite filter_nothing, filter_all, filter_nothing.
    - rewrite app_nil_r. reflexivity.
    - apply Forall_seqZ. intros x Hx.
      rewrite (Hcolor y Hy), Hcolor by (unfold m in *; lia).
      intros [= E]. apply div_block in E; [|exact Hc]. fold gy in E.
      unfold m in *. lia.
    - apply Forall_seqZ. intros x Hx.
      rewrite (Hcolor y Hy), Hcolor by (unfold m in *; lia).
      f_equal. apply div_block; [exact Hc|]. fold gy. unfold m in *. lia.
    - apply Forall_seqZ. intros x Hx.
      rewrite (Hcolor y Hy), Hcolor by (unfold m in *; nia).
      intros [= E]. apply div_block in E; [|exact Hc]. fold gy in E. lia. }
  split; [apply Hcolor, Hr|]. split.
  { intros env <-. apply init_grid_batch; [exact Hd|exact Hb|lia]. }
  split; [intros r' _; apply div_block, Hc|].
  split; [apply Hsub, Hr|]. split.
  - intros Hfull. rewrite (Hsub r Hr), length_seqZ. fold g. lia.
  - intros r' Hr' Hne x Hx Hx'.
    rewrite (Hsub r Hr) in Hx. rewrite (Hsub r' Hr') in Hx'.
    apply elem_of_seqZ in Hx, Hx'. fold g in Hx.
    assert (x / count = g) by (apply div_block; [exact Hc|lia]).
    assert (x / count = r' / count) by (apply div_block; [exact Hc|lia]).
    congruence.
Qed.

(** When the size of the world is not a multiple of the size of a group
    the last communicator is short: five ranks, groups of four. *)
Example sub_comm_short :
  sub_comm 5 (batch_color Sample.batch_2x1x2) 4 = [4] /\
  sub_comm 5 (batch_color Sample.batch_2x1x2) 2 = [0; 1; 2; 3].
Proof. split; vm_compute; reflexivity. Qed.

(** C2 at rank 5 of a world of eight ranks, for grids of 2 x 1 x 2. *)
Lemma batch_groups_witness :
  dims_ok Sample.batch_2x1x2 /\ batch Sample.batch_2x1x2 <> 0 /\
  0 <= 5 < 8 /\ 8 <= INT_MAX + 1 /\
  batch_color Sample.batch_2x1x2 5 = Some 1 /\
  sub_comm 8 (batch_color Sample.batch_2x1x2) 5 = seqZ 4 4.
Proof.
  assert (H1 : dims_ok Sample.batch_2x1x2)
    by (unfold dims_ok, INT_MAX; simpl; lia).
  assert (H2 : batch Sample.batch_2x1x2 <> 0) by (simpl; lia).
  assert (H3 : 0 <= 5 < 8) by lia.
  assert (H4 : 8 <= INT_MAX + 1) by (unfold INT_MAX; lia).
  split; [exact H1|]. split; [exact H2|]. split; [exact H3|].
  split; [exact H4|].
  destruct (batch_groups Sample.batch_2x1x2 8 5 H1 H2 H3 H4)
    as (Hc & _ & _ & Hs & _).
  split; [exact Hc|exact Hs].
Defined.

End GridFacts.

Module ReduceFacts.
Import Driver Grid DriverFacts.

(** The model at work: 0.1 in double precision, converted to [float]. *)
Example double_to_float_sample :
  double_to_float (S754_finite false 7205759403792794 (-56)) =
  S754_finite false 13421773 (-27).
Proof. vm_compute. reflexivity. Qed.

Example allreduce_sample :
  allreduce float_min (double_to_float <$> [Sample.d1_5; Sample.d0_25; Sample.d2])
    = Some (double_to_float Sample.d0_25) /\
  allreduce float_max (double_to_float <$> [Sample.d1_5; Sample.d0_25; Sample.d2])
    = Some (double_to_float Sample.d2).
Proof. split; vm_compute; reflexivity. Qed.

Local Ltac order_cases :=
  repeat match goal with
         | |- context [Z.compare ?x ?y] => destruct (Z.compare_spec x y)
         | |- context [Pos.compare_cont Eq ?x ?y] =>
             change (Pos.compare_cont Eq x y) with (Pos.compare x y);
             destruct (Pos.compare_spec x y)
         end.
























End ReduceFacts.

(** * Further properties *)

Section LoopFacts.
Context {E : Type}.
Implicit Types (body : Z -> prog E unit).

(** A loop of checks when what each iteration checks is a proposition. *)
Lemma for_from_checks_prop n lo body (Q : Z -> Prop) :
  (forall k, 0 <= k < Z.of_nat n ->
     (result (body (lo + k)) = Ret tt <-> Q (lo + k)) /\
     (result (body (lo + k)) = Ret tt \/
      result (body (lo + k)) = AssertFailed)) ->
  (result (for_from n lo body) = Ret tt <->
     forall k, 0 <= k < Z.of_nat n -> Q (lo + k)) /\
  (result (for_from n lo body) = Ret tt \/
   result (for_from n lo body) = AssertFailed).
Proof.
  revert lo; induction n as [|n IH]; intros lo Hb.
  - simpl. split; [split; [intros _ k Hk; lia|reflexivity]|left; reflexivity].
  - cbn [for_from]. rewrite result_bind.
    destruct (Hb 0 ltac:(lia)) as [H0 H0']. rewrite Z.add_0_r in H0, H0'.
    destruct (IH (lo + 1)) as [IHr IHo].
    { intros k Hk. replace (lo + 1 + k) with (lo + (k + 1)) by lia.
      apply Hb. lia. }
    destruct H0' as [E0|E0]; rewrite E0.
    + split; [|exact IHo]. rewrite IHr. split.
      * intros H k Hk. destruct (Z.eq_dec k 0) as [->|Hne].
        { rewrite Z.add_0_r. apply H0, E0. }
        replace (lo + k) with (lo + 1 + (k - 1)) by lia. apply H. lia.
      * intros H k Hk. replace (lo + 1 + k) with (lo + (k + 1)) by lia.
        apply H. lia.
    + split; [|right; reflexivity]. split; [discriminate|].
      intros H. specialize (H 0 ltac:(lia)). rewrite Z.add_0_r in H.
      apply H0 in H. congruence.
Qed.

(** A loop whose iterations all end and emit the same events. *)
Lemma for_from_same n lo body (t : list E) :
  (forall k, 0 <= k < Z.of_nat n -> body (lo + k) = (t, Ret tt)) ->
  for_from n lo body = (concat (replicate n t), Ret tt).
Proof.
  revert lo; induction n as [|n IH]; intros lo Hb; [reflexivity|].
  cbn [for_from]. pose proof (Hb 0 ltac:(lia)) as H0.
  rewrite Z.add_0_r in H0. rewrite H0.
  rewrite (IH (lo + 1)).
  - reflexivity.
  - intros k Hk. replace (lo + 1 + k) with (lo + (k + 1)) by lia.
    apply Hb. lia.
Qed.

(** A loop stops at its first iteration that does not end. *)
Lemma for_from_stops n lo body (t t' : list E) (i : nat) (o : outcome unit) :
  (i < n)%nat ->
  (forall k, 0 <= k < Z.of_nat i -> body (lo + k) = (t, Ret tt)) ->
  body (lo + Z.of_nat i) = (t', o) ->
  (forall u, o <> Ret u) ->
  for_from n lo body = (concat (replicate i t) ++ t', o).
Proof.
  revert lo i; induction n as [|n IH]; intros lo i Hi Hb Hstop Ho; [lia|].
  cbn [for_from]. destruct i as [|i].
  - simpl in Hstop. rewrite Z.add_0_r in Hstop. rewrite Hstop.
    destruct o; try reflexivity. exfalso. exact (Ho a eq_refl).
  - pose proof (Hb 0 ltac:(lia)) as H0. rewrite Z.add_0_r in H0. rewrite H0.
    rewrite (IH (lo + 1) i ltac:(lia)).
    + simpl. rewrite <- app_assoc. reflexivity.
    + intros k Hk. replace (lo + 1 + k) with (lo + (k + 1)) by lia.
      apply Hb. lia.
    + replace (lo + 1 + Z.of_nat i) with (lo + Z.of_nat (S i)) by lia.
      exact Hstop.
    + exact Ho.
Qed.

(** A loop over an empty range does nothing. *)
Lemma for_range_st_empty {S} lo hi (body : Z -> S -> prog E S) (s : S) :
  hi <= lo -> for_range_st lo hi body s = ret s.
Proof.
  intros H. unfold for_range_st.
  replace (Z.to_nat (hi - lo)) with O by lia. reflexivity.
Qed.

Lemma for_range_empty lo hi body :
  hi <= lo -> for_range lo hi body = ret tt.
Proof.
  intros H. unfold for_range.
  replace (Z.to_nat (hi - lo)) with O by lia. reflexivity.
Qed.
End LoopFacts.

Module CheckFacts.
Import NRformat NRformatFacts.

Local Ltac order_cases :=
  repeat match goal with
         | |- context [Z.compare ?x ?y] => destruct (Z.compare_spec x y)
         | |- context [Pos.compare_cont Eq ?x ?y] =>
             change (Pos.compare_cont Eq x y) with (Pos.compare x y);
             destruct (Pos.compare_spec x y)
         end.

(** [==] on floating-point values: symmetric, transitive, and reflexive
    on everything but the NaN. *)
Lemma fp_eq_sym a b : fp_eq a b = fp_eq b a.
Proof.
  destruct a as [sa|sa| |sa ma ea], b as [sb|sb| |sb mb eb];
    unfold fp_eq, SFeqb, SFcompare;
    try destruct sa; try destruct sb; try reflexivity;
    order_cases; simpl; try reflexivity; try lia.
Qed.

Lemma fp_eq_trans a b c :
  fp_eq a b = true -> fp_eq b c = true -> fp_eq a c = true.
Proof.
  destruct a as [sa|sa| |sa ma ea], b as [sb|sb| |sb mb eb],
           c as [sc|sc| |sc mc ec];
    unfold fp_eq, SFeqb, SFcompare;
    try destruct sa; try destruct sb; try destruct sc;
    try reflexivity; try discriminate;
    order_cases; simpl; try reflexivity; try discriminate; try lia.
Qed.

Lemma fp_eq_refl a : fp_eq a a = true <-> a <> S754_nan.
Proof.
  destruct a as [s|s| |s m e]; unfold fp_eq, SFeqb, SFcompare;
    try destruct s; simpl; split; try congruence; try discriminate;
    intros _; rewrite ?Z.compare_refl;
    change (Pos.compare_cont Eq m m) with (Pos.compare m m);
    rewrite ?Pos.compare_refl; reflexivity.
Qed.

(** One iteration of each loop of [checkNRFMT], in full. *)
Lemma entry_check_run A B i :
  0 <= i < Z.of_nat (length (nzval A)) ->
  0 <= i < Z.of_nat (length (nzval B)) ->
  0 <= i < Z.of_nat (length (colind A)) ->
  0 <= i < Z.of_nat (length (colind B)) ->
  entry_check A B i =
  if entry_ok A B i then ([colind_msg], Ret tt) else ([], AssertFailed).
Proof.
  intros H1 H2 H3 H4. unfold entry_check, entry_ok.
  destruct (load_in (E:=out) _ _ H1) as (a & -> & ->).
  destruct (load_in (E:=out) _ _ H2) as (b & -> & ->).
  destruct (load_in (E:=out) _ _ H3) as (ca & -> & ->).
  destruct (load_in (E:=out) _ _ H4) as (cb & -> & ->).
  rewrite !bind_ret_l.
  destruct (fp_eq a b); simpl; [|reflexivity].
  destruct (ca =? cb); reflexivity.
Qed.

Lemma row_check_run A B i :
  0 <= i < Z.of_nat (length (rowptr A)) ->
  0 <= i < Z.of_nat (length (rowptr B)) ->
  row_check A B i =
  if row_ok A B i then ([], Ret tt) else ([], AssertFailed).
Proof.
  intros H1 H2. unfold row_check, row_ok.
  destruct (load_in (E:=out) _ _ H1) as (a & -> & ->).
  destruct (load_in (E:=out) _ _ H2) as (b & -> & ->).
  rewrite !bind_ret_l. destruct (a =? b); reflexivity.
Qed.

Lemma concat_replicate_singleton {X} n (x : X) :
  concat (replicate n [x]) = replicate n x.
Proof. induction n as [|n IH]; [reflexivity|]. simpl. rewrite IH. reflexivity. Qed.

Lemma concat_replicate_nil {X} n : concat (replicate n (@nil X)) = [].
Proof. induction n as [|n IH]; [reflexivity|exact IH]. Qed.

Lemma row_count A :
  sized A -> int_t_add (m_loc A) 1 = Some (m_loc A + 1).
Proof.
  intros (_ & _ & _ & Hin & Hlt). unfold int_t_add, in_int_t in *.
  apply andb_true_iff in Hin as [H1 H2].
  apply Z.leb_le in H1, H2. unfold INT_T_MIN, INT_T_MAX in *.
  destruct (Z.leb_spec (- 2 ^ 63) (m_loc A + 1)); [|lia].
  destruct (Z.leb_spec (m_loc A + 1) (2 ^ 63 - 1)); [|lia]. reflexivity.
Qed.

Lemma header_asserts A B (rest : prog out unit) :
  same_header A B ->
  (assert (nnz_loc A =? nnz_loc B) ;;
   assert (m_loc A =? m_loc B) ;;
   assert (fst_row A =? fst_row B) ;; rest) = rest.
Proof.
  intros (Hn & Hm & Hf). rewrite !bind_assert.
  rewrite (proj2 (Z.eqb_eq _ _) Hn), (proj2 (Z.eqb_eq _ _) Hm),
    (proj2 (Z.eqb_eq _ _) Hf). reflexivity.
Qed.

(** When [checkNRFMT] runs to its end. *)
Lemma checkNRFMT_ret A B :
  sized A -> sized B ->
  result (checkNRFMT A B) = Ret tt <->
  same_header A B /\
  (forall i, 0 <= i < nnz_loc A -> entry_ok A B i = true) /\
  (forall i, 0 <= i <= m_loc A -> row_ok A B i = true).
Proof.
  intros HA HB. unfold checkNRFMT, same_header. rewrite !bind_assert.
  destruct (Z.eqb_spec (nnz_loc A) (nnz_loc B)) as [Hn|Hn];
    [|simpl; split; [discriminate|tauto]].
  destruct (Z.eqb_spec (m_loc A) (m_loc B)) as [Hm|Hm];
    [|simpl; split; [discriminate|tauto]].
  destruct (Z.eqb_spec (fst_row A) (fst_row B)) as [Hf|Hf];
    [|simpl; split; [discriminate|tauto]].
  destruct (entries_loop A B HA HB Hn) as (Hr1 & Ho1 & _).
  destruct (rows_loop A B HA HB Hm) as (Hr2 & Ho2 & _).
  rewrite result_bind.
  destruct Ho1 as [E1|E1]; rewrite E1.
  2:{ split; [discriminate|]. intros (_ & H & _). apply Hr1 in H. congruence. }
  rewrite (row_count A HA). cbn [defined]. rewrite bind_ret_l, result_bind.
  destruct Ho2 as [E2|E2]; rewrite E2.
  2:{ split; [discriminate|]. intros (_ & _ & H). apply Hr2 in H. congruence. }
  simpl. split; [|reflexivity]. intros _.
  split; [tauto|]. split; [apply Hr1, E1|apply Hr2, E2].
Qed.

Lemma entry_ok_sym A B i : entry_ok A B i = entry_ok B A i.
Proof.
  unfold entry_ok.
  destruct (nzval A !! Z.to_nat i), (nzval B !! Z.to_nat i),
    (colind A !! Z.to_nat i), (colind B !! Z.to_nat i); try reflexivity.
  rewrite fp_eq_sym, Z.eqb_sym. reflexivity.
Qed.

Lemma row_ok_sym A B i : row_ok A B i = row_ok B A i.
Proof.
  unfold row_ok.
  destruct (rowptr A !! Z.to_nat i), (rowptr B !! Z.to_nat i);
    try reflexivity. apply Z.eqb_sym.
Qed.

Lemma entry_ok_trans A B C i :
  entry_ok A B i = true -> entry_ok B C i = true -> entry_ok A C i = true.
Proof.
  unfold entry_ok.
  destruct (nzval A !! Z.to_nat i), (nzval B !! Z.to_nat i),
    (nzval C !! Z.to_nat i), (colind A !! Z.to_nat i),
    (colind B !! Z.to_nat i), (colind C !! Z.to_nat i); try discriminate.
  rewrite !andb_true_iff, !Z.eqb_eq. intros [H1 ->] [H2 ->].
  split; [eapply fp_eq_trans; eassumption|reflexivity].
Qed.

Lemma row_ok_trans A B C i :
  row_ok A B i = true -> row_ok B C i = true -> row_ok A C i = true.
Proof.
  unfold row_ok.
  destruct (rowptr A !! Z.to_nat i), (rowptr B !! Z.to_nat i),
    (rowptr C !! Z.to_nat i); try discriminate.
  rewrite !Z.eqb_eq. congruence.
Qed.

(** X1: a block whose arrays hold the entries its counts announce passes
    [checkNRFMT] against itself exactly when none of its first [nnz_loc]
    values is a NaN. *)
Theorem checkNRFMT_self (A : NRformat_loc) :
  sized A ->
  result (checkNRFMT A A) = Ret tt <-> nan_free A.
Proof.
  intros HA. rewrite (checkNRFMT_ret A A HA HA).
  pose proof HA as (H1 & H2 & H3 & _). unfold nan_free, same_header. split.
  - intros (_ & He & _) i a Hi Ha. specialize (He i Hi).
    unfold entry_ok in He. rewrite Ha in He.
    destruct (colind A !! Z.to_nat i); [|discriminate].
    apply andb_true_iff in He as [He _]. apply fp_eq_refl, He.
  - intros Hnan. split; [tauto|]. split.
    + intros i Hi. unfold entry_ok.
      destruct (lookup_lt_is_Some_2 (nzval A) (Z.to_nat i) ltac:(lia)) as [a Ha].
      destruct (lookup_lt_is_Some_2 (colind A) (Z.to_nat i) ltac:(lia)) as [c Hc].
      rewrite Ha, Hc, Z.eqb_refl, (proj2 (fp_eq_refl a) (Hnan i a Hi Ha)).
      reflexivity.
    + intros i Hi. unfold row_ok.
      destruct (lookup_lt_is_Some_2 (rowptr A) (Z.to_nat i) ltac:(lia)) as [r Hr].
      rewrite Hr. apply Z.eqb_refl.
Qed.

Lemma checkNRFMT_self_witness :
  sized Sample.blockA /\
  (result (checkNRFMT Sample.blockA Sample.blockA) = Ret tt
     <-> nan_free Sample.blockA).
Proof.
  assert (HA : sized Sample.blockA).
  { unfold sized; simpl. repeat split; try lia; reflexivity. }
  split; [exact HA|]. exact (checkNRFMT_self Sample.blockA HA).
Defined.

(** X2: on blocks whose arrays hold the entries their counts announce,
    passing [checkNRFMT] is symmetric and transitive. *)
Theorem checkNRFMT_sym_trans (A B C : NRformat_loc) :
  sized A -> sized B -> sized C ->
  (result (checkNRFMT A B) = Ret tt <-> result (checkNRFMT B A) = Ret tt) /\
  (result (checkNRFMT A B) = Ret tt -> result (checkNRFMT B C) = Ret tt ->
   result (checkNRFMT A C) = Ret tt).
Proof.
  intros HA HB HC.
  rewrite (checkNRFMT_ret A B HA HB), (checkNRFMT_ret B A HB HA),
    (checkNRFMT_ret B C HB HC), (checkNRFMT_ret A C HA HC).
  unfold same_header. split; [split|].
  - intros ((Hn & Hm & Hf) & He & Hr). split; [auto|]. split.
    + intros i Hi. rewrite entry_ok_sym. apply He. lia.
    + intros i Hi. rewrite row_ok_sym. apply Hr. lia.
  - intros ((Hn & Hm & Hf) & He & Hr). split; [auto|]. split.
    + intros i Hi. rewrite entry_ok_sym. apply He. lia.
    + intros i Hi. rewrite row_ok_sym. apply Hr. lia.
  - intros ((Hn & Hm & Hf) & He & Hr) ((Hn' & Hm' & Hf') & He' & Hr').
    split; [repeat split; congruence|]. split.
    + intros i Hi. apply (entry_ok_trans A B C); [apply He|apply He']; lia.
    + intros i Hi. apply (row_ok_trans A B C); [apply Hr|apply Hr']; lia.
Qed.

Lemma checkNRFMT_sym_trans_witness :
  sized Sample.blockA /\ sized Sample.blockB /\
  (result (checkNRFMT Sample.blockA Sample.blockB) = Ret tt
     <-> result (checkNRFMT Sample.blockB Sample.blockA) = Ret tt).
Proof.
  assert (HA : sized Sample.blockA).
  { unfold sized; simpl. repeat split; try lia; reflexivity. }
  assert (HB : sized Sample.blockB).
  { unfold sized; simpl. repeat split; try lia; reflexivity. }
  split; [exact HA|]. split; [exact HB|].
  exact (proj1 (checkNRFMT_sym_trans Sample.blockA Sample.blockB
                  Sample.blockA HA HB HA)).
Defined.

(** X3: what [checkNRFMT] prints on blocks with the same header whose
    arrays hold the entries their counts announce: one line per entry and
    the final message when everything agrees; one line per entry before
    the first entry that disagrees, and nothing more, when an entry
    disagrees; one line per entry and no final message when the entries
    agree and a row pointer disagrees. *)
Theorem checkNRFMT_output (A B : NRformat_loc) :
  sized A -> sized B -> same_header A B ->
  ((forall i, 0 <= i < nnz_loc A -> entry_ok A B i = true) ->
   (forall i, 0 <= i <= m_loc A -> row_ok A B i = true) ->
   checkNRFMT A B =
   (replicate (Z.to_nat (nnz_loc A)) colind_msg ++ [passed_msg], Ret tt)) /\
  (forall i, 0 <= i < nnz_loc A ->
     (forall k, 0 <= k < i -> entry_ok A B k = true) ->
     entry_ok A B i = false ->
     checkNRFMT A B = (replicate (Z.to_nat i) colind_msg, AssertFailed)) /\
  ((forall i, 0 <= i < nnz_loc A -> entry_ok A B i = true) ->
   forall r, 0 <= r <= m_loc A ->
     (forall k, 0 <= k < r -> row_ok A B k = true) ->
     row_ok A B r = false ->
     checkNRFMT A B =
     (replicate (Z.to_nat (nnz_loc A)) colind_msg, AssertFailed)).
Proof.
  intros HA HB Hh. unfold checkNRFMT. rewrite (header_asserts A B _ Hh).
  pose proof HA as (HA1 & HA2 & HA3 & _). pose proof HB as (HB1 & HB2 & HB3 & _).
  destruct Hh as (Hn & Hm & _).
  assert (Hentries : (forall i, 0 <= i < nnz_loc A -> entry_ok A B i = true) ->
            for_range 0 (nnz_loc A) (entry_check A B) =
            (replicate (Z.to_nat (nnz_loc A)) colind_msg, Ret tt)).
  { intros He. unfold for_range.
    rewrite (for_from_same _ 0 _ [colind_msg]).
    - rewrite concat_replicate_singleton. do 2 f_equal. lia.
    - intros k Hk. rewrite entry_check_run by lia.
      rewrite He by lia. reflexivity. }
  split; [|split].
  - intros He Hr. rewrite (bind_run _ _ tt) by (rewrite (Hentries He); reflexivity).
    rewrite (Hentries He). cbn [trace fst].
    rewrite (row_count A HA). cbn [defined]. rewrite bind_ret_l.
    unfold for_range. rewrite (for_from_same _ 0 _ []).
    + rewrite concat_replicate_nil. reflexivity.
    + intros k Hk. rewrite row_check_run by lia. rewrite Hr by lia. reflexivity.
  - intros i Hi Hbefore Hbad. unfold for_range.
    rewrite (for_from_stops _ 0 _ [colind_msg] [] (Z.to_nat i) AssertFailed).
    + rewrite concat_replicate_singleton, app_nil_r. reflexivity.
    + lia.
    + intros k Hk. rewrite entry_check_run by lia.
      rewrite Hbefore by lia. reflexivity.
    + rewrite Z2Nat.id, Z.add_0_l by lia.
      rewrite entry_check_run by lia. rewrite Hbad. reflexivity.
    + discriminate.
  - intros He r Hr Hbefore Hbad.
    rewrite (bind_run _ _ tt) by (rewrite (Hentries He); reflexivity).
    rewrite (Hentries He). cbn [trace fst].
    rewrite (row_count A HA). cbn [defined]. rewrite bind_ret_l.
    unfold for_range.
    rewrite (for_from_stops _ 0 _ [] [] (Z.to_nat r) AssertFailed).
    + rewrite concat_replicate_nil. cbn [app bind trace result fst snd].
      rewrite app_nil_r. reflexivity.
    + lia.
    + intros k Hk. rewrite row_check_run by lia.
      rewrite Hbefore by lia. reflexivity.
    + rewrite Z2Nat.id, Z.add_0_l by lia.
      rewrite row_check_run by lia. rewrite Hbad. reflexivity.
    + discriminate.
Qed.

Lemma checkNRFMT_output_witness :
  sized Sample.blockA /\ sized Sample.blockB /\
  same_header Sample.blockA Sample.blockB /\
  checkNRFMT Sample.blockA Sample.blockB = ([], AssertFailed).
Proof.
  assert (HA : sized Sample.blockA).
  { unfold sized; simpl. repeat split; try lia; reflexivity. }
  assert (HB : sized Sample.blockB).
  { unfold sized; simpl. repeat split; try lia; reflexivity. }
  assert (Hh : same_header Sample.blockA Sample.blockB)
    by (repeat split).
  split; [exact HA|]. split; [exact HB|]. split; [exact Hh|].
  apply (proj1 (proj2 (checkNRFMT_output Sample.blockA Sample.blockB
                         HA HB Hh)) 0).
  - simpl. lia.
  - intros k Hk. lia.
  - reflexivity.
Defined.

(** One comparison of [matCheck]. *)
Lemma mat_entry_check_run n m A LDA B LDB i j :
  mat_in_bounds n m A LDA -> mat_in_bounds n m B LDB ->
  0 <= i < n -> 0 <= j < m ->
  exists a b,
    A !! Z.to_nat (i + LDA * j) = Some a /\
    B !! Z.to_nat (i + LDB * j) = Some b /\
    mat_entry_check A LDA B LDB j i =
    if fp_eq a b then ([], Ret tt) else ([], AssertFailed).
Proof.
  intros HA HB Hi Hj.
  destruct (HA i j Hi Hj) as (A1 & A2 & A3).
  destruct (HB i j Hi Hj) as (B1 & B2 & B3).
  destruct (load_in (E:=out) A _ A3) as (a & Ha & La).
  destruct (load_in (E:=out) B _ B3) as (b & Hb & Lb).
  exists a, b. split; [exact Ha|]. split; [exact Hb|].
  unfold mat_entry_check, mat_index, int_mul, int_add.
  rewrite A1, B1. simpl. rewrite A2, B2. cbn [defined].
  rewrite !bind_ret_l, La, !bind_ret_l, Lb, bind_ret_l.
  destruct (fp_eq a b); reflexivity.
Qed.

(** X4: when the entries [matCheck] reads exist in both arrays,
    [matCheck] runs to its end exactly when, in every column [j] below
    [m] and every row [i] below [n], the entries [A[i + LDA*j]] and
    [B[i + LDB*j]] are equal under [==]; it then prints its message and
    nothing else, and otherwise ends in a failed assertion having printed
    nothing.  Entries in rows from [n] on are never compared. *)
Theorem matCheck_passes_iff (n m : Z) (A : list double) (LDA : Z)
        (B : list double) (LDB : Z) :
  mat_in_bounds n m A LDA -> mat_in_bounds n m B LDB ->
  (matCheck n m A LDA B LDB = ([mat_passed_msg], Ret tt)
     <-> mat_agree n m A LDA B LDB) /\
  (~ mat_agree n m A LDA B LDB ->
     matCheck n m A LDA B LDB = ([], AssertFailed)).
Proof.
  intros HA HB.
  set (inner := fun j => for_range 0 n (mat_entry_check A LDA B LDB j)).
  assert (Hinner : forall j, 0 <= j < m ->
            (inner j = ([], Ret tt) \/ inner j = ([], AssertFailed)) /\
            (inner j = ([], Ret tt) <->
             forall i, 0 <= i < n ->
               exists a b, A !! Z.to_nat (i + LDA * j) = Some a /\
                           B !! Z.to_nat (i + LDB * j) = Some b /\
                           fp_eq a b = true)).
  { intros j Hj. unfold inner, for_range.
    assert (Hbody : forall k, 0 <= k < Z.of_nat (Z.to_nat (n - 0)) ->
              exists a b,
                A !! Z.to_nat (0 + k + LDA * j) = Some a /\
                B !! Z.to_nat (0 + k + LDB * j) = Some b /\
                mat_entry_check A LDA B LDB j (0 + k) =
                if fp_eq a b then ([], Ret tt) else ([], AssertFailed)).
    { intros k Hk. apply (mat_entry_check_run n m); auto; lia. }
    destruct (for_from_checks_prop (Z.to_nat (n - 0)) 0
                (mat_entry_check A LDA B LDB j)
                (fun i => exists a b,
                   A !! Z.to_nat (i + LDA * j) = Some a /\
                   B !! Z.to_nat (i + LDB * j) = Some b /\
                   fp_eq a b = true)) as [Hr Ho].
    { intros k Hk. destruct (Hbody k Hk) as (a & b & Ha & Hb & ->).
      split.
      - split.
        + intros H. exists a, b. destruct (fp_eq a b); [auto|discriminate].
        + intros (a' & b' & Ha' & Hb' & Hab).
          rewrite Ha in Ha'. rewrite Hb in Hb'.
          injection Ha' as <-. injection Hb' as <-. rewrite Hab. reflexivity.
      - destruct (fp_eq a b); [left|right]; reflexivity. }
    assert (Ht : trace (for_from (Z.to_nat (n - 0)) 0
                          (mat_entry_check A LDA B LDB j)) = []).
    { destruct (trace _) as [|e t] eqn:Et; [reflexivity|]. exfalso.
      assert (Hin : e ∈ trace (for_from (Z.to_nat (n - 0)) 0
                                 (mat_entry_check A LDA B LDB j)))
        by (rewrite Et; left).
      apply for_from_trace in Hin as (k & Hk & Hin).
      destruct (Hbody k Hk) as (a & b & _ & _ & Hrun). rewrite Hrun in Hin.
      destruct (fp_eq a b); inversion Hin. }
    destruct (for_from _ _ _) as [t o]. cbn [trace result fst snd] in *.
    subst t. split.
    - destruct Ho as [->| ->]; auto.
    - split.
      + intros [= ->]. intros i Hi.
        replace i with (0 + i) by lia. apply Hr; [reflexivity|lia].
      + intros H. f_equal. apply Hr. intros k Hk. apply H. lia. }
  assert (Houter :
    (result (for_range 0 m inner) = Ret tt <-> mat_agree n m A LDA B LDB) /\
    (result (for_range 0 m inner) = Ret tt \/
     result (for_range 0 m inner) = AssertFailed) /\
    trace (for_range 0 m inner) = []).
  { unfold for_range.
    destruct (for_from_checks_prop (Z.to_nat (m - 0)) 0 inner
                (fun j => forall i, 0 <= i < n ->
                   exists a b, A !! Z.to_nat (i + LDA * j) = Some a /\
                               B !! Z.to_nat (i + LDB * j) = Some b /\
                               fp_eq a b = true)) as [Hr Ho].
    { intros k Hk. destruct (Hinner (0 + k) ltac:(lia)) as [Hor Hiff].
      split.
      - rewrite <- Hiff. destruct Hor as [-> | ->]; simpl; split; congruence.
      - destruct Hor as [-> | ->]; [left|right]; reflexivity. }
    split; [|split; [exact Ho|]].
    - rewrite Hr. unfold mat_agree. split.
      + intros H i j Hi Hj. replace j with (0 + j) by lia. apply H; lia.
      + intros H k Hk i Hi. apply H; lia.
    - destruct (trace _) as [|e t] eqn:Et; [reflexivity|]. exfalso.
      assert (Hin : e ∈ trace (for_from (Z.to_nat (m - 0)) 0 inner))
        by (rewrite Et; left).
      apply for_from_trace in Hin as (k & Hk & Hin).
      destruct (Hinner (0 + k) ltac:(lia)) as [[E|E] _];
        rewrite E in Hin; inversion Hin. }
  destruct Houter as (Hr & Ho & Ht).
  unfold matCheck. fold inner.
  destruct (for_range 0 m inner) as [t o]. cbn [trace result fst snd] in *.
  subst t. destruct Ho as [-> | ->].
  - split; [split; [intros _; apply Hr; reflexivity|reflexivity]|].
    intros Hno. exfalso. apply Hno, Hr. reflexivity.
  - split; [split; [discriminate|]|reflexivity].
    intros H. apply Hr in H. discriminate.
Qed.

Lemma matCheck_passes_iff_witness :
  mat_in_bounds 1 2 [Sample.d2; Sample.zero; Sample.d1_5] 2 /\
  mat_in_bounds 1 2 [Sample.d2; Sample.d1_5] 1 /\
  (matCheck 1 2 [Sample.d2; Sample.zero; Sample.d1_5] 2
            [Sample.d2; Sample.d1_5] 1 = ([mat_passed_msg], Ret tt)
     <-> mat_agree 1 2 [Sample.d2; Sample.zero; Sample.d1_5] 2
                   [Sample.d2; Sample.d1_5] 1).
Proof.
  assert (HA : mat_in_bounds 1 2 [Sample.d2; Sample.zero; Sample.d1_5] 2).
  { intros i j Hi Hj. assert (i = 0) by lia. subst i.
    assert (j = 0 \/ j = 1) as [-> | ->] by lia;
      (split; [reflexivity|split; [reflexivity|simpl; lia]]). }
  assert (HB : mat_in_bounds 1 2 [Sample.d2; Sample.d1_5] 1).
  { intros i j Hi Hj. assert (i = 0) by lia. subst i.
    assert (j = 0 \/ j = 1) as [-> | ->] by lia;
      (split; [reflexivity|split; [reflexivity|simpl; lia]]). }
  split; [exact HA|]. split; [exact HB|].
  exact (proj1 (matCheck_passes_iff 1 2 _ 2 _ 1 HA HB)).
Defined.

(** X5: with no row or no column to compare, [matCheck] reads nothing
    and passes, whatever the arrays and the leading dimensions. *)
Theorem matCheck_empty (n m : Z) (A : list double) (LDA : Z)
        (B : list double) (LDB : Z) :
  n <= 0 \/ m <= 0 ->
  matCheck n m A LDA B LDB = ([mat_passed_msg], Ret tt).
Proof.
  intros H. unfold matCheck.
  assert (Hloops : for_range 0 m (fun j =>
                     for_range 0 n (mat_entry_check A LDA B LDB j))
                   = ([], Ret tt)).
  { destruct (Z.le_gt_cases m 0) as [Hm|Hm].
    - apply for_range_empty. lia.
    - assert (Hn : n <= 0) by lia. unfold for_range at 1.
      rewrite (for_from_same _ 0 _ []).
      + rewrite concat_replicate_nil. reflexivity.
      + intros k Hk. apply for_range_empty. lia. }
  rewrite Hloops. reflexivity.
Qed.

Lemma matCheck_empty_witness :
  (0 <= 0 \/ 3 <= 0) /\
  matCheck 0 3 [] 5 [Sample.zero] (-1) = ([mat_passed_msg], Ret tt).
Proof.
  assert (H : 0 <= 0 \/ 3 <= 0) by (left; lia).
  split; [exact H|]. exact (matCheck_empty 0 3 [] 5 [Sample.zero] (-1) H).
Defined.

End CheckFacts.

Module CmdlineFacts.
Import Driver DriverFacts.

(** One round of the loop over [argv] at an option that takes a number. *)
Lemma parse_args_flag env (f : flag) tail x rest v :
  parse_args env (dash (flag_char f) tail :: x :: rest) v =
  (n <- defined (atoi x) ;; parse_args env rest (flag_set f v n)).
Proof. destruct f; reflexivity. Qed.

Lemma parse_args_flag_end env (f : flag) tail v :
  parse_args env [dash (flag_char f) tail] v = ([], Undefined).
Proof. destruct f; reflexivity. Qed.

Lemma parse_args_name env name rest v :
  is_option name = false ->
  parse_args env (name :: rest) v =
  ([fopen name "r"],
   if file_exists env name then Ret (v, Some name)
   else Aborted "File does not exist").
Proof.
  intros Hn. cbn [parse_args].
  assert (Hfile : (emit (fopen name "r") ;;
                   if file_exists env name then ret (v, Some name)
                   else stop (Aborted "File does not exist")) =
                  ([fopen name "r"],
                   if file_exists env name then Ret (v, Some name)
                   else Aborted "File does not exist")).
  { rewrite bind_emit. destruct (file_exists env name); reflexivity. }
  destruct name as [|c a']; [exact Hfile|].
  destruct (Ascii.eqb_spec c "-"%char) as [->|Hc]; [discriminate Hn|].
  rewrite (not_dash c) by exact Hc. exact Hfile.
Qed.

Lemma is_option_dash (a : string) :
  is_option a = true -> exists rest, a = String "-" rest.
Proof.
  destruct a as [|c a']; [discriminate|].
  destruct (Ascii.eqb_spec c "-"%char) as [->|Hc]; [eauto|].
  unfold is_option. rewrite (not_dash c) by exact Hc. discriminate.
Qed.

Lemma help_run v :
  exists t, help v = (t, Exited 0) /\ length t = 4%nat /\
            Forall (fun e => is_print e = true) t /\
            Forall (fun e => is_file_call e = false) t.
Proof.
  eexists. split; [reflexivity|]. split; [reflexivity|].
  split; repeat constructor.
Qed.

(** The round of the loop over [argv] at an argument that starts with a
    dash: the letter after the dash decides. *)
Lemma parse_args_option env a :
  is_option a = true ->
  (second_char a = "h"%char /\
   forall rest v, parse_args env (a :: rest) v = help v) \/
  (exists f, second_char a = flag_char f /\
   forall rest v, parse_args env (a :: rest) v =
     match rest with
     | [] => ([], Undefined)
     | x :: rest' =>
         n <- defined (atoi x) ;; parse_args env rest' (flag_set f v n)
     end) \/
  (known_letter (second_char a) = false /\
   forall rest v, parse_args env (a :: rest) v =
     match rest with
     | [] => ([], Undefined)
     | _ :: rest' => parse_args env rest' v
     end).
Proof.
  intros Ha. apply is_option_dash in Ha as [a' ->].
  destruct a' as [|c t].
  { right; right. split; [reflexivity|]. intros [|x rest] v; reflexivity. }
  cbn [second_char].
  destruct (Ascii.eqb_spec c "h"%char) as [->|Hh];
    [left; split; [reflexivity|intros; reflexivity]|].
  right.
  destruct (Ascii.eqb_spec c "r"%char) as [->|Hr];
    [left; exists Fr; split; [reflexivity|intros [|x rest] v; reflexivity]|].
  destruct (Ascii.eqb_spec c "c"%char) as [->|Hc];
    [left; exists Fc; split; [reflexivity|intros [|x rest] v; reflexivity]|].
  destruct (Ascii.eqb_spec c "d"%char) as [->|Hd];
    [left; exists Fd; split; [reflexivity|intros [|x rest] v; reflexivity]|].
  destruct (Ascii.eqb_spec c "l"%char) as [->|Hl];
    [left; exists Fl; split; [reflexivity|intros [|x rest] v; reflexivity]|].
  destruct (Ascii.eqb_spec c "p"%char) as [->|Hp];
    [left; exists Fp; split; [reflexivity|intros [|x rest] v; reflexivity]|].
  destruct (Ascii.eqb_spec c "q"%char) as [->|Hq];
    [left; exists Fq; split; [reflexivity|intros [|x rest] v; reflexivity]|].
  destruct (Ascii.eqb_spec c "i"%char) as [->|Hi];
    [left; exists Fi; split; [reflexivity|intros [|x rest] v; reflexivity]|].
  destruct (Ascii.eqb_spec c "b"%char) as [->|Hb];
    [left; exists Fb; split; [reflexivity|intros [|x rest] v; reflexivity]|].
  right.
  apply Ascii.eqb_neq in Hh, Hr, Hc, Hd, Hl, Hp, Hq, Hi, Hb.
  split.
  - unfold known_letter. cbn [existsb].
    rewrite Hh, Hr, Hc, Hd, Hl, Hp, Hq, Hi, Hb. reflexivity.
  - intros rest v. cbn [parse_args]. cbv zeta.
    rewrite Hh, Hr, Hc, Hd, Hl, Hp, Hq, Hi, Hb.
    destruct rest; reflexivity.
Qed.

(** The loop over [argv] on arguments that follow a run of options. *)
Lemma parse_args_prefix env (pre l : list string) (v v' : cmdline) :
  result (parse_args env pre v) = Ret (v', None) ->
  parse_args env (pre ++ l) v = parse_args env l v'.
Proof.
  revert v.
  enough (H : forall pre,
             (forall v, result (parse_args env pre v) = Ret (v', None) ->
                        parse_args env (pre ++ l) v = parse_args env l v') /\
             (forall a v,
                result (parse_args env (a :: pre) v) = Ret (v', None) ->
                parse_args env ((a :: pre) ++ l) v = parse_args env l v'))
    by apply (H pre).
  clear pre.
  assert (Hround : forall a rest,
            (forall x rest' v, rest = x :: rest' ->
               result (parse_args env rest' v) = Ret (v', None) ->
               parse_args env (rest' ++ l) v = parse_args env l v') ->
            forall v,
              result (parse_args env (a :: rest) v) = Ret (v', None) ->
              parse_args env ((a :: rest) ++ l) v = parse_args env l v').
  { intros a rest IH v Hres.
    destruct (is_option a) eqn:Ha.
    - destruct (parse_args_option env a Ha)
        as [[_ Hh]|[(f & _ & Hf)|[_ Hu]]].
      + rewrite Hh in Hres. destruct (help_run v) as (t & Ht & _).
        rewrite Ht in Hres. discriminate Hres.
      + rewrite Hf in Hres. rewrite <- app_comm_cons, Hf.
        destruct rest as [|x rest']; [discriminate Hres|].
        rewrite <- app_comm_cons.
        destruct (atoi x) as [n|]; [|discriminate Hres].
        cbn [defined] in *. rewrite bind_ret_l in *.
        eapply IH; [reflexivity|exact Hres].
      + rewrite Hu in Hres. rewrite <- app_comm_cons, Hu.
        destruct rest as [|x rest']; [discriminate Hres|].
        rewrite <- app_comm_cons. eapply IH; [reflexivity|exact Hres].
    - rewrite (parse_args_name env a rest v Ha) in Hres.
      cbn [result snd] in Hres.
      destruct (file_exists env a); discriminate Hres. }
  induction pre as [|b rest [IH1 IH2]].
  - split.
    + intros v [= ->]. reflexivity.
    + intros a v. apply Hround. intros x rest' v0 H. discriminate H.
  - split; [apply IH2|]. intros a v. apply Hround.
    intros x rest' v0 H. injection H as <- <-. apply IH1.
Qed.

(** The run depends on the arguments through the loop over [argv]
    only. *)
Lemma main_after_prefix k env p p' pre l l' v' :
  result (parse_args env pre cmdline_init) = Ret (v', None) ->
  parse_args env l v' = parse_args env l' v' ->
  main k env (p :: pre ++ l) = main k env (p' :: pre ++ l').
Proof.
  intros Hpre Heq. unfold main, startup. cbn [defined].
  rewrite !bind_ret_l.
  rewrite (parse_args_prefix env pre l _ _ Hpre).
  rewrite (parse_args_prefix env pre l' _ _ Hpre).
  rewrite Heq. reflexivity.
Qed.

(** X7: the first argument that does not start with a dash, met where
    an option is expected, ends the loop over [argv]: whatever follows it
    on the command line, options included, has no effect on the run. *)
Theorem after_file_name_ignored k env (p : string) (pre : list string)
        (name : string) (rest : list string) (v' : cmdline) :
  result (parse_args env pre cmdline_init) = Ret (v', None) ->
  is_option name = false ->
  main k env (p :: pre ++ name :: rest) = main k env (p :: pre ++ [name]).
Proof.
  intros Hpre Hname. apply (main_after_prefix k env p p pre _ _ v' Hpre).
  rewrite !parse_args_name by exact Hname. reflexivity.
Qed.

Lemma after_file_name_ignored_witness :
  result (parse_args (Sample.rank_env 0 0 0 0 Sample.zero Sample.zero)
                     ["-c"; "2"] cmdline_init)
  = Ret (set_npcol cmdline_init 2, None) /\
  is_option "g20.rua" = false /\
  main Sample.consts (Sample.rank_env 0 0 0 0 Sample.zero Sample.zero)
       ("pddrive3d" :: ["-c"; "2"] ++ "g20.rua" :: ["-r"; "2"]) =
  main Sample.consts (Sample.rank_env 0 0 0 0 Sample.zero Sample.zero)
       ("pddrive3d" :: ["-c"; "2"] ++ ["g20.rua"]).
Proof.
  assert (H : result (parse_args
                        (Sample.rank_env 0 0 0 0 Sample.zero Sample.zero)
                        ["-c"; "2"] cmdline_init)
              = Ret (set_npcol cmdline_init 2, None)) by reflexivity.
  split; [exact H|]. split; [reflexivity|].
  exact (after_file_name_ignored Sample.consts _ "pddrive3d" ["-c"; "2"]
           "g20.rua" ["-r"; "2"] _ H eq_refl).
Defined.

(** X8: an argument that starts with a dash and whose next character
    is none of the letters of the [switch] is skipped together with the
    argument that follows it, which is not read: the run is the run
    without the two. *)
Theorem unknown_option_skips k env (p : string) (pre : list string)
        (a x : string) (rest : list string) (v' : cmdline) :
  result (parse_args env pre cmdline_init) = Ret (v', None) ->
  is_option a = true -> known_letter (second_char a) = false ->
  main k env (p :: pre ++ a :: x :: rest) = main k env (p :: pre ++ rest).
Proof.
  intros Hpre Ha Hc. apply (main_after_prefix k env p p pre _ _ v' Hpre).
  destruct (parse_args_option env a Ha) as [[Hh _]|[(f & Hf & _)|[_ Hu]]].
  - rewrite Hh in Hc. discriminate Hc.
  - rewrite Hf in Hc. destruct f; discriminate Hc.
  - apply Hu.
Qed.

Lemma unknown_option_skips_witness :
  result (parse_args (Sample.rank_env 0 0 0 0 Sample.zero Sample.zero)
                     ["-c"; "2"] cmdline_init)
  = Ret (set_npcol cmdline_init 2, None) /\
  is_option "-x" = true /\ known_letter (second_char "-x") = false /\
  main Sample.consts (Sample.rank_env 0 0 0 0 Sample.zero Sample.zero)
       ("pddrive3d" :: ["-c"; "2"] ++ "-x" :: "missing.rua" :: ["g20.rua"]) =
  main Sample.consts (Sample.rank_env 0 0 0 0 Sample.zero Sample.zero)
       ("pddrive3d" :: ["-c"; "2"] ++ ["g20.rua"]).
Proof.
  assert (H : result (parse_args
                        (Sample.rank_env 0 0 0 0 Sample.zero Sample.zero)
                        ["-c"; "2"] cmdline_init)
              = Ret (set_npcol cmdline_init 2, None)) by reflexivity.
  split; [exact H|]. split; [reflexivity|]. split; [reflexivity|].
  exact (unknown_option_skips Sample.consts _ "pddrive3d" ["-c"; "2"]
           "-x" "missing.rua" ["g20.rua"] _ H eq_refl eq_refl).
Defined.

Lemma flag_set_comm (f g : flag) v n m :
  f <> g -> flag_set f (flag_set g v m) n = flag_set g (flag_set f v n) m.
Proof. intros H. destruct f, g; try contradiction; reflexivity. Qed.

Lemma flag_set_twice (f : flag) v n m :
  flag_set f (flag_set f v n) m = flag_set f v m.
Proof. destruct f; reflexivity. Qed.

(** X9: two options that set different variables can be exchanged,
    each with its value, without changing the run; this holds whatever
    the values are, also when [atoi] is undefined on one of them. *)
Theorem options_commute k env (p : string) (pre : list string)
        (f g : flag) (t1 t2 x y : string) (rest : list string)
        (v' : cmdline) :
  result (parse_args env pre cmdline_init) = Ret (v', None) ->
  f <> g ->
  main k env (p :: pre ++ dash (flag_char f) t1 :: x ::
                          dash (flag_char g) t2 :: y :: rest) =
  main k env (p :: pre ++ dash (flag_char g) t2 :: y ::
                          dash (flag_char f) t1 :: x :: rest).
Proof.
  intros Hpre Hfg. apply (main_after_prefix k env p p pre _ _ v' Hpre).
  rewrite !parse_args_flag.
  destruct (atoi x) as [n|] eqn:Hx, (atoi y) as [m|] eqn:Hy; cbn [defined];
    rewrite ?bind_ret_l, ?parse_args_flag, ?Hx, ?Hy; cbn [defined];
    rewrite ?bind_ret_l; try reflexivity.
  rewrite (flag_set_comm g f) by congruence. reflexivity.
Qed.

Lemma options_commute_witness :
  result (parse_args (Sample.rank_env 0 0 0 0 Sample.zero Sample.zero)
                     [] cmdline_init) = Ret (cmdline_init, None) /\
  Fr <> Fd /\
  main Sample.consts (Sample.rank_env 0 0 0 0 Sample.zero Sample.zero)
       ("pddrive3d" :: [] ++ dash (flag_char Fr) "" :: "2" ::
                             dash (flag_char Fd) "" :: "2" :: ["g20.rua"]) =
  main Sample.consts (Sample.rank_env 0 0 0 0 Sample.zero Sample.zero)
       ("pddrive3d" :: [] ++ dash (flag_char Fd) "" :: "2" ::
                             dash (flag_char Fr) "" :: "2" :: ["g20.rua"]).
Proof.
  assert (H : result (parse_args
                        (Sample.rank_env 0 0 0 0 Sample.zero Sample.zero)
                        [] cmdline_init) = Ret (cmdline_init, None))
    by reflexivity.
  assert (Hfg : Fr <> Fd) by discriminate.
  split; [exact H|]. split; [exact Hfg|].
  exact (options_commute Sample.consts _ "pddrive3d" [] Fr Fd "" "" "2" "2"
           ["g20.rua"] _ H Hfg).
Defined.

(** X10: of two consecutive occurrences of an option the second one
    decides, provided the value of the first is one [atoi] is defined
    on; only the letter after the dash tells which option it is, the
    characters after it are not looked at. *)
Theorem last_option_wins k env (p : string) (pre : list string)
        (f : flag) (t1 t2 x y : string) (n : Z) (rest : list string)
        (v' : cmdline) :
  result (parse_args env pre cmdline_init) = Ret (v', None) ->
  atoi x = Some n ->
  main k env (p :: pre ++ dash (flag_char f) t1 :: x ::
                          dash (flag_char f) t2 :: y :: rest) =
  main k env (p :: pre ++ dash (flag_char f) "" :: y :: rest).
Proof.
  intros Hpre Hx. apply (main_after_prefix k env p p pre _ _ v' Hpre).
  rewrite !parse_args_flag, Hx. cbn [defined].
  rewrite bind_ret_l, parse_args_flag.
  destruct (atoi y) as [m|] eqn:Hy; [|reflexivity]. cbn [defined].
  rewrite !bind_ret_l, flag_set_twice. reflexivity.
Qed.

Lemma last_option_wins_witness :
  result (parse_args (Sample.rank_env 0 0 0 0 Sample.zero Sample.zero)
                     [] cmdline_init) = Ret (cmdline_init, None) /\
  atoi "4" = Some 4 /\
  main Sample.consts (Sample.rank_env 0 0 0 0 Sample.zero Sample.zero)
       ("pddrive3d" :: [] ++ dash (flag_char Fr) "ows" :: "4" ::
                             dash (flag_char Fr) "" :: "2" :: ["g20.rua"]) =
  main Sample.consts (Sample.rank_env 0 0 0 0 Sample.zero Sample.zero)
       ("pddrive3d" :: [] ++ dash (flag_char Fr) "" :: "2" :: ["g20.rua"]).
Proof.
  assert (H : result (parse_args
                        (Sample.rank_env 0 0 0 0 Sample.zero Sample.zero)
                        [] cmdline_init) = Ret (cmdline_init, None))
    by reflexivity.
  assert (Hx : atoi "4" = Some 4) by reflexivity.
  split; [exact H|]. split; [exact Hx|].
  exact (last_option_wins Sample.consts _ "pddrive3d" [] Fr "ows" "" "4" "2"
           4 ["g20.rua"] _ H Hx).
Defined.

Lemma parse_args_ends_more env a args r :
  parse_args_ends env args r -> parse_args_ends env (a :: args) r.
Proof.
  unfold parse_args_ends.
  destruct (result r) as [[v [name|]]|c|msg| |]; try tauto.
  - intros (H1 & H2 & H3 & H4). repeat split; auto. right. exact H4.
  - intros (H1 & name & H2 & H3 & H4 & H5). split; [exact H1|].
    exists name. repeat split; auto. right. exact H5.
Qed.

Lemma parse_args_ends_all env (args : list string) (v : cmdline) :
  parse_args_ends env args (parse_args env args v).
Proof.
  revert v.
  enough (H : forall args,
             (forall v, parse_args_ends env args (parse_args env args v)) /\
             (forall a v, parse_args_ends env (a :: args)
                            (parse_args env (a :: args) v)))
    by apply (H args).
  clear args.
  assert (Hround : forall a rest,
            (forall x rest' v, rest = x :: rest' ->
               parse_args_ends env rest' (parse_args env rest' v)) ->
            forall v, parse_args_ends env (a :: rest)
                        (parse_args env (a :: rest) v)).
  { intros a rest IH v.
    destruct (is_option a) eqn:Ha.
    - destruct (parse_args_option env a Ha)
        as [[_ Hh]|[(f & _ & Hf)|[_ Hu]]].
      + rewrite Hh. unfold parse_args_ends.
        assert (Hr : result (help v) = Exited 0) by reflexivity.
        rewrite Hr. split; [reflexivity|]. exists v. reflexivity.
      + rewrite Hf. destruct rest as [|x rest']; [reflexivity|].
        destruct (atoi x) as [n|]; [|reflexivity].
        cbn [defined]. rewrite bind_ret_l.
        do 2 apply parse_args_ends_more. eapply IH. reflexivity.
      + rewrite Hu. destruct rest as [|x rest']; [reflexivity|].
        do 2 apply parse_args_ends_more. eapply IH. reflexivity.
    - rewrite (parse_args_name env a rest v Ha).
      unfold parse_args_ends. cbn [result trace fst snd].
      destruct (file_exists env a) eqn:He.
      + repeat split; auto. left.
      + split; [reflexivity|]. exists a. repeat split; auto. left. }
  induction args as [|b rest [IH1 IH2]].
  - split.
    + intros v. reflexivity.
    + intros a v. apply Hround. intros x rest' v0 H. discriminate H.
  - split; [apply IH2|]. intros a v. apply Hround.
    intros x rest' v0 H. injection H as <- <-. apply IH1.
Qed.

(** X6: the loop over [argv] composes.  When it runs through the
    arguments [pre] without meeting a file name and leaves the variables
    at [v'], it has made no call, and its run on [pre] followed by more
    arguments is its run on those arguments from [v']. *)
Theorem parse_args_app env (pre : list string) (v v' : cmdline) :
  result (parse_args env pre v) = Ret (v', None) ->
  parse_args env pre v = ([], Ret (v', None)) /\
  forall l, parse_args env (pre ++ l) v = parse_args env l v'.
Proof.
  intros H. split.
  - pose proof (parse_args_ends_all env pre v) as He.
    unfold parse_args_ends in He. rewrite H in He.
    destruct (parse_args env pre v) as [t o]. cbn [trace result fst snd] in *.
    subst. reflexivity.
  - intros l. apply parse_args_prefix, H.
Qed.

Lemma parse_args_app_witness :
  result (parse_args (Sample.rank_env 0 0 0 0 Sample.zero Sample.zero)
                     ["-r"; "2"; "-c"; "3"] cmdline_init)
  = Ret (set_npcol (set_nprow cmdline_init 2) 3, None) /\
  parse_args (Sample.rank_env 0 0 0 0 Sample.zero Sample.zero)
             (["-r"; "2"; "-c"; "3"] ++ ["-d"; "2"; "g20.rua"]) cmdline_init =
  parse_args (Sample.rank_env 0 0 0 0 Sample.zero Sample.zero)
             ["-d"; "2"; "g20.rua"] (set_npcol (set_nprow cmdline_init 2) 3).
Proof.
  assert (H : result (parse_args
                        (Sample.rank_env 0 0 0 0 Sample.zero Sample.zero)
                        ["-r"; "2"; "-c"; "3"] cmdline_init)
              = Ret (set_npcol (set_nprow cmdline_init 2) 3, None))
    by reflexivity.
  split; [exact H|].
  exact (proj2 (parse_args_app _ ["-r"; "2"; "-c"; "3"] cmdline_init _ H)
               ["-d"; "2"; "g20.rua"]).
Defined.

(** Where [-h] is met, and with what values. *)
Lemma parse_args_help env (args : list string) (v : cmdline) (c : Z) :
  result (parse_args env args v) = Exited c ->
  exists pre a rest v',
    args = pre ++ a :: rest /\
    is_option a = true /\ second_char a = "h"%char /\
    parse_args env pre v = ([], Ret (v', None)) /\
    parse_args env args v = help v'.
Proof.
  revert v.
  enough (H : forall args,
             (forall v, result (parse_args env args v) = Exited c ->
                exists pre a rest v',
                  args = pre ++ a :: rest /\
                  is_option a = true /\ second_char a = "h"%char /\
                  parse_args env pre v = ([], Ret (v', None)) /\
                  parse_args env args v = help v') /\
             (forall b v, result (parse_args env (b :: args) v) = Exited c ->
                exists pre a rest v',
                  b :: args = pre ++ a :: rest /\
                  is_option a = true /\ second_char a = "h"%char /\
                  parse_args env pre v = ([], Ret (v', None)) /\
                  parse_args env (b :: args) v = help v'))
    by apply (H args).
  clear args.
  assert (Hround : forall b rest,
            (forall x rest' v, rest = x :: rest' ->
               result (parse_args env rest' v) = Exited c ->
               exists pre a rest'' v',
                 rest' = pre ++ a :: rest'' /\
                 is_option a = true /\ second_char a = "h"%char /\
                 parse_args env pre v = ([], Ret (v', None)) /\
                 parse_args env rest' v = help v') ->
            forall v, result (parse_args env (b :: rest) v) = Exited c ->
              exists pre a rest'' v',
                b :: rest = pre ++ a :: rest'' /\
                is_option a = true /\ second_char a = "h"%char /\
                parse_args env pre v = ([], Ret (v', None)) /\
                parse_args env (b :: rest) v = help v').
  { intros b rest IH v Hres.
    destruct (is_option b) eqn:Hb.
    - destruct (parse_args_option env b Hb)
        as [[Hc Hh]|[(f & Hc & Hf)|[Hc Hu]]].
      + exists [], b, rest, v. repeat split; auto.
      + rewrite Hf in Hres. destruct rest as [|x rest'];
          [discriminate Hres|].
        destruct (atoi x) as [n|] eqn:Hx; [|discriminate Hres].
        cbn [defined] in Hres. rewrite bind_ret_l in Hres.
        destruct (IH x rest' _ eq_refl Hres)
          as (pre & a & rest'' & v' & -> & Ha & Hah & Hpre & Hall).
        exists (b :: x :: pre), a, rest'', v'. repeat split; auto.
        * rewrite Hf, Hx. cbn [defined]. rewrite bind_ret_l. exact Hpre.
        * rewrite Hf, Hx. cbn [defined]. rewrite bind_ret_l. exact Hall.
      + rewrite Hu in Hres. destruct rest as [|x rest'];
          [discriminate Hres|].
        destruct (IH x rest' _ eq_refl Hres)
          as (pre & a & rest'' & v' & -> & Ha & Hah & Hpre & Hall).
        exists (b :: x :: pre), a, rest'', v'. repeat split; auto.
        * rewrite Hu. exact Hpre.
        * rewrite Hu. exact Hall.
    - rewrite (parse_args_name env b rest v Hb) in Hres.
      cbn [result snd] in Hres.
      destruct (file_exists env b); discriminate Hres. }
  induction args as [|b rest [IH1 IH2]].
  - split.
    + intros v H. discriminate H.
    + intros b v. apply Hround. intros x rest' v0 H. discriminate H.
  - split; [apply IH2|]. intros a v. apply Hround.
    intros x rest' v0 H. injection H as <- <-. apply IH1.
Qed.

(** X11: the ways the loop over [argv] ends.  It opens at most one
    file, an argument that does not start with a dash, and ends there:
    with this name if the file can be opened, with
    [ABORT ("File does not exist")] if not.  It ends without a file
    name, or in undefined behaviour, having made no call at all.  At
    [-h] it prints the four lines of the help with the values the
    options before the [-h] have given the variables, and exits with
    code 0.  No assertion fails. *)
Theorem parse_args_outcomes env (args : list string) (v : cmdline) :
  let r := parse_args env args v in
  match result r with
  | Ret (_, Some name) =>
      trace r = [fopen name "r"] /\ file_exists env name = true /\
      is_option name = false /\ name ∈ args
  | Ret (_, None) => trace r = []
  | Undefined => trace r = []
  | Aborted msg =>
      msg = "File does not exist" /\
      exists name, trace r = [fopen name "r"] /\
                   file_exists env name = false /\
                   is_option name = false /\ name ∈ args
  | Exited c =>
      c = 0 /\
      exists pre a rest v',
        args = pre ++ a :: rest /\
        is_option a = true /\ second_char a = "h"%char /\
        parse_args env pre v = ([], Ret (v', None)) /\
        trace r =
        [printf "Options:\n" [];
         printf "\t-r <int>: process rows    (default %d)\n"
                [PInt (nprow v')];
         printf "\t-c <int>: process columns (default %d)\n"
                [PInt (npcol v')];
         printf "\t-d <int>: process Z-dimension (default %d)\n"
                [PInt (npdep v')]]
  | AssertFailed => False
  end.
Proof.
  cbv zeta. pose proof (parse_args_ends_all env args v) as He.
  unfold parse_args_ends in He.
  destruct (result (parse_args env args v)) as [[v1 [name|]]|c|msg| |] eqn:Hr;
    try exact He.
  destruct He as [Hc _]. split; [exact Hc|].
  destruct (parse_args_help env args v c Hr)
    as (pre & a & rest & v' & Hargs & Ha & Hh & Hpre & Hall).
  exists pre, a, rest, v'. repeat split; auto.
  rewrite Hall. reflexivity.
Qed.

End CmdlineFacts.

Section BindFacts.
Context {E : Type}.

(** Properties of all events of a run, the continuation being taken at
    the value the first part ends with. *)
Lemma all_bind_ret (P : E -> Prop) {A B} (m : prog E A) (f : A -> prog E B) :
  Forall P (trace m) ->
  (forall a, result m = Ret a -> Forall P (trace (f a))) ->
  Forall P (trace (bind m f)).
Proof.
  intros Hm Hf. rewrite trace_bind.
  destruct (result m) as [a| | | |] eqn:Hr; try exact Hm.
  apply Forall_app. split; [exact Hm|apply Hf; reflexivity].
Qed.

Lemma for_from_st_same {S} n lo (body : Z -> S -> prog E S) (s : S) :
  (forall i, lo <= i < lo + Z.of_nat n -> body i s = ret s) ->
  for_from_st n lo body s = ret s.
Proof.
  intros Hb.
  rewrite (for_from_st_steps n lo body (fun _ => s)); [reflexivity|exact Hb].
Qed.
End BindFacts.

Module RunFacts.
Import Driver DriverFacts CmdlineFacts.

Local Ltac all_events tac :=
  repeat first
    [ apply all_ret | apply all_stop | apply all_defined | apply all_store
    | apply all_emit; cbv beta; tac
    | apply all_for_from_st; intros
    | apply all_bind; [|intros]
    | match goal with
      | |- Forall _ (trace (if ?b then _ else _)) => destruct b eqn:?
      | |- Forall _ (trace (match ?x with _ => _ end)) => destruct x eqn:?
      end ].

(** The three parts of a run: the start-up, the work on the grid for a
    rank that belongs to it, label [out]. *)
Lemma main_cases k env argv :
  (exists v file,
     result (startup env argv) = Ret (v, file) /\
     (grid_iam env <> -1 \/ batch v = 0) /\
     result (if grid_iam env =? -1 then ret tt
             else solve_system k env v file) = Ret tt /\
     main k env argv =
     (trace (startup env argv) ++
      trace (if grid_iam env =? -1 then ret tt
             else solve_system k env v file) ++
      trace (out env v), Ret tt)) \/
  (result (main k env argv) <> Ret tt /\
   trace (main k env argv) = trace (startup env argv) /\
   (forall p, result (startup env argv) <> Ret p)) \/
  (result (main k env argv) <> Ret tt /\
   exists v file,
     result (startup env argv) = Ret (v, file) /\
     grid_iam env <> -1 /\
     result (solve_system k env v file) <> Ret tt /\
     trace (main k env argv) =
     trace (startup env argv) ++ trace (solve_system k env v file)) \/
  (exists v file,
     result (startup env argv) = Ret (v, file) /\
     grid_iam env = -1 /\ batch v <> 0 /\
     main k env argv = (trace (startup env argv), Undefined)).
Proof.
  unfold main.
  destruct (startup env argv) as [ts [[v file]|c|msg| |]] eqn:Es;
    cbn [result trace fst snd];
    try (right; left; cbn; split; [discriminate|];
         split; [reflexivity|intros p; discriminate]).
  destruct (Z.eqb_spec (grid_iam env) (-1)) as [Hi|Hi].
  - cbn [bind fst snd]. rewrite bind_ret_l.
    destruct (Z.eq_dec (batch v) 0) as [Hb|Hb].
    + left. exists v, file. split; [reflexivity|].
      split; [right; exact Hb|]. split; [reflexivity|].
      pose proof (out_run env v (or_intror Hb)) as Ho.
      destruct (out env v) as [to oo]. cbn [result snd] in Ho. subst oo.
      reflexivity.
    + right; right; right. exists v, file. split; [reflexivity|].
      split; [exact Hi|]. split; [exact Hb|].
      rewrite (out_undefined env v Hi Hb). rewrite app_nil_r. reflexivity.
  - cbn [bind fst snd].
    destruct (solve_system k env v file) as [tm [[]|c|msg| |]] eqn:Em.
    + left. exists v, file. rewrite Em.
      split; [reflexivity|]. split; [left; exact Hi|].
      split; [reflexivity|].
      cbn [bind trace fst snd].
      pose proof (out_run env v (or_introl Hi)) as Ho.
      destruct (out env v) as [to oo]. cbn [result snd] in Ho. subst oo.
      cbn [trace fst]. rewrite app_assoc. reflexivity.
    + right; right; left. cbn. split; [discriminate|]. exists v, file.
      rewrite Em. repeat split; [exact Hi|discriminate].
    + right; right; left. cbn. split; [discriminate|]. exists v, file.
      rewrite Em. repeat split; [exact Hi|discriminate].
    + right; right; left. cbn. split; [discriminate|]. exists v, file.
      rewrite Em. repeat split; [exact Hi|discriminate].
    + right; right; left. cbn. split; [discriminate|]. exists v, file.
      rewrite Em. repeat split; [exact Hi|discriminate].
Qed.

Lemma solve_system_all (P : event -> Prop) k env v file :
  (forall e, later_event env e = true -> e <> superlu_gridexit3d ->
             e <> PStatFree -> e <> MPI_Finalize ->
             (forall o c s, e <> MPI_Allreduce o c s) -> P e) ->
  Forall P (trace (solve_system k env v file)).
Proof.
  intros HP.
  unfold solve_system, prepare, banner, after_solver, deallocate.
  all_events ltac:(apply HP;
                   [ first [reflexivity | simpl; assumption
                           | simpl;
                             match goal with H : _ = _ |- _ => rewrite H end;
                             reflexivity]
                   | discriminate .. ]).
Qed.

Lemma parse_args_events (P : event -> Prop) env args v :
  (forall name, P (fopen name "r")) ->
  (forall v', Forall P (trace (help v'))) ->
  Forall P (trace (parse_args env args v)).
Proof.
  intros Hf Hh. pose proof (parse_args_ends_all env args v) as He.
  unfold parse_args_ends in He.
  destruct (result (parse_args env args v)) as [[v' [name|]]|c|msg| |].
  - destruct He as (-> & _). repeat constructor. apply Hf.
  - rewrite He. constructor.
  - destruct He as (_ & v' & ->). apply Hh.
  - destruct He as (_ & name & -> & _). repeat constructor. apply Hf.
  - destruct He.
  - rewrite He. constructor.
Qed.

Lemma init_mpi_run env : result (init_mpi env) = Ret tt.
Proof.
  unfold init_mpi.
  destruct (_ <? _), (world_rank env =? 0); reflexivity.
Qed.

Lemma thread_report_run env : result (thread_report env) = Ret tt.
Proof.
  unfold thread_report.
  destruct (grid_iam env =? 0), (omp_mpi_level env); reflexivity.
Qed.

Lemma startup_cons env p args :
  startup env (p :: args) =
  (init_mpi env ;;
   parsed <- parse_args env args cmdline_init ;;
   init_grid env (fst parsed) ;;
   thread_report env ;;
   ret parsed).
Proof. unfold startup. cbn [defined]. rewrite bind_ret_l. reflexivity. Qed.

Lemma startup_nil env : startup env [] = (trace (init_mpi env), Undefined).
Proof.
  unfold startup. rewrite (bind_run _ _ tt (init_mpi_run env)).
  cbn [defined stop bind trace result fst snd]. rewrite app_nil_r.
  reflexivity.
Qed.

(** The start-up ends the way the loop over [argv] and the
    construction of the grid end. *)
Lemma startup_result env p args :
  result (startup env (p :: args)) =
  match result (parse_args env args cmdline_init) with
  | Ret parsed =>
      match result (init_grid env (fst parsed)) with
      | Ret _ => Ret parsed
      | Exited c => Exited c
      | Aborted msg => Aborted msg
      | AssertFailed => AssertFailed
      | Undefined => Undefined
      end
  | Exited c => Exited c
  | Aborted msg => Aborted msg
  | AssertFailed => AssertFailed
  | Undefined => Undefined
  end.
Proof.
  rewrite startup_cons, result_bind, init_mpi_run, result_bind.
  destruct (result (parse_args env args cmdline_init)) as [parsed| | | |];
    try reflexivity.
  rewrite result_bind.
  destruct (result (init_grid env (fst parsed))) as [[]| | | |];
    try reflexivity.
  rewrite result_bind, thread_report_run. reflexivity.
Qed.

(** X12: the end of MPI closes the runs that reach the end of [main]
    and no other: in such a run [MPI_Finalize] is the last call, it is
    made once, and the grid has been released before it; a run that ends
    in [exit], in [ABORT] or in undefined behaviour neither releases the
    grid nor calls [MPI_Finalize]. *)
Theorem finalize_ends_the_run k env argv :
  (result (main k env argv) = Ret tt ->
   exists t, trace (main k env argv) = t ++ [MPI_Finalize] /\
             (MPI_Finalize ∉ t) /\ (superlu_gridexit3d ∈ t)) /\
  (result (main k env argv) <> Ret tt ->
   (MPI_Finalize ∉ trace (main k env argv)) /\
   (superlu_gridexit3d ∉ trace (main k env argv))).
Proof.
  set (Q := fun e : event => e <> MPI_Finalize /\ e <> superlu_gridexit3d).
  assert (Hs : Forall Q (trace (startup env argv))).
  { apply startup_events. intros e He. split; intros ->; discriminate He. }
  assert (Hm : forall v file, Forall Q (trace (solve_system k env v file))).
  { intros v file. apply solve_system_all. intros e _ H1 _ H2 _.
    split; assumption. }
  assert (Hb : forall v, Forall Q (trace (batch_report env v))).
  { intros v. eapply Forall_impl; [apply batch_report_events|].
    intros e He. split; intros ->; discriminate He. }
  assert (HQ : forall l, Forall Q l ->
                         (MPI_Finalize ∉ l) /\ (superlu_gridexit3d ∉ l)).
  { intros l Hl. rewrite Forall_forall in Hl.
    split; intros Hin; apply Hl in Hin; destruct Hin; congruence. }
  destruct (main_cases k env argv)
    as [(v & file & Hst & Hok & Hmid & Hmain)
       |[(Hne & Ht & _)
        |[(Hne & v & file & Hst & Hi & Hres & Ht)
         |(v & file & Hst & Hi & Hbatch & Hmain)]]].
  - split; [intros _|rewrite Hmain; intros H; contradiction H; reflexivity].
    rewrite Hmain, (out_trace _ _ Hok). cbn [trace fst].
    exists (trace (startup env argv) ++
            trace (if grid_iam env =? -1 then ret tt
                   else solve_system k env v file) ++
            trace (batch_report env v) ++
            superlu_gridexit3d ::
            (if grid_iam env =? -1 then [] else [PStatFree])).
    split.
    { repeat first [rewrite <- app_assoc | rewrite <- app_comm_cons].
      reflexivity. }
    split.
    + rewrite !elem_of_app, elem_of_cons.
      intros [H|[H|[H|[H|H]]]].
      * apply (proj1 (HQ _ Hs)), H.
      * destruct (grid_iam env =? -1);
          [inversion H|apply (proj1 (HQ _ (Hm v file))), H].
      * apply (proj1 (HQ _ (Hb v))), H.
      * discriminate H.
      * destruct (grid_iam env =? -1); [inversion H|].
        apply elem_of_cons in H as [H|H]; [discriminate H|inversion H].
    + rewrite !elem_of_app, elem_of_cons. auto.
  - split; [intros H; contradiction|intros _].
    rewrite Ht. apply HQ, Hs.
  - split; [intros H; contradiction|intros _].
    rewrite Ht. apply HQ, Forall_app. split; [exact Hs|apply Hm].
  - rewrite Hmain. split; [discriminate|intros _]. apply HQ, Hs.
Qed.

Lemma finalize_ends_the_run_witness :
  result (main Sample.consts
               (Sample.rank_env 0 0 0 0 Sample.zero Sample.zero)
               Sample.argv_plain) = Ret tt /\
  exists t,
    trace (main Sample.consts
                (Sample.rank_env 0 0 0 0 Sample.zero Sample.zero)
                Sample.argv_plain) = t ++ [MPI_Finalize] /\
    (MPI_Finalize ∉ t) /\ (superlu_gridexit3d ∈ t).
Proof.
  assert (H : result (main Sample.consts
                        (Sample.rank_env 0 0 0 0 Sample.zero Sample.zero)
                        Sample.argv_plain) = Ret tt)
    by (vm_compute; reflexivity).
  split; [exact H|].
  exact (proj1 (finalize_ends_the_run Sample.consts _ Sample.argv_plain) H).
Defined.

(** X13: the calls of batch mode -- the allocation and release of
    [usermap], [MPI_Comm_split], [superlu_gridmap3d], the reductions and
    the prints of the report -- are made only when the command line
    leaves [batch] different from 0. *)
Theorem batch_calls_need_batch_mode k env (p : string) (args : list string) :
  (forall v file,
     result (parse_args env args cmdline_init) = Ret (v, file) ->
     batch v = 0) ->
  Forall (fun e => batch_event e = false) (trace (main k env (p :: args))).
Proof.
  intros Hb.
  assert (Hparsed : forall parsed,
            result (startup env (p :: args)) = Ret parsed ->
            batch (fst parsed) = 0).
  { intros parsed Hs. rewrite startup_result in Hs.
    destruct (result (parse_args env args cmdline_init))
      as [[v file]| | | |] eqn:Hp; try discriminate Hs.
    destruct (result (init_grid env (fst (v, file)))) as [[]| | | |];
      try discriminate Hs.
    injection Hs as <-. apply (Hb v file). reflexivity. }
  unfold main. apply all_bind_ret.
  - rewrite startup_cons.
    apply all_bind; [unfold init_mpi; all_events ltac:(reflexivity)|intros _].
    apply all_bind_ret.
    { apply parse_args_events; [reflexivity|]. intros v'.
      unfold help. all_events ltac:(reflexivity). }
    intros [v file] Hp. cbn [fst].
    apply all_bind.
    { unfold init_grid. rewrite (Hb v file Hp). cbn [Z.eqb negb].
      all_events ltac:(reflexivity). }
    intros _. apply all_bind; [|intros; apply all_ret].
    unfold thread_report. all_events ltac:(reflexivity).
  - intros parsed Hs. cbv zeta. apply all_bind.
    + destruct (grid_iam env =? -1); [apply all_ret|].
      unfold solve_system, prepare, banner, after_solver, deallocate.
      all_events ltac:(reflexivity).
    + intros _. unfold out, batch_report, batch_send, stat_utime.
      rewrite (Hparsed parsed Hs). cbn [Z.eqb negb].
      all_events ltac:(reflexivity).
Qed.

Lemma batch_calls_need_batch_mode_witness :
  (forall v file,
     result (parse_args (Sample.rank_env 0 0 0 0 Sample.zero Sample.zero)
                        ["-r"; "2"; "g20.rua"] cmdline_init) = Ret (v, file) ->
     batch v = 0) /\
  Forall (fun e => batch_event e = false)
         (trace (main Sample.consts
                      (Sample.rank_env 0 0 0 0 Sample.zero Sample.zero)
                      ("pddrive3d" :: ["-r"; "2"; "g20.rua"]))).
Proof.
  assert (H : forall v file,
            result (parse_args
                      (Sample.rank_env 0 0 0 0 Sample.zero Sample.zero)
                      ["-r"; "2"; "g20.rua"] cmdline_init) = Ret (v, file) ->
            batch v = 0).
  { intros v file Hr. injection Hr as <- _. reflexivity. }
  split; [exact H|].
  exact (batch_calls_need_batch_mode Sample.consts _ "pddrive3d"
           ["-r"; "2"; "g20.rua"] H).
Defined.

Lemma main_result k env argv v file :
  result (startup env argv) = Ret (v, file) ->
  result (main k env argv) =
  if grid_iam env =? -1 then result (out env v)
  else match result (solve_system k env v file) with
       | Ret _ => Ret tt
       | o => o
       end.
Proof.
  intros Hs. unfold main. rewrite result_bind, Hs. cbn [fst snd].
  rewrite result_bind.
  destruct (Z.eqb_spec (grid_iam env) (-1)) as [Hi|Hi]; [reflexivity|].
  destruct (result (solve_system k env v file)) as [[]| | | |];
    try reflexivity.
  apply out_run. left. exact Hi.
Qed.

(** X14: in batch mode a grid with a dimension equal to 0 makes the
    run undefined: the product of the dimensions either leaves the range
    of [int] or is 0, and the color of the rank is its rank divided by
    this product. *)
Theorem batch_zero_dimension k env (p : string) (args : list string)
        (v : cmdline) (file : option string) :
  result (parse_args env args cmdline_init) = Ret (v, file) ->
  batch v <> 0 ->
  nprow v = 0 \/ npcol v = 0 \/ npdep v = 0 ->
  result (main k env (p :: args)) = Undefined.
Proof.
  intros Hp Hb Hz.
  assert (Hg : result (init_grid env v) = Undefined).
  { unfold init_grid. apply Z.eqb_neq in Hb. rewrite Hb. cbn [negb].
    rewrite bind_emit. cbn [result snd]. rewrite result_bind.
    unfold grid_size, int_mul.
    destruct (in_int (nprow v * npcol v)); [|reflexivity].
    cbn [mbind option_bind].
    destruct (in_int (nprow v * npcol v * npdep v)); [|reflexivity].
    cbn [defined result ret snd]. rewrite bind_emit. cbn [result snd].
    rewrite result_bind. unfold int_div.
    replace (nprow v * npcol v * npdep v) with 0 by nia. reflexivity. }
  unfold main. rewrite result_bind, startup_result, Hp. cbn [fst].
  rewrite Hg. reflexivity.
Qed.

Lemma batch_zero_dimension_witness :
  result (parse_args (Sample.rank_env 0 0 0 0 Sample.zero Sample.zero)
                     ["-b"; "1"; "-d"; "0"; "g20.rua"] cmdline_init)
  = Ret (set_npdep (set_batch cmdline_init 1) 0, Some "g20.rua") /\
  batch (set_npdep (set_batch cmdline_init 1) 0) <> 0 /\
  result (main Sample.consts
               (Sample.rank_env 0 0 0 0 Sample.zero Sample.zero)
               ("pddrive3d" :: ["-b"; "1"; "-d"; "0"; "g20.rua"]))
  = Undefined.
Proof.
  assert (H : result (parse_args
                        (Sample.rank_env 0 0 0 0 Sample.zero Sample.zero)
                        ["-b"; "1"; "-d"; "0"; "g20.rua"] cmdline_init)
              = Ret (set_npdep (set_batch cmdline_init 1) 0, Some "g20.rua"))
    by reflexivity.
  assert (Hb : batch (set_npdep (set_batch cmdline_init 1) 0) <> 0)
    by (simpl; lia).
  split; [exact H|]. split; [exact Hb|].
  apply (batch_zero_dimension Sample.consts _ "pddrive3d" _ _ _ H Hb).
  right; right. reflexivity.
Defined.

(** X15: a rank that is neither rank 0 of MPI_COMM_WORLD nor rank 0
    of its grid calls neither [printf] nor [fflush] in a run without
    [-h]. *)
Theorem quiet_ranks k env argv :
  grid_iam env <> 0 -> world_rank env <> 0 ->
  (forall c, result (main k env argv) <> Exited c) ->
  Forall (fun e => is_print e = false) (trace (main k env argv)).
Proof.
  intros Hi Hw Hx. apply Z.eqb_neq in Hi, Hw.
  assert (Hinit : Forall (fun e => is_print e = false)
                         (trace (init_mpi env))).
  { unfold init_mpi. rewrite Hw. all_events ltac:(reflexivity). }
  unfold main. apply all_bind_ret.
  - destruct argv as [|p args]; [rewrite startup_nil; exact Hinit|].
    rewrite startup_cons.
    apply all_bind; [exact Hinit|intros _].
    apply all_bind.
    { pose proof (parse_args_ends_all env args cmdline_init) as He.
      unfold parse_args_ends in He.
      destruct (result (parse_args env args cmdline_init))
        as [[v' [name|]]|c|msg| |] eqn:Hp.
      - destruct He as (-> & _). repeat constructor.
      - rewrite He. constructor.
      - exfalso. apply (Hx c).
        unfold main. rewrite result_bind, startup_result, Hp. reflexivity.
      - destruct He as (_ & name & -> & _). repeat constructor.
      - destruct He.
      - rewrite He. constructor. }
    intros parsed. apply all_bind.
    { unfold init_grid, fill_usermap, for_range_st.
      all_events ltac:(reflexivity). }
    intros _. apply all_bind; [|intros; apply all_ret].
    unfold thread_report. rewrite Hi. apply all_ret.
  - intros parsed _. cbv zeta. apply all_bind.
    + destruct (grid_iam env =? -1); [apply all_ret|].
      unfold solve_system, prepare, after_solver, deallocate.
      rewrite !Hi. all_events ltac:(reflexivity).
    + intros _. unfold out, batch_report, batch_send, stat_utime. rewrite Hw.
      all_events ltac:(reflexivity).
Qed.

Lemma quiet_ranks_witness :
  grid_iam (Sample.rank_env 2 2 1 0 Sample.zero Sample.zero) <> 0 /\
  world_rank (Sample.rank_env 2 2 1 0 Sample.zero Sample.zero) <> 0 /\
  Forall (fun e => is_print e = false)
         (trace (main Sample.consts
                      (Sample.rank_env 2 2 1 0 Sample.zero Sample.zero)
                      Sample.argv_2x1x2)).
Proof.
  assert (H1 : grid_iam (Sample.rank_env 2 2 1 0 Sample.zero Sample.zero)
               <> 0) by (simpl; lia).
  assert (H2 : world_rank (Sample.rank_env 2 2 1 0 Sample.zero Sample.zero)
               <> 0) by (simpl; lia).
  split; [exact H1|]. split; [exact H2|].
  apply (quiet_ranks Sample.consts _ Sample.argv_2x1x2 H1 H2).
  intros c. vm_compute. discriminate.
Defined.

Lemma filter_app_nil (f : event -> bool) (l1 l2 : list event) :
  Forall (fun e => f e = false) l1 ->
  List.filter f (l1 ++ l2) = List.filter f l2.
Proof. intros H. rewrite List.filter_app, (filter_none f l1 H). reflexivity. Qed.

(** The file calls of the start-up are those of the loop over [argv]. *)
Lemma startup_file_calls env argv v file :
  result (startup env argv) = Ret (v, file) ->
  List.filter is_file_call (trace (startup env argv)) =
  match file with Some name => [fopen name "r"] | None => [] end /\
  match file with Some name => is_option name = false | None => True end.
Proof.
  intros Hs. destruct argv as [|p args];
    [rewrite startup_nil in Hs; discriminate Hs|].
  pose proof (parse_args_ends_all env args cmdline_init) as He.
  unfold parse_args_ends in He.
  rewrite startup_result in Hs.
  rewrite startup_cons.
  rewrite (bind_run _ _ tt (init_mpi_run env)). cbn [trace fst].
  rewrite filter_app_nil
    by (unfold init_mpi; all_events ltac:(reflexivity)).
  destruct (result (parse_args env args cmdline_init))
    as [parsed| | | |] eqn:Hp; try discriminate Hs.
  rewrite (bind_run _ _ _ Hp). cbn [trace fst].
  destruct (result (init_grid env (fst parsed))) as [[]| | | |] eqn:Hg;
    try discriminate Hs.
  injection Hs as ->.
  rewrite (bind_run _ _ _ Hg). cbn [trace fst].
  rewrite (bind_run _ _ tt (thread_report_run env)). cbn [trace fst ret].
  rewrite app_nil_r, List.filter_app.
  rewrite (filter_none is_file_call (_ ++ _)).
  2:{ apply Forall_app. split.
      - unfold init_grid, fill_usermap, for_range_st.
        all_events ltac:(reflexivity).
      - unfold thread_report. all_events ltac:(reflexivity). }
  rewrite app_nil_r.
  destruct file as [name|].
  - destruct He as (-> & _ & Hn & _). split; [reflexivity|exact Hn].
  - rewrite He. split; reflexivity.
Qed.

(** X16: the file of the matrix.  A rank of the grid that runs to its
    end opens one file, under a name that does not start with a dash, and
    closes it, these being its only calls of [fopen] and [fclose]; a
    rank outside the grid opens the file like the others, when a name is
    given, and never calls [fclose]. *)
Theorem file_opened_and_closed k env argv :
  (grid_iam env <> -1 -> result (main k env argv) = Ret tt ->
   exists name, is_option name = false /\
     List.filter is_file_call (trace (main k env argv)) =
     [fopen name "r"; fclose]) /\
  (grid_iam env = -1 ->
   Forall (fun e => e <> fclose) (trace (main k env argv)) /\
   forall v file, result (startup env argv) = Ret (v, file) ->
     List.filter is_file_call (trace (main k env argv)) =
     match file with Some name => [fopen name "r"] | None => [] end).
Proof.
  split.
  - intros Hi Hret.
    destruct (main_active k env argv Hi Hret) as (v & file & Hs & Hp & Ht).
    destruct (prepare_run _ _ _ _ _ Hp) as (_ & _ & name & -> & Hpt).
    destruct (startup_file_calls env argv v (Some name) Hs) as [Hf Hn].
    exists name. split; [exact Hn|].
    rewrite Ht, Hpt, after_solver_trace, deallocate_trace,
      (out_trace _ _ (or_introl Hi)).
    rewrite List.filter_app, Hf.
    unfold banner, error_report, accuracy_check, full_view_release,
      partial_view_release, common_release, batch_report, batch_send,
      stat_utime.
    apply Z.eqb_neq in Hi. rewrite Hi.
    destruct (grid_iam env =? 0), (info env =? 0), (grid_zscp_Iam env =? 0),
      (batch v =? 0), (world_rank env =? 0);
      reflexivity.
  - intros Hi. split.
    + rewrite (main_inactive k env argv Hi).
      apply all_bind.
      * apply startup_events. intros e He ->. discriminate He.
      * intros parsed. unfold out, batch_report, batch_send, stat_utime.
        all_events ltac:(discriminate).
    + intros v file Hs.
      destruct (startup_file_calls env argv v file Hs) as [Hf _].
      rewrite (main_inactive k env argv Hi).
      rewrite (bind_run _ _ _ Hs). cbn [trace fst].
      rewrite List.filter_app, Hf.
      rewrite (filter_none is_file_call (trace (out env v))).
      * apply app_nil_r.
      * unfold out, batch_report, batch_send, stat_utime. all_events ltac:(reflexivity).
Qed.

Lemma file_opened_and_closed_witness :
  grid_iam (Sample.rank_env 0 0 0 0 Sample.zero Sample.zero) <> -1 /\
  result (main Sample.consts
               (Sample.rank_env 0 0 0 0 Sample.zero Sample.zero)
               Sample.argv_plain) = Ret tt /\
  exists name, is_option name = false /\
    List.filter is_file_call
      (trace (main Sample.consts
                   (Sample.rank_env 0 0 0 0 Sample.zero Sample.zero)
                   Sample.argv_plain)) = [fopen name "r"; fclose].
Proof.
  assert (H1 : grid_iam (Sample.rank_env 0 0 0 0 Sample.zero Sample.zero)
               <> -1) by (simpl; lia).
  assert (H2 : result (main Sample.consts
                         (Sample.rank_env 0 0 0 0 Sample.zero Sample.zero)
                         Sample.argv_plain) = Ret tt)
    by (vm_compute; reflexivity).
  split; [exact H1|]. split; [exact H2|].
  exact (proj1 (file_opened_and_closed Sample.consts _ Sample.argv_plain)
               H1 H2).
Defined.

Lemma for_from_st_result {S} n lo (body : Z -> S -> prog event S) (s : S) :
  (forall i s', (exists s'', result (body i s') = Ret s'') \/
                result (body i s') = Undefined) ->
  (exists s'', result (for_from_st n lo body s) = Ret s'') \/
  result (for_from_st n lo body s) = Undefined.
Proof.
  intros Hb. revert lo s. induction n as [|n IH]; intros lo s.
  - left. exists s. reflexivity.
  - cbn [for_from_st]. rewrite result_bind.
    destruct (Hb lo s) as [[s'' ->]| ->]; [apply IH|right; reflexivity].
Qed.

Lemma init_grid_result env v :
  result (init_grid env v) = Ret tt \/ result (init_grid env v) = Undefined.
Proof.
  unfold init_grid. destruct (negb (batch v =? 0)); [|left; reflexivity].
  rewrite bind_emit. cbn [result snd]. rewrite result_bind.
  destruct (grid_size v) as [count|]; [|right; reflexivity].
  cbn [defined result ret snd]. rewrite bind_emit. cbn [result snd].
  rewrite result_bind.
  destruct (int_div (world_rank env) count) as [color|];
    [|right; reflexivity].
  cbn [defined result ret snd]. rewrite bind_emit. cbn [result snd].
  rewrite result_bind.
  assert (Hf : forall um,
            (exists st, result (fill_usermap v um) = Ret st) \/
            result (fill_usermap v um) = Undefined).
  { intros um. unfold fill_usermap, for_range_st.
    apply for_from_st_result. intros k0 s0.
    apply for_from_st_result. intros i s1.
    apply for_from_st_result. intros j s2.
    rewrite result_bind.
    destruct (usermap_index v i j k0) as [idx|]; [|right; reflexivity].
    cbn [defined result ret snd]. rewrite result_bind. unfold store.
    destruct (_ && _); [|right; reflexivity].
    cbn [result ret snd]. rewrite result_bind.
    destruct (int_add s2.2 1); [left; eexists|right]; reflexivity. }
  destruct (Hf (replicate (Z.to_nat count) None)) as [[st ->]| ->];
    [left|right]; reflexivity.
Qed.

Lemma solve_system_result k env v file :
  match result (solve_system k env v file) with
  | Ret _ | Undefined => True
  | Aborted msg =>
      msg = "Malloc fails for berr[]." /\ berr_malloc_ok env = false
  | _ => False
  end.
Proof.
  unfold solve_system, prepare, banner, after_solver, deallocate.
  destruct file as [name|], (grid_iam env =? 0),
    (berr_malloc_ok env) eqn:Hb, (info env =? 0), (grid_zscp_Iam env =? 0);
    cbn; auto; destruct (find_suffix name None); cbn; auto.
Qed.

(** X17: the ends of a run of the driver: the end of [main];
    [exit (0)], by [-h]; [ABORT ("File does not exist")];
    [ABORT ("Malloc fails for berr[].")], on a rank of the grid whose
    allocation of [berr] fails; or undefined behaviour.  No assertion of
    the driver itself can fail. *)
Theorem main_outcomes k env argv :
  match result (main k env argv) with
  | Ret _ => True
  | Exited c => c = 0
  | Aborted msg =>
      msg = "File does not exist" \/
      (msg = "Malloc fails for berr[]." /\ berr_malloc_ok env = false /\
       grid_iam env <> -1)
  | AssertFailed => False
  | Undefined => True
  end.
Proof.
  unfold main. rewrite result_bind.
  destruct argv as [|p args]; [rewrite startup_nil; exact I|].
  rewrite startup_result.
  pose proof (parse_args_ends_all env args cmdline_init) as He.
  unfold parse_args_ends in He.
  destruct (result (parse_args env args cmdline_init))
    as [[v file]|c|msg| |].
  - destruct (init_grid_result env (fst (v, file))) as [-> | ->];
      [|exact I].
    cbn [fst snd]. rewrite result_bind.
    destruct (Z.eqb_spec (grid_iam env) (-1)) as [Hi|Hi].
    + cbn [result ret snd].
      destruct (Z.eq_dec (batch v) 0) as [Hb|Hb].
      * rewrite (out_run env v (or_intror Hb)). exact I.
      * rewrite (out_undefined env v Hi Hb). exact I.
    + pose proof (solve_system_result k env v file) as Hsol.
      destruct (result (solve_system k env v file)) as [[]|c|msg| |];
        try contradiction; try exact I.
      * rewrite (out_run env v (or_introl Hi)). exact I.
      * right. destruct Hsol as [-> Hb]. auto.
  - apply He.
  - left. apply He.
  - exact He.
  - exact I.
Qed.

(** X18: a command line without a file name.  The loop over [argv]
    leaves [cpp] at the terminating null pointer.  A rank outside the
    grid never reads it: outside batch mode it runs to its end, in batch
    mode its run is undefined at label [out], where it reads times that
    were never allocated.  A rank of the grid reads the pointer (to print
    the name on rank 0, to look for the suffix on the others) and its
    run is undefined, before any call that works on the grid. *)
Theorem no_file_name k env argv (v : cmdline) :
  result (startup env argv) = Ret (v, None) ->
  (grid_iam env = -1 ->
   result (main k env argv) = if batch v =? 0 then Ret tt else Undefined) /\
  (grid_iam env <> -1 ->
   result (main k env argv) = Undefined /\
   Forall (fun e => solver_event e = false) (trace (main k env argv))).
Proof.
  intros Hs.
  assert (Hsol : solve_system k env v None =
                 (if grid_iam env =? 0
                  then [printf "__STDC_VERSION__ %ld\n"
                               [PInt (stdc_version env)];
                        superlu_dist_GetVersionNumber;
                        printf "Library version:\t%d.%d.%d\n"
                               [PInt (fst (fst (version env)));
                                PInt (snd (fst (version env)));
                                PInt (snd (version env))]]
                  else [], Undefined)).
  { unfold solve_system, prepare, banner.
    destruct (grid_iam env =? 0); reflexivity. }
  split.
  - intros Hi. rewrite (main_result k env argv v None Hs), Hi.
    cbn [Z.eqb Pos.eqb].
    destruct (Z.eqb_spec (batch v) 0) as [Hb|Hb].
    + apply out_run. right. exact Hb.
    + rewrite (out_undefined env v Hi Hb). reflexivity.
  - intros Hi. apply Z.eqb_neq in Hi. split.
    + rewrite (main_result k env argv v None Hs), Hi, Hsol. reflexivity.
    + unfold main. rewrite (bind_run _ _ _ Hs). cbn [fst snd trace].
      rewrite Hi, Hsol. cbn [bind trace fst].
      apply Forall_app. split.
      * apply startup_events. intros e He.
        destruct e; try discriminate He; reflexivity.
      * destruct (grid_iam env =? 0); repeat constructor.
Qed.

Lemma no_file_name_witness :
  result (startup (Sample.rank_env 0 0 0 0 Sample.zero Sample.zero)
                  ["pddrive3d"; "-r"; "2"])
  = Ret (set_nprow cmdline_init 2, None) /\
  grid_iam (Sample.rank_env 0 0 0 0 Sample.zero Sample.zero) <> -1 /\
  result (main Sample.consts
               (Sample.rank_env 0 0 0 0 Sample.zero Sample.zero)
               ["pddrive3d"; "-r"; "2"]) = Undefined.
Proof.
  assert (H : result (startup
                        (Sample.rank_env 0 0 0 0 Sample.zero Sample.zero)
                        ["pddrive3d"; "-r"; "2"])
              = Ret (set_nprow cmdline_init 2, None))
    by (vm_compute; reflexivity).
  assert (Hi : grid_iam (Sample.rank_env 0 0 0 0 Sample.zero Sample.zero)
               <> -1) by (simpl; lia).
  split; [exact H|]. split; [exact Hi|].
  exact (proj1 (proj2 (no_file_name Sample.consts _ _ _ H) Hi)).
Defined.

Lemma find_suffix_no_dot name acc :
  no_dot name = true -> find_suffix name acc = acc.
Proof.
  revert acc. induction name as [|c rest IH]; intros acc H; [reflexivity|].
  cbn [no_dot] in H. apply andb_prop in H as [Hc Hrest].
  cbn [find_suffix]. destruct (c =? ".")%char; [discriminate Hc|].
  apply IH, Hrest.
Qed.

Lemma find_suffix_after pre suf acc :
  no_dot suf = true ->
  find_suffix (String.append pre (String "." suf)) acc = Some suf.
Proof.
  intros H. revert acc. induction pre as [|c pre IH]; intros acc.
  - cbn [String.append find_suffix]. cbn [Ascii.eqb Bool.eqb].
    apply find_suffix_no_dot, H.
  - cbn [String.append find_suffix]. apply IH.
Qed.

Lemma find_suffix_some name acc suf :
  find_suffix name acc = Some suf ->
  (acc = Some suf /\ no_dot name = true) \/
  (no_dot suf = true /\
   exists pre, name = String.append pre (String "." suf)).
Proof.
  revert acc. induction name as [|c rest IH]; intros acc H.
  - left. split; [exact H|reflexivity].
  - cbn [find_suffix] in H. apply IH in H as [[Hacc Hrest]|[Hsuf [pre ->]]].
    + destruct (Ascii.eqb_spec c ".") as [->|Hc].
      * injection Hacc as ->. right. split; [exact Hrest|].
        exists EmptyString. reflexivity.
      * left. split; [exact Hacc|]. cbn [no_dot].
        apply Ascii.eqb_neq in Hc. rewrite Hc, Hrest. reflexivity.
    + right. split; [exact Hsuf|]. exists (String c pre). reflexivity.
Qed.

Lemma find_suffix_none name acc :
  find_suffix name acc = None -> acc = None /\ no_dot name = true.
Proof.
  revert acc. induction name as [|c rest IH]; intros acc H.
  - split; [exact H|reflexivity].
  - cbn [find_suffix] in H. apply IH in H as [Hacc Hrest].
    cbn [no_dot]. destruct (c =? ".")%char; [discriminate Hacc|].
    rewrite Hrest. split; [exact Hacc|reflexivity].
Qed.

(** X19: the loop that looks for the suffix of the file name leaves
    [suffix] at what follows the last dot of the name, and leaves it
    untouched, that is without a value, exactly when the name has no
    dot. *)
Theorem find_suffix_last_dot (name : string) :
  (forall suf,
     find_suffix name None = Some suf <->
     no_dot suf = true /\
     exists pre, name = String.append pre (String "." suf)) /\
  (find_suffix name None = None <-> no_dot name = true).
Proof.
  split.
  - intros suf. split.
    + intros H. apply find_suffix_some in H as [[H _]|H];
        [discriminate H|exact H].
    + intros [Hsuf [pre ->]]. apply find_suffix_after, Hsuf.
  - split.
    + intros H. apply find_suffix_none in H as [_ H]. exact H.
    + apply find_suffix_no_dot.
Qed.

Lemma elem_of_filter_bool (f : event -> bool) (l : list event) (e : event) :
  e ∈ List.filter f l -> e ∈ l.
Proof.
  induction l as [|x l IH]; [intros H; exact H|].
  cbn [List.filter]. destruct (f x).
  - intros H. apply elem_of_cons in H as [->|H]; [left|right; apply IH, H].
  - intros H. right. apply IH, H.
Qed.

Lemma prepare_events (P : event -> Prop) k env v file :
  (forall e, prepare_event e = true -> e <> print_options_dist (driver_options k v) -> P e) ->
  P (print_options_dist (driver_options k v)) ->
  Forall P (trace (prepare k env v file)).
Proof.
  intros HP Ho. unfold prepare, banner.
  all_events ltac:(first [exact Ho | apply HP; [reflexivity|discriminate]]).
Qed.

Lemma solve_system_stopped k env v file :
  result (solve_system k env v file) <> Ret tt ->
  trace (solve_system k env v file) = trace (prepare k env v file).
Proof.
  intros H. unfold solve_system in *.
  rewrite result_bind in H. rewrite trace_bind.
  destruct (result (prepare k env v file)) as [o| | | |]; try reflexivity.
  contradiction H. rewrite bind_emit. cbn [result snd].
  rewrite (bind_run _ _ tt (after_solver_run env)). cbn [result snd].
  apply deallocate_run.
Qed.

(** X21: the solver is called exactly in the runs of the ranks of the
    grid that reach the end of [main]: nothing stops the driver once the
    solver has been called, and a run that stops early, or the run of a
    rank outside the grid, does not call the solver. *)
Theorem solver_called_iff k env argv :
  (exists e, e ∈ trace (main k env argv) /\ is_solver_call e = true) <->
  grid_iam env <> -1 /\ result (main k env argv) = Ret tt.
Proof.
  assert (Hnone : forall l, Forall (fun e => is_solver_call e = false) l ->
            ~ exists e, e ∈ l /\ is_solver_call e = true).
  { intros l Hl (e & Hin & He). rewrite Forall_forall in Hl.
    rewrite (Hl e Hin) in He. discriminate He. }
  assert (Hs : Forall (fun e => is_solver_call e = false)
                      (trace (startup env argv))).
  { apply startup_events. intros e He.
    destruct e; try discriminate He; reflexivity. }
  split.
  - intros Hcall.
    destruct (main_cases k env argv)
      as [(v & file & Hst & _ & Hmid & Hmain)
         |[(Hne & Ht & _)
          |[(Hne & v & file & Hst & Hi & Hres & Ht)
           |(v & file & Hst & Hi & Hbatch & Hmain)]]].
    + split; [|rewrite Hmain; reflexivity].
      intros Hi. exfalso. revert Hcall. apply Hnone.
      rewrite (main_inactive k env argv Hi).
      apply all_bind; [exact Hs|intros parsed].
      unfold out, batch_report, batch_send, stat_utime. all_events ltac:(reflexivity).
    + exfalso. revert Hcall. apply Hnone. rewrite Ht. exact Hs.
    + exfalso. revert Hcall. apply Hnone. rewrite Ht.
      apply Forall_app. split; [exact Hs|].
      rewrite (solve_system_stopped k env v file Hres).
      apply prepare_events; [|reflexivity].
      intros e He _. destruct e; try discriminate He; reflexivity.
    + exfalso. revert Hcall. apply Hnone. rewrite Hmain. exact Hs.
  - intros [Hi Hret].
    destruct (solver_call_once k env argv Hi Hret) as (v & file & _ & Hf).
    exists (pdgssvx3d (driver_options k v) (ldb env) nrhs).
    split; [|reflexivity].
    assert (Hin : pdgssvx3d (driver_options k v) (ldb env) nrhs ∈
                  List.filter is_solver_call (trace (main k env argv)))
      by (rewrite Hf; left).
    apply elem_of_filter_bool in Hin. exact Hin.
Qed.

(** X22: one record of options per run: the options shown by
    [print_options_dist], those the solver is given, and those handed to
    [PStatPrint] and to [dSolveFinalize] are the same record, the one
    built from the variables the command line has set. *)
Theorem one_options_record k env argv :
  forall e o, e ∈ trace (main k env argv) -> options_of e = Some o ->
    exists v file, result (startup env argv) = Ret (v, file) /\
                   o = driver_options k v.
Proof.
  intros e o Hin Ho.
  assert (Hs : Forall (fun e => options_of e = None)
                      (trace (startup env argv))).
  { apply startup_events. intros e' He.
    destruct e'; try discriminate He; reflexivity. }
  assert (Hout : forall v, Forall (fun e => options_of e = None)
                                  (trace (out env v))).
  { intros v. unfold out, batch_report, batch_send, stat_utime. all_events ltac:(reflexivity). }
  assert (Hm : forall v file,
            Forall (fun e => forall o, options_of e = Some o ->
                                       o = driver_options k v)
                   (trace (solve_system k env v file))).
  { intros v file. unfold solve_system. apply all_bind_ret.
    - unfold prepare, banner.
      all_events ltac:(cbn [options_of]; intros ? [= <-]; reflexivity).
    - intros a Ha. destruct (prepare_run _ _ _ _ _ Ha) as (-> & _).
      unfold after_solver, deallocate.
      all_events ltac:(cbn [options_of]; intros ? [= <-]; reflexivity). }
  assert (Hno : forall l, Forall (fun e => options_of e = None) l ->
                          e ∈ l -> False).
  { intros l Hl Hl'. rewrite Forall_forall in Hl.
    rewrite (Hl e Hl') in Ho. discriminate Ho. }
  unfold main in Hin. rewrite trace_bind in Hin.
  destruct (result (startup env argv)) as [[v file]| | | |] eqn:Hst;
    try (exfalso; apply (Hno _ Hs Hin)).
  exists v, file. split; [reflexivity|].
  apply elem_of_app in Hin as [Hin|Hin]; [exfalso; apply (Hno _ Hs Hin)|].
  cbn [fst snd] in Hin. rewrite trace_bind in Hin.
  assert (Hmid : e ∈ trace (if grid_iam env =? -1 then ret tt
                            else solve_system k env v file) ->
                 o = driver_options k v).
  { destruct (grid_iam env =? -1); [intros H; inversion H|].
    intros H. pose proof (Hm v file) as Hall.
    rewrite Forall_forall in Hall. apply (Hall e H o Ho). }
  destruct (result (if grid_iam env =? -1 then ret tt
                    else solve_system k env v file));
    try (apply Hmid, Hin).
  apply elem_of_app in Hin as [Hin|Hin]; [apply Hmid, Hin|].
  exfalso. apply (Hno _ (Hout v) Hin).
Qed.

Lemma one_options_record_witness :
  pdgssvx3d (driver_options Sample.consts
               (set_npdep (set_npcol (set_nprow cmdline_init 2) 1) 2))
            100 nrhs
  ∈ trace (main Sample.consts
                (Sample.rank_env 0 0 0 0 Sample.zero Sample.zero)
                Sample.argv_2x1x2) /\
  exists v file,
    result (startup (Sample.rank_env 0 0 0 0 Sample.zero Sample.zero)
                    Sample.argv_2x1x2) = Ret (v, file) /\
    driver_options Sample.consts
      (set_npdep (set_npcol (set_nprow cmdline_init 2) 1) 2)
    = driver_options Sample.consts v.
Proof.
  assert (H : pdgssvx3d (driver_options Sample.consts
                 (set_npdep (set_npcol (set_nprow cmdline_init 2) 1) 2))
                100 nrhs
              ∈ trace (main Sample.consts
                         (Sample.rank_env 0 0 0 0 Sample.zero Sample.zero)
                         Sample.argv_2x1x2)).
  { vm_compute. repeat first [left | right]. }
  split; [exact H|].
  exact (one_options_record Sample.consts _ Sample.argv_2x1x2 _ _ H eq_refl).
Defined.

End RunFacts.

Module MapFacts.
Import Driver Grid GridFacts.

Lemma usermap_value_one_row C s :
  0 < C -> usermap_value 1 C s = s.
Proof.
  intros HC. unfold usermap_value.
  rewrite !Z.div_1_r, Z.mod_1_r.
  pose proof (Z.div_mod s C ltac:(lia)). lia.
Qed.

Lemma usermap_value_one_column R s :
  0 < R -> usermap_value R 1 s = s.
Proof.
  intros HR. unfold usermap_value.
  rewrite !Z.div_1_r, Z.mod_1_r.
  pose proof (Z.div_mod s R ltac:(lia)). lia.
Qed.

Lemma usermap_value_second R C :
  1 < R -> 0 < C -> usermap_value R C 1 = C.
Proof.
  intros HR HC. unfold usermap_value.
  rewrite (Z.div_small 1 R), (Z.mod_small 1 R) by lia.
  rewrite Z.div_0_l, Z.mod_0_l by lia. lia.
Qed.

(** X20: the map of batch mode.  For dimensions that are positive and
    whose product is an [int], the three loops leave in [usermap] the
    ranks 0, 1, 2, ... in this order exactly when the grid has one
    process row or one process column; otherwise slot 1 holds [npcol]. *)
Theorem usermap_identity_iff (v : cmdline) :
  dims_ok v ->
  let count := nprow v * npcol v * npdep v in
  (fill_usermap v (replicate (Z.to_nat count) None) =
   ret (Some <$> seqZ 0 count, count)
   <-> nprow v = 1 \/ npcol v = 1) /\
  (1 < nprow v -> 1 < npcol v ->
   exists um, fill_usermap v (replicate (Z.to_nat count) None)
              = ret (um, count) /\
              um !! 1%nat = Some (Some (npcol v))).
Proof.
  intros Hd count. pose proof Hd as (HR & HC & HD & Hmax).
  pose proof (fill_usermap_run v Hd) as Hrun. cbv zeta in Hrun.
  fold count in Hrun. rewrite Hrun. clear Hrun.
  set (R := nprow v) in *. set (C := npcol v) in *. set (D := npdep v) in *.
  assert (Hsecond : 1 < R -> 1 < C ->
            driver_usermap R C D !! 1%nat = Some (Some C)).
  { intros H1 H2. rewrite driver_usermap_lookup by nia.
    change (Z.of_nat 1) with 1. rewrite usermap_value_second by lia.
    reflexivity. }
  split.
  - split.
    + intros H. injection H as H.
      destruct (Z.eq_dec R 1) as [|HR1]; [left; assumption|].
      destruct (Z.eq_dec C 1) as [|HC1]; [right; assumption|].
      exfalso. assert (H1 : 1 < R) by lia. assert (H2 : 1 < C) by lia.
      pose proof (Hsecond H1 H2) as Hl. rewrite H in Hl.
      rewrite list_lookup_fmap, lookup_seqZ_lt in Hl by (unfold count; nia).
      cbn in Hl. injection Hl as Hl. lia.
    + intros Hone. unfold ret. do 3 f_equal.
      apply list_eq. intros s.
      destruct (Z_lt_le_dec (Z.of_nat s) count) as [Hs|Hs].
      * rewrite driver_usermap_lookup by (fold count; lia).
        rewrite list_lookup_fmap, lookup_seqZ_lt by exact Hs.
        cbn [fmap option_fmap option_map]. do 2 f_equal.
        destruct Hone as [-> | ->];
          [apply usermap_value_one_row|apply usermap_value_one_column];
          lia.
      * rewrite list_lookup_fmap, lookup_seqZ_ge by exact Hs.
        apply lookup_ge_None_2. unfold driver_usermap.
        rewrite usermap_upto_length. fold count. lia.
  - intros H1 H2. exists (driver_usermap R C D).
    split; [reflexivity|apply Hsecond; assumption].
Qed.

Lemma usermap_identity_iff_witness :
  dims_ok Sample.batch_2x1x2 /\
  fill_usermap Sample.batch_2x1x2 (replicate 4 None) =
  ret (Some <$> seqZ 0 4, 4).
Proof.
  assert (H : dims_ok Sample.batch_2x1x2)
    by (unfold dims_ok, INT_MAX; simpl; lia).
  split; [exact H|].
  apply (proj1 (usermap_identity_iff Sample.batch_2x1x2 H)).
  right. reflexivity.
Defined.

End MapFacts.

Module OverrideFacts.
Import Driver DriverFacts CmdlineFacts RunFacts.

Lemma flag_char_inj (f g : flag) :
  (flag_char g =? flag_char f)%char = true -> g = f.
Proof. destruct f, g; intros H; try reflexivity; discriminate H. Qed.

Lemma flag_char_known (f : flag) : known_letter (flag_char f) = true.
Proof. destruct f; reflexivity. Qed.

Lemma flag_get_set (f g : flag) v n :
  flag_get f (flag_set g v n) =
  if (flag_char g =? flag_char f)%char then n else flag_get f v.
Proof. destruct f, g; reflexivity. Qed.

Lemma flag_set_get (f : flag) v : flag_set f v (flag_get f v) = v.
Proof. destruct f, v; reflexivity. Qed.

(** The three shapes of a list of arguments, for proofs that follow the
    pairs of the command line. *)
Lemma by_pairs (P : list string -> Prop) :
  P [] -> (forall a, P [a]) ->
  (forall a x rest, P rest -> P (a :: x :: rest)) ->
  forall args, P args.
Proof.
  intros H0 H1 H2 args.
  enough (H : P args /\ forall a, P (a :: args)) by apply H.
  induction args as [|x rest [IH1 IH2]].
  - split; [exact H0|exact H1].
  - split; [apply IH2|]. intros a. apply H2, IH1.
Qed.

Lemma last_given_cur c args cur :
  last_given c args cur =
  match last_given c args None with Some y => Some y | None => cur end.
Proof.
  revert cur. induction args as [| a | a x rest IH] using by_pairs;
    intros cur.
  - reflexivity.
  - cbn [last_given]. destruct (is_option a); reflexivity.
  - cbn [last_given]. destruct (is_option a); [|reflexivity].
    rewrite (IH (if (second_char a =? c)%char then Some x else cur)).
    rewrite (IH (if (second_char a =? c)%char then Some x else None)).
    destruct (last_given c rest None); [reflexivity|].
    destruct (second_char a =? c)%char; reflexivity.
Qed.

(** The variable of an option holds, when the loop over [argv] ends,
    the number that follows the last occurrence of the option, and what
    it held before when the option is not given. *)
Lemma parse_args_value env (f : flag) args :
  forall v0 v file,
    result (parse_args env args v0) = Ret (v, file) ->
    flag_get f v =
    match last_given (flag_char f) args None with
    | Some x => default (-1) (atoi x)
    | None => flag_get f v0
    end.
Proof.
  induction args as [| a | a x rest IH] using by_pairs; intros v0 v file Hr.
  - injection Hr as <- _. reflexivity.
  - cbn [last_given]. destruct (is_option a) eqn:Ha.
    + exfalso.
      destruct (parse_args_option env a Ha) as [[_ H]|[(g & _ & H)|[_ H]]];
        rewrite H in Hr; discriminate Hr.
    + rewrite (parse_args_name env a [] v0 Ha) in Hr. cbn [result snd] in Hr.
      destruct (file_exists env a); [|discriminate Hr].
      injection Hr as <- _. reflexivity.
  - cbn [last_given]. destruct (is_option a) eqn:Ha.
    + destruct (parse_args_option env a Ha)
        as [[_ H]|[(g & Hc & H)|[Hc H]]]; rewrite H in Hr.
      * discriminate Hr.
      * destruct (atoi x) as [n|] eqn:Hx; [|discriminate Hr].
        cbn [defined] in Hr. rewrite bind_ret_l in Hr.
        rewrite last_given_cur, Hc, (IH _ _ _ Hr).
        destruct (last_given (flag_char f) rest None); [reflexivity|].
        rewrite flag_get_set.
        destruct (flag_char g =? flag_char f)%char;
          [rewrite Hx|]; reflexivity.
      * rewrite last_given_cur, (IH _ _ _ Hr).
        destruct (last_given (flag_char f) rest None); [reflexivity|].
        destruct (Ascii.eqb_spec (second_char a) (flag_char f)) as [E|E];
          [|reflexivity].
        rewrite E, flag_char_known in Hc. discriminate Hc.
    + rewrite (parse_args_name env a (x :: rest) v0 Ha) in Hr.
      cbn [result snd] in Hr.
      destruct (file_exists env a); [|discriminate Hr].
      injection Hr as <- _. reflexivity.
Qed.

(** The loop over [argv] on the command line without the options of one
    letter: the same calls, the same variables but the one these options
    set. *)
Lemma parse_args_without env (f : flag) args :
  forall v0 v file z,
    result (parse_args env args v0) = Ret (v, file) ->
    parse_args env (without_option (flag_char f) args) (flag_set f v0 z) =
    (trace (parse_args env args v0), Ret (flag_set f v z, file)).
Proof.
  induction args as [| a | a x rest IH] using by_pairs;
    intros v0 v file z Hr.
  - injection Hr as <- <-. reflexivity.
  - cbn [without_option]. destruct (is_option a) eqn:Ha.
    + exfalso.
      destruct (parse_args_option env a Ha) as [[_ H]|[(g & _ & H)|[_ H]]];
        rewrite H in Hr; discriminate Hr.
    + rewrite (parse_args_name env a [] v0 Ha) in Hr |- *.
      rewrite (parse_args_name env a [] _ Ha).
      cbn [result trace fst snd] in *.
      destruct (file_exists env a); [|discriminate Hr].
      injection Hr as <- <-. reflexivity.
  - cbn [without_option]. destruct (is_option a) eqn:Ha.
    + destruct (parse_args_option env a Ha)
        as [[_ H]|[(g & Hc & H)|[Hc H]]]; rewrite H in Hr |- *.
      * discriminate Hr.
      * destruct (atoi x) as [n|] eqn:Hx; [|discriminate Hr].
        cbn [defined] in Hr |- *. rewrite bind_ret_l in Hr |- *.
        rewrite Hc.
        destruct (flag_char g =? flag_char f)%char eqn:E.
        -- apply flag_char_inj in E. subst g.
           rewrite <- (flag_set_twice f v0 n z). apply IH, Hr.
        -- rewrite H, Hx. cbn [defined]. rewrite bind_ret_l.
           rewrite <- flag_set_comm
             by (intros ->; rewrite Ascii.eqb_refl in E; discriminate E).
           apply IH, Hr.
      * destruct (Ascii.eqb_spec (second_char a) (flag_char f)) as [E|E].
        { rewrite E, flag_char_known in Hc. discriminate Hc. }
        rewrite H. apply IH, Hr.
    + rewrite (parse_args_name env a (x :: rest) v0 Ha) in Hr |- *.
      rewrite (parse_args_name env a (x :: rest) _ Ha).
      cbn [result trace fst snd] in *.
      destruct (file_exists env a); [|discriminate Hr].
      injection Hr as <- <-. reflexivity.
Qed.

Lemma main_without k env p (f : flag) args v file :
  result (parse_args env args cmdline_init) = Ret (v, file) ->
  flag_get f cmdline_init = -1 -> flag_get f v = -1 ->
  main k env (p :: without_option (flag_char f) args) = main k env (p :: args).
Proof.
  intros Hr H0 Hv.
  pose proof (parse_args_without env f args cmdline_init v file (-1) Hr) as H.
  rewrite <- H0, flag_set_get in H. rewrite H0, <- Hv, flag_set_get in H.
  assert (Heq : parse_args env (without_option (flag_char f) args)
                           cmdline_init
                = parse_args env args cmdline_init).
  { rewrite H. destruct (parse_args env args cmdline_init) as [t o].
    cbn [result trace fst snd] in *. subst o. reflexivity. }
  unfold main, startup. cbn [defined]. rewrite !bind_ret_l, Heq.
  reflexivity.
Qed.

(** C9: for each of [-l], [-p], [-q] and [-i], the variable of the
    option holds, once the command line is read, the number that follows
    the last occurrence of the option, and -1 when the option is not
    given; the solver is called with this number as its option when it
    is not -1, and with the default when it is -1; and a command line on
    which the value of the option is -1 gives the run of the command
    line without the option. *)
Theorem override_unless_minus_one k env (p : string) (args : list string)
        (v : cmdline) (file : option string) :
  result (parse_args env args cmdline_init) = Ret (v, file) ->
  (lookahead v = parsed_value "l" args /\
   rowperm v = parsed_value "p" args /\
   colperm v = parsed_value "q" args /\
   ir v = parsed_value "i" args) /\
  (grid_iam env <> -1 -> result (main k env (p :: args)) = Ret tt ->
   exists o,
     List.filter is_solver_call (trace (main k env (p :: args))) =
     [pdgssvx3d o (ldb env) nrhs] /\
     let d := set_default_options_dist k in
     num_lookaheads o =
       (if parsed_value "l" args =? -1 then num_lookaheads d
        else parsed_value "l" args) /\
     RowPerm o =
       (if parsed_value "p" args =? -1 then RowPerm d
        else parsed_value "p" args) /\
     ColPerm o =
       (if parsed_value "q" args =? -1 then ColPerm d
        else parsed_value "q" args) /\
     IterRefine o =
       (if parsed_value "i" args =? -1 then IterRefine d
        else parsed_value "i" args)) /\
  (forall c, c ∈ ["l"; "p"; "q"; "i"]%char ->
     parsed_value c args = -1 ->
     main k env (p :: without_option c args) = main k env (p :: args)).
Proof.
  intros Hr.
  assert (Hval : forall f, flag_get f cmdline_init = -1 ->
            flag_get f v = parsed_value (flag_char f) args).
  { intros f H0. rewrite (parse_args_value env f args _ _ _ Hr).
    unfold parsed_value.
    destruct (last_given (flag_char f) args None); [reflexivity|exact H0]. }
  pose proof (Hval Fl eq_refl) as Hl. pose proof (Hval Fp eq_refl) as Hp.
  pose proof (Hval Fq eq_refl) as Hq. pose proof (Hval Fi eq_refl) as Hi.
  cbn [flag_get flag_char] in Hl, Hp, Hq, Hi.
  split; [repeat split; assumption|]. split.
  - intros Hiam Hret.
    destruct (solver_call_once k env (p :: args) Hiam Hret)
      as (v' & file' & Hs & Hf).
    rewrite startup_result, Hr in Hs. cbn [fst] in Hs.
    destruct (result (init_grid env v)) as [[]| | | |];
      try discriminate Hs.
    injection Hs as <- <-.
    exists (driver_options k v). split; [exact Hf|].
    cbv zeta. rewrite <- Hl, <- Hp, <- Hq, <- Hi.
    apply driver_options_overrides.
  - intros c Hc Hm1.
    repeat (apply elem_of_cons in Hc as [->|Hc]); [| | | |inversion Hc].
    + apply (main_without k env p Fl args v file Hr eq_refl).
      cbn [flag_get]. rewrite Hl. exact Hm1.
    + apply (main_without k env p Fp args v file Hr eq_refl).
      cbn [flag_get]. rewrite Hp. exact Hm1.
    + apply (main_without k env p Fq args v file Hr eq_refl).
      cbn [flag_get]. rewrite Hq. exact Hm1.
    + apply (main_without k env p Fi args v file Hr eq_refl).
      cbn [flag_get]. rewrite Hi. exact Hm1.
Qed.

(** C9 on [pddrive3d -l 5 -i 2 -l -1 g20.rua]: the look-ahead depth is
    the default, as on the command line without [-l]; the refinement is
    the one asked for. *)
Lemma override_unless_minus_one_witness :
  result (parse_args (Sample.rank_env 0 0 0 0 Sample.zero Sample.zero)
                     ["-l"; "5"; "-i"; "2"; "-l"; "-1"; "g20.rua"]
                     cmdline_init)
  = Ret (set_lookahead (set_ir (set_lookahead cmdline_init 5) 2) (-1),
         Some "g20.rua") /\
  parsed_value "l" ["-l"; "5"; "-i"; "2"; "-l"; "-1"; "g20.rua"] = -1 /\
  parsed_value "i" ["-l"; "5"; "-i"; "2"; "-l"; "-1"; "g20.rua"] = 2 /\
  main Sample.consts (Sample.rank_env 0 0 0 0 Sample.zero Sample.zero)
       ("pddrive3d" :: ["-i"; "2"; "g20.rua"]) =
  main Sample.consts (Sample.rank_env 0 0 0 0 Sample.zero Sample.zero)
       ("pddrive3d" :: ["-l"; "5"; "-i"; "2"; "-l"; "-1"; "g20.rua"]) /\
  exists o,
    List.filter is_solver_call
      (trace (main Sample.consts
                   (Sample.rank_env 0 0 0 0 Sample.zero Sample.zero)
                   ("pddrive3d" ::
                    ["-l"; "5"; "-i"; "2"; "-l"; "-1"; "g20.rua"]))) =
    [pdgssvx3d o 100 nrhs] /\
    num_lookaheads o = num_lookaheads (set_default_options_dist Sample.consts)
    /\ IterRefine o = 2.
Proof.
  assert (Hr : result (parse_args
                         (Sample.rank_env 0 0 0 0 Sample.zero Sample.zero)
                         ["-l"; "5"; "-i"; "2"; "-l"; "-1"; "g20.rua"]
                         cmdline_init)
               = Ret (set_lookahead (set_ir (set_lookahead cmdline_init 5) 2)
                                    (-1), Some "g20.rua"))
    by reflexivity.
  destruct (override_unless_minus_one Sample.consts _ "pddrive3d" _ _ _ Hr)
    as (_ & Hsolver & Hwithout).
  split; [exact Hr|]. split; [reflexivity|]. split; [reflexivity|]. split.
  - apply (Hwithout "l"%char); [left|reflexivity].
  - destruct Hsolver as (o & Hf & Ho); [simpl; lia|vm_compute; reflexivity|].
    exists o. split; [exact Hf|]. cbv zeta in Ho.
    destruct Ho as (Hl & _ & _ & Hi). split; [exact Hl|exact Hi].
Defined.

End OverrideFacts.
